(** * Dungeon1: dungeon generation, movement and combat of main.js

    A shallow embedding of the game logic of [src/main.js] and the
    properties its specification states about it.

    Modelling conventions.
    - JavaScript numbers are modelled by exact numbers: the integer valued
      ones (grid sizes, cell indices, health) by [Z], the others (positions,
      time stamps, values of [Math.random]) by [Q].  Rounding of binary
      floating point is not modelled.
    - A JavaScript array is an object whose own properties are its keys:
      a row of the grid is a [gmap Z Cell], the grid a [gmap Z] of rows.
      Reading a key that was never written gives [undefined] ([None]);
      writing any integer key defines it.
    - An uncaught [TypeError] (a property read or written on [undefined])
      is the [None] of the option monad.
    - [Math.random] is a sequence [rand : nat -> Q] together with the number
      of values drawn so far; [Math.sqrt] is a parameter [sqrt : Q -> Q];
      [performance.now()] and [clock.getDelta()] are inputs of each frame.
    - The scene, the camera, the lights and the health bar are not
      modelled; of the rendering only the grid last given to
      [buildDungeon] is kept. *)

From Stdlib Require Import ZArith QArith Qround Lia Lqa.
From stdpp Require Import base option list gmap strings.

#[local] Open Scope Z_scope.

(** ** Constants (main.js lines 6-17) *)

Definition DUNGEON_WIDTH : Z := 30.
Definition DUNGEON_HEIGHT : Z := 30.
Definition MAX_ROOMS : Z := 6.
Definition ROOM_MIN_SIZE : Z := 3.
Definition ROOM_MAX_SIZE : Z := 6.

Definition PLAYER_SPEED : Q := 3%Q.
Definition ENEMY_SPEED : Q := (3 # 2)%Q.
Definition PLAYER_MAX_HEALTH : Z := 100.
Definition ENEMY_MAX_HEALTH : Z := 50.
Definition ENEMY_DAMAGE : Z := 10.
Definition ATTACK_INTERVAL : Q := 1000%Q.

(** ** Grid *)

(** [0 = wall, 1 = floor] *)
Inductive Cell : Type := Wall | Floor.

#[global] Instance Cell_eq_dec : EqDecision Cell.
Proof. solve_decision. Defined.

Abbreviation Row := (gmap Z Cell).
Abbreviation Grid := (gmap Z (gmap Z Cell)).

(** [grid[yy][xx]]: a [TypeError] when [grid[yy]] is undefined, otherwise
    the value stored in the row, [undefined] when there is none. *)
Definition readCell (g : Grid) (yy xx : Z) : option (option Cell) :=
  match g !! yy with
  | Some row => Some (row !! xx)
  | None => None
  end.

(** [grid[yy][xx] = v]: a [TypeError] when [grid[yy]] is undefined. *)
Definition writeCell (g : Grid) (yy xx : Z) (v : Cell) : option Grid :=
  match g !! yy with
  | Some row => Some (<[yy := <[xx := v]> row]> g)
  | None => None
  end.

(** [dungeonGrid[cellZ] && dungeonGrid[cellZ][cellX] === 1] *)
Definition isFloor (g : Grid) (cellX cellZ : Z) : bool :=
  match g !! cellZ with
  | Some row => bool_decide (row !! cellX = Some Floor)
  | None => false
  end.

(** A [for] loop over the values of [l], in order, whose body may throw. *)
Fixpoint forEach {A S : Type} (l : list A) (body : A → S → option S) (s : S)
  : option S :=
  match l with
  | [] => Some s
  | v :: l' =>
      match body v s with
      | Some s' => forEach l' body s'
      | None => None
      end
  end.

(** [for (let v = lo; v < hi; v++)] *)
Definition range (lo hi : Z) : list Z := seqZ lo (hi - lo).

(** [for (let v = lo; v <= hi; v++)] *)
Definition rangeIncl (lo hi : Z) : list Z := seqZ lo (hi - lo + 1).

(** Lines 127-133: every cell of a [height] by [width] grid is a wall. *)
Definition wallRow (width : Z) : gmap Z Cell :=
  foldl (λ row x, <[x := Wall]> row) ∅ (range 0 width).

Definition initGrid (width height : Z) : Grid :=
  foldl (λ g y, <[y := wallRow width]> g) ∅ (range 0 height).

(** ** Dungeon generation (lines 125-208) *)

Record RoomCenter : Type := mkCenter { cx : Z; cy : Z }.

#[global] Instance RoomCenter_eq_dec : EqDecision RoomCenter.
Proof. solve_decision. Defined.

Record Dungeon : Type := mkDungeon {
  grid : Grid;
  rooms : list RoomCenter
}.

(** A candidate rectangle [(x, y, w, h)]. *)
Record Rect : Type := mkRect { rx : Z; ry : Z; rw : Z; rh : Z }.

Definition inRect (r : Rect) (xx yy : Z) : Prop :=
  rx r ≤ xx < rx r + rw r ∧ ry r ≤ yy < ry r + rh r.

(** The state of a run of [generateDungeon]: the two locals [grid] and
    [rooms], and the number [drawn] of values taken from [Math.random].
    [accepted] is a specification-only trace (nothing in the generator reads
    it): the rectangles that were carved, in placement order; the source
    keeps only their centers. *)
Record GenState : Type := mkGen {
  g_grid : Grid;
  g_rooms : list RoomCenter;
  g_accepted : list Rect;
  g_drawn : nat
}.

Section Generator.

(** The values returned by the successive calls of [Math.random()]. *)
Variable rand : nat → Q.

(** [Math.floor(Math.random() * n)] on the draw number [k]. *)
Definition randomBelow (k : nat) (n : Z) : Z :=
  Qfloor (rand k * inject_Z n).

(** Lines 137-143. *)
Definition carveRoom (x y w h : Z) (g : Grid) : option Grid :=
  forEach (range y (y + h)) (λ yy g,
    forEach (range x (x + w)) (λ xx g, writeCell g yy xx Floor) g) g.

(** Lines 152-159: both loops stop as soon as [overlaps] is set. *)
Definition checkOverlap (x y w h : Z) (g : Grid) : option bool :=
  forEach (range y (y + h)) (λ yy overlaps,
    forEach (range x (x + w)) (λ xx overlaps,
      if (overlaps : bool) then Some true
      else match readCell g yy xx with
           | Some c => Some (bool_decide (c = Some Floor))
           | None => None
           end) overlaps) false.

(** Lines 147-167: one iteration of the placement loop. *)
Definition placeRoom (width height roomMin roomMax : Z) (st : GenState)
  : option GenState :=
  let k := g_drawn st in
  let w := randomBelow k (roomMax - roomMin + 1) + roomMin in
  let h := randomBelow (k + 1) (roomMax - roomMin + 1) + roomMin in
  let x := randomBelow (k + 2) (width - w - 2) + 1 in
  let y := randomBelow (k + 3) (height - h - 2) + 1 in
  match checkOverlap x y w h (g_grid st) with
  | None => None
  | Some true =>
      Some (mkGen (g_grid st) (g_rooms st) (g_accepted st) (k + 4))
  | Some false =>
      match carveRoom x y w h (g_grid st) with
      | None => None
      | Some g' =>
          let centerX := Qfloor (inject_Z x + inject_Z w / 2) in
          let centerY := Qfloor (inject_Z y + inject_Z h / 2) in
          Some (mkGen g' (g_rooms st ++ [mkCenter centerX centerY])
                  (g_accepted st ++ [mkRect x y w h]) (k + 4))
      end
  end.

(** Lines 183-185 and 200-202: [grid[y][x] = 1] for [x] from the smaller
    to the larger of [x1], [x2]. *)
Definition carveH (y x1 x2 : Z) (g : Grid) : option Grid :=
  forEach (rangeIncl (Z.min x1 x2) (Z.max x1 x2))
    (λ x g, writeCell g y x Floor) g.

(** Lines 188-190 and 195-197. *)
Definition carveV (x y1 y2 : Z) (g : Grid) : option Grid :=
  forEach (rangeIncl (Z.min y1 y2) (Z.max y1 y2))
    (λ y g, writeCell g y x Floor) g.

(** Lines 173-203: the corridor between [rooms[i-1]] and [rooms[i]]. *)
Definition connectRooms (i : nat) (st : GenState) : option GenState :=
  match g_rooms st !! (i - 1)%nat, g_rooms st !! i with
  | Some r1, Some r2 =>
      let x1 := cx r1 in let y1 := cy r1 in
      let x2 := cx r2 in let y2 := cy r2 in
      let k := g_drawn st in
      let carved :=
        if Qlt_le_dec (rand k) (1 # 2) then
          match carveH y1 x1 x2 (g_grid st) with
          | Some g1 => carveV x2 y1 y2 g1
          | None => None
          end
        else
          match carveV x1 y1 y2 (g_grid st) with
          | Some g1 => carveH y2 x1 x2 g1
          | None => None
          end in
      match carved with
      | Some g' =>
          Some (mkGen g' (g_rooms st) (g_accepted st) (k + 1))
      | None => None
      end
  | _, _ => None
  end.

(** Lines 146-168. *)
Definition placeRooms (width height maxRooms roomMin roomMax : Z)
  (st : GenState) : option GenState :=
  forEach (range 0 maxRooms)
    (λ _ st, placeRoom width height roomMin roomMax st) st.

(** Lines 171-205. *)
Definition connectAll (st : GenState) : option GenState :=
  if decide (1 < length (g_rooms st))%nat then
    forEach (seq 1 (length (g_rooms st) - 1)) connectRooms st
  else Some st.

(** The whole run, started when [k] values have been drawn. *)
Definition generateRun (width height maxRooms roomMin roomMax : Z)
  (k : nat) : option GenState :=
  match placeRooms width height maxRooms roomMin roomMax
          (mkGen (initGrid width height) [] [] k) with
  | Some st => connectAll st
  | None => None
  end.

(** [generateDungeon(width, height, maxRooms, roomMin, roomMax)]: the
    returned [{ grid, rooms }] and the number of values drawn at the
    end. *)
Definition generateDungeon (width height maxRooms roomMin roomMax : Z)
  (k : nat) : option (Dungeon * nat) :=
  match generateRun width height maxRooms roomMin roomMax k with
  | Some st => Some (mkDungeon (g_grid st) (g_rooms st), g_drawn st)
  | None => None
  end.

End Generator.

(** ** Game session (lines 19-28, 240-443) *)

(** [mesh.position.x] and [mesh.position.z] of an actor. *)
Record Vec : Type := mkVec { vx : Q; vz : Q }.

(** [const keys = { up, down, left, right }] *)
Record Keys : Type := mkKeys {
  up : bool; down : bool; left : bool; right : bool
}.

(** The module-level variables.  [dungeonGrid] is the [const] of line 433;
    [builtGrid] is the grid last given to [buildDungeon], the one whose
    walls were added to the scene; [gameOverShown] is the display state of
    the game-over text; [drawn] counts the calls of [Math.random]. *)
Record Session : Type := mkSession {
  dungeonGrid : Grid;
  builtGrid : Grid;
  playerMesh : option Vec;
  enemyMesh : option Vec;
  playerHealth : Z;
  enemyHealth : Z;
  lastEnemyAttackTime : Q;
  keys : Keys;
  gameOverShown : bool;
  drawn : nat
}.

Definition set_builtGrid (g : Grid) (s : Session) : Session :=
  mkSession (dungeonGrid s) g (playerMesh s) (enemyMesh s) (playerHealth s)
    (enemyHealth s) (lastEnemyAttackTime s) (keys s) (gameOverShown s)
    (drawn s).
Definition set_playerMesh (p : option Vec) (s : Session) : Session :=
  mkSession (dungeonGrid s) (builtGrid s) p (enemyMesh s) (playerHealth s)
    (enemyHealth s) (lastEnemyAttackTime s) (keys s) (gameOverShown s)
    (drawn s).
Definition set_enemyMesh (e : option Vec) (s : Session) : Session :=
  mkSession (dungeonGrid s) (builtGrid s) (playerMesh s) e (playerHealth s)
    (enemyHealth s) (lastEnemyAttackTime s) (keys s) (gameOverShown s)
    (drawn s).
Definition set_playerHealth (h : Z) (s : Session) : Session :=
  mkSession (dungeonGrid s) (builtGrid s) (playerMesh s) (enemyMesh s) h
    (enemyHealth s) (lastEnemyAttackTime s) (keys s) (gameOverShown s)
    (drawn s).
Definition set_enemyHealth (h : Z) (s : Session) : Session :=
  mkSession (dungeonGrid s) (builtGrid s) (playerMesh s) (enemyMesh s)
    (playerHealth s) h (lastEnemyAttackTime s) (keys s) (gameOverShown s)
    (drawn s).
Definition set_lastEnemyAttackTime (t : Q) (s : Session) : Session :=
  mkSession (dungeonGrid s) (builtGrid s) (playerMesh s) (enemyMesh s)
    (playerHealth s) (enemyHealth s) t (keys s) (gameOverShown s) (drawn s).
Definition set_keys (k : Keys) (s : Session) : Session :=
  mkSession (dungeonGrid s) (builtGrid s) (playerMesh s) (enemyMesh s)
    (playerHealth s) (enemyHealth s) (lastEnemyAttackTime s) k
    (gameOverShown s) (drawn s).
Definition set_gameOverShown (b : bool) (s : Session) : Session :=
  mkSession (dungeonGrid s) (builtGrid s) (playerMesh s) (enemyMesh s)
    (playerHealth s) (enemyHealth s) (lastEnemyAttackTime s) (keys s) b
    (drawn s).
Definition set_drawn (k : nat) (s : Session) : Session :=
  mkSession (dungeonGrid s) (builtGrid s) (playerMesh s) (enemyMesh s)
    (playerHealth s) (enemyHealth s) (lastEnemyAttackTime s) (keys s)
    (gameOverShown s) k.

(** [l[i]] for an integer [i]: [undefined] outside of the list. *)
Definition index {A : Type} (l : list A) (i : Z) : option A :=
  if decide (0 ≤ i) then l !! Z.to_nat i else None.

(** The cell an actor position resolves to: [Math.floor(v + 0.5)]. *)
Definition cellOf (v : Q) : Z := Qfloor (v + (1 # 2)).

(** [dx*dx + dz*dz] between two positions. *)
Definition distSq (p e : Vec) : Q :=
  let dx := (vx p - vx e)%Q in
  let dz := (vz p - vz e)%Q in
  (dx * dx + dz * dz)%Q.

(** Lines 240-261.  Either argument may be [undefined]; reading [.cx] of an
    undefined start center throws. *)
Definition createPlayerAndEnemy (startRoomCenter endRoomCenter : option RoomCenter)
  (s : Session) : option Session :=
  match startRoomCenter with
  | None => None
  | Some sc =>
      let enemyPos :=
        match endRoomCenter with Some ec => ec | None => sc end in
      Some (set_enemyHealth ENEMY_MAX_HEALTH
             (set_playerHealth PLAYER_MAX_HEALTH
               (set_enemyMesh
                  (Some (mkVec (inject_Z (cx enemyPos)) (inject_Z (cy enemyPos))))
                  (set_playerMesh
                     (Some (mkVec (inject_Z (cx sc)) (inject_Z (cy sc)))) s))))
  end.

(** Lines 270-287. *)
Definition playerAttack (s : Session) : option Session :=
  match enemyMesh s with
  | None => Some s
  | Some e =>
      if decide (enemyHealth s ≤ 0) then Some s
      else
        match playerMesh s with
        | None => None
        | Some p =>
            let attackRange := (3 # 2)%Q in
            if Qle_bool (distSq p e) (attackRange * attackRange) then
              let h := enemyHealth s - 50 in
              if decide (h ≤ 0) then
                Some (set_enemyMesh None (set_enemyHealth 0 s))
              else Some (set_enemyHealth h s)
            else Some s
        end
  end.

(** Lines 290-311; [now] is the value of [performance.now()]. *)
Definition enemyAttack (now : Q) (s : Session) : option Session :=
  match enemyMesh s with
  | None => Some s
  | Some e =>
      match playerMesh s with
      | None => None
      | Some p =>
          let hitRange := 1%Q in
          if Qle_bool (distSq p e) (hitRange * hitRange) then
            if Qlt_le_dec ATTACK_INTERVAL (now - lastEnemyAttackTime s) then
              let h := playerHealth s - ENEMY_DAMAGE in
              let s1 := set_lastEnemyAttackTime now (set_playerHealth h s) in
              if decide (h ≤ 0) then
                Some (set_gameOverShown true (set_playerHealth 0 s1))
              else Some s1
            else Some s
          else Some s
      end
  end.

Section Game.

Variable rand : nat → Q.
(** [Math.sqrt] *)
Variable sqrt : Q → Q.

(** Lines 326-333: what [restartGame] does with the dungeon it generated. *)
Definition restartWith (dungeon : Dungeon) (s : Session) : option Session :=
  let s1 := set_builtGrid (grid dungeon) s in
  let startCenter := index (rooms dungeon) 0 in
  let endCenter :=
    match index (rooms dungeon) (Z.of_nat (length (rooms dungeon)) - 1) with
    | Some c => Some c
    | None => index (rooms dungeon) 0
    end in
  match createPlayerAndEnemy startCenter endCenter s1 with
  | Some s2 => Some (set_gameOverShown false s2)
  | None => None
  end.

(** Lines 314-334. *)
Definition restartGame (s : Session) : option Session :=
  match generateDungeon rand DUNGEON_WIDTH DUNGEON_HEIGHT MAX_ROOMS
          ROOM_MIN_SIZE ROOM_MAX_SIZE (drawn s) with
  | Some (dungeon, k) => restartWith dungeon (set_drawn k s)
  | None => None
  end.

(** Lines 346-355: the direction of the player from the keys held. *)
Definition playerDirection (k : Keys) : Q * Q :=
  let moveZ := 0%Q in
  let moveX := 0%Q in
  let moveZ := if up k then (moveZ - 1)%Q else moveZ in
  let moveZ := if down k then (moveZ + 1)%Q else moveZ in
  let moveX := if left k then (moveX - 1)%Q else moveX in
  let moveX := if right k then (moveX + 1)%Q else moveX in
  if negb (Qeq_bool moveX 0) || negb (Qeq_bool moveZ 0) then
    let length := sqrt (moveX * moveX + moveZ * moveZ) in
    if Qlt_le_dec 0 length then ((moveX / length)%Q, (moveZ / length)%Q)
    else (moveX, moveZ)
  else (moveX, moveZ).

(** Lines 356-375: the player's move of one frame, each axis on its own. *)
Definition movePlayer (deltaTime : Q) (g : Grid) (k : Keys) (p : Vec) : Vec :=
  let '(moveX, moveZ) := playerDirection k in
  let moveDistance := (PLAYER_SPEED * deltaTime)%Q in
  let p1 :=
    if negb (Qeq_bool moveX 0) then
      let newX := (vx p + moveX * moveDistance)%Q in
      let cellX := cellOf newX in
      let cellZ := cellOf (vz p) in
      if isFloor g cellX cellZ then mkVec newX (vz p) else p
    else p in
  if negb (Qeq_bool moveZ 0) then
    let newZ := (vz p1 + moveZ * moveDistance)%Q in
    let cellX := cellOf (vx p1) in
    let cellZ := cellOf newZ in
    if isFloor g cellX cellZ then mkVec (vx p1) newZ else p1
  else p1.

(** Lines 380-405: the enemy's move of one frame towards the player at
    [p]. *)
Definition moveEnemy (deltaTime : Q) (g : Grid) (p e : Vec) : Vec :=
  let dx := (vx p - vx e)%Q in
  let dz := (vz p - vz e)%Q in
  let dist := sqrt (dx * dx + dz * dz) in
  if Qlt_le_dec 0 dist then
    let step := (ENEMY_SPEED * deltaTime)%Q in
    let moveX := (dx / dist * step)%Q in
    let moveZ := (dz / dist * step)%Q in
    let e1 :=
      if negb (Qeq_bool moveX 0) then
        let newEx := (vx e + moveX)%Q in
        let cellX := cellOf newEx in
        let cellZ := cellOf (vz e) in
        if isFloor g cellX cellZ then mkVec newEx (vz e) else e
      else e in
    if negb (Qeq_bool moveZ 0) then
      let newEz := (vz e1 + moveZ)%Q in
      let cellX := cellOf (vx e1) in
      let cellZ := cellOf newEz in
      if isFloor g cellX cellZ then mkVec (vx e1) newEz else e1
    else e1
  else e.

(** Lines 337-410: the game logic of one frame; [deltaTime] is the value
    of [clock.getDelta()] and [now] that of [performance.now()].  The
    camera and the rendering are not modelled. *)
Definition animate (deltaTime now : Q) (s : Session) : option Session :=
  if decide (0 < playerHealth s) then
    let s1 :=
      match playerMesh s with
      | Some p =>
          set_playerMesh
            (Some (movePlayer deltaTime (dungeonGrid s) (keys s) p)) s
      | None => s
      end in
    let s2 :=
      match enemyMesh s1 with
      | Some e =>
          match playerMesh s1 with
          | Some p =>
              Some (set_enemyMesh
                      (Some (moveEnemy deltaTime (dungeonGrid s1) p e)) s1)
          | None => None
          end
      | None => Some s1
      end in
    match s2 with
    | Some s2 => enemyAttack now s2
    | None => None
    end
  else Some s.

(** Lines 65-96. *)
Definition keydown (key : string) (s : Session) : option Session :=
  let k := keys s in
  if decide (key ∈ ["w"; "W"; "ArrowUp"]) then
    Some (set_keys (mkKeys true (down k) (left k) (right k)) s)
  else if decide (key ∈ ["s"; "S"; "ArrowDown"]) then
    Some (set_keys (mkKeys (up k) true (left k) (right k)) s)
  else if decide (key ∈ ["a"; "A"; "ArrowLeft"]) then
    Some (set_keys (mkKeys (up k) (down k) true (right k)) s)
  else if decide (key ∈ ["d"; "D"]) then
    Some (set_keys (mkKeys (up k) (down k) (left k) true) s)
  else if decide (key = " ") then playerAttack s
  else if decide (key ∈ ["r"; "R"]) then
    if decide (playerHealth s ≤ 0) then restartGame s else Some s
  else Some s.

(** Lines 97-119. *)
Definition keyup (key : string) (s : Session) : Session :=
  let k := keys s in
  if decide (key ∈ ["w"; "W"; "ArrowUp"]) then
    set_keys (mkKeys false (down k) (left k) (right k)) s
  else if decide (key ∈ ["s"; "S"; "ArrowDown"]) then
    set_keys (mkKeys (up k) false (left k) (right k)) s
  else if decide (key ∈ ["a"; "A"; "ArrowLeft"]) then
    set_keys (mkKeys (up k) (down k) false (right k)) s
  else if decide (key ∈ ["d"; "D"]) then
    set_keys (mkKeys (up k) (down k) (left k) false) s
  else s.

(** Lines 436-438: where the actors are placed at startup. *)
Definition startupWith (dungeon : Dungeon) (s : Session) : option Session :=
  let startRoom :=
    match index (rooms dungeon) 0 with
    | Some c => c
    | None => mkCenter (Qfloor (inject_Z DUNGEON_WIDTH / 2))
                (Qfloor (inject_Z DUNGEON_HEIGHT / 2))
    end in
  let endRoom :=
    match index (rooms dungeon) (Z.of_nat (length (rooms dungeon)) - 1) with
    | Some c => c
    | None => startRoom
    end in
  createPlayerAndEnemy (Some startRoom) (Some endRoom) s.

(** Lines 23-28 and 431-444: the session when the script has run, before
    the first frame. *)
Definition startup : option Session :=
  match generateDungeon rand DUNGEON_WIDTH DUNGEON_HEIGHT MAX_ROOMS
          ROOM_MIN_SIZE ROOM_MAX_SIZE 0 with
  | Some (dungeonData, k) =>
      startupWith dungeonData
        (mkSession (grid dungeonData) (grid dungeonData) None None
           PLAYER_MAX_HEALTH ENEMY_MAX_HEALTH 0%Q
           (mkKeys false false false false) false k)
  | None => None
  end.

(** What the host delivers to the script after startup. *)
Inductive Event : Type :=
| KeyDown (key : string)
| KeyUp (key : string)
| Frame (deltaTime now : Q).

Definition handle (ev : Event) (s : Session) : option Session :=
  match ev with
  | KeyDown key => keydown key s
  | KeyUp key => Some (keyup key s)
  | Frame deltaTime now => animate deltaTime now s
  end.

(** The session after the events [evs], unless a handler throws. *)
Fixpoint run (evs : list Event) (s : Session) : option Session :=
  match evs with
  | [] => Some s
  | ev :: evs' =>
      match handle ev s with
      | Some s' => run evs' s'
      | None => None
      end
  end.

End Game.

(** * Specification vocabulary *)

(** [floorAt g x y]: the cell of column [x] and row [y] is Floor. *)
Definition floorAt (g : Grid) (x y : Z) : Prop := isFloor g x y = true.

(** Every Floor cell of [g] is a Floor cell of [g'], and the two grids have
    the same rows. *)
Definition grows (g g' : Grid) : Prop :=
  (∀ x y, floorAt g x y → floorAt g' x y) ∧
  (∀ y, is_Some (g !! y) ↔ is_Some (g' !! y)).

(** [Math.floor(x + w/2)], [Math.floor(y + h/2)] of a carved rectangle. *)
Definition centerOf (r : Rect) : RoomCenter :=
  mkCenter (Qfloor (inject_Z (rx r) + inject_Z (rw r) / 2))
    (Qfloor (inject_Z (ry r) + inject_Z (rh r) / 2)).

(** No cell belongs to both rectangles. *)
Definition disjointRects (r1 r2 : Rect) : Prop :=
  ∀ xx yy, ¬ (inRect r1 xx yy ∧ inRect r2 xx yy).

(** What the placement loop maintains: the recorded rectangles are those of
    the recorded centers, their cells are Floor, and no two of them share a
    cell. *)
Record placedInv (st : GenState) : Prop := mkPlacedInv {
  placed_centers : g_rooms st = centerOf <$> g_accepted st;
  placed_floor : ∀ r xx yy,
    r ∈ g_accepted st → inRect r xx yy → floorAt (g_grid st) xx yy;
  placed_disjoint : ∀ i j ri rj,
    i ≠ j → g_accepted st !! i = Some ri → g_accepted st !! j = Some rj →
    disjointRects ri rj
}.

(** The candidate rectangle drawn by the iteration of the placement loop
    that starts when [k] values have been drawn (lines 147-150). *)
Definition candidate (rand : nat → Q) (width height roomMin roomMax : Z)
  (k : nat) : Rect :=
  let w := randomBelow rand k (roomMax - roomMin + 1) + roomMin in
  let h := randomBelow rand (k + 1) (roomMax - roomMin + 1) + roomMin in
  let x := randomBelow rand (k + 2) (width - w - 2) + 1 in
  let y := randomBelow rand (k + 3) (height - h - 2) + 1 in
  mkRect x y w h.

(** Two cells [(x, y)] that share a side. *)
Definition adjacentCells (a b : Z * Z) : Prop :=
  Z.abs (a.1 - b.1) + Z.abs (a.2 - b.2) = 1.

(** A non-empty list of Floor cells, each adjacent to the next. *)
Inductive floorPath (g : Grid) : list (Z * Z) → Prop :=
| floorPath_one c : floorAt g c.1 c.2 → floorPath g [c]
| floorPath_cons c c' p :
    floorAt g c.1 c.2 → adjacentCells c c' → floorPath g (c' :: p) →
    floorPath g (c :: c' :: p).

(** A path of Floor cells leads from [a] to [b]. *)
Definition pathBetween (g : Grid) (a b : Z * Z) : Prop :=
  ∃ p, head p = Some a ∧ last p = Some b ∧ floorPath g p.

(** The same, built one step at a time. *)
Inductive connected (g : Grid) : Z * Z → Z * Z → Prop :=
| connected_refl a : floorAt g a.1 a.2 → connected g a a
| connected_step a b c :
    floorAt g a.1 a.2 → adjacentCells a b → connected g b c → connected g a c.

(** The cells of the corridor from [c1] to [c2] that runs along the row of
    [c1] and then along the column of [c2] are Floor. *)
Definition corridorHV (g : Grid) (c1 c2 : RoomCenter) : Prop :=
  (∀ x, Z.min (cx c1) (cx c2) ≤ x ≤ Z.max (cx c1) (cx c2) → floorAt g x (cy c1)) ∧
  (∀ y, Z.min (cy c1) (cy c2) ≤ y ≤ Z.max (cy c1) (cy c2) → floorAt g (cx c2) y).

(** The same for the corridor along the column of [c1] and then the row of
    [c2]. *)
Definition corridorVH (g : Grid) (c1 c2 : RoomCenter) : Prop :=
  (∀ y, Z.min (cy c1) (cy c2) ≤ y ≤ Z.max (cy c1) (cy c2) → floorAt g (cx c1) y) ∧
  (∀ x, Z.min (cx c1) (cx c2) ≤ x ≤ Z.max (cx c1) (cx c2) → floorAt g x (cy c2)).

(** One of the two corridors between [c1] and [c2] is carved. *)
Definition corridor (g : Grid) (c1 c2 : RoomCenter) : Prop :=
  corridorHV g c1 c2 ∨ corridorVH g c1 c2.

(** The part of the generator state that the corridor loop leaves alone or
    only extends. *)
Definition extends (st st' : GenState) : Prop :=
  g_rooms st' = g_rooms st ∧ g_accepted st' = g_accepted st ∧
  grows (g_grid st) (g_grid st').

(** The rooms [i-1] and [i] exist and a corridor joins their centers. *)
Definition joined (i : nat) (st : GenState) : Prop :=
  ∃ c1 c2, g_rooms st !! (i - 1)%nat = Some c1 ∧ g_rooms st !! i = Some c2 ∧
           corridor (g_grid st) c1 c2.

(** The generator state [st] with its count of draws set to [k]. *)
Definition withDrawn (k : nat) (st : GenState) : GenState :=
  mkGen (g_grid st) (g_rooms st) (g_accepted st) k.

(** [v !== 0] on a number. *)
Definition nonzero (v : Q) : bool := negb (Qeq_bool v 0).

(** [v > 0] on a number. *)
Definition positive (v : Q) : bool := if Qlt_le_dec 0 v then true else false.

(** The squared distance in the plane between two positions: the square of
    the difference along x plus the square of the difference along z. *)
Definition planarDistSq (a b : Vec) : Q :=
  ((vx b - vx a) ^ 2 + (vz b - vz a) ^ 2)%Q.

(** The time stamps of the frames of a run in which the player lost health,
    in order. *)
Fixpoint attackTimes (rand : nat → Q) (sqrt : Q → Q) (evs : list Event)
  (s : Session) : list Q :=
  match evs with
  | [] => []
  | ev :: evs' =>
      match handle rand sqrt ev s with
      | Some s' =>
          match ev with
          | Frame _ now =>
              if bool_decide (playerHealth s' < playerHealth s) then
                now :: attackTimes rand sqrt evs' s'
              else attackTimes rand sqrt evs' s'
          | _ => attackTimes rand sqrt evs' s'
          end
      | None => []
      end
  end.

(** An event other than a press of the restart key. *)
Definition notRestart (ev : Event) : Prop :=
  match ev with
  | KeyDown key => key ∉ ["r"; "R"]
  | _ => True
  end.

(** A run with three rooms: a 3 by 3 room at (1, 1), a 5 by 6 room at
    (21, 12), a 4 by 4 room at (9, 9); the other three candidates repeat the
    last one and are rejected. *)
Definition randB (i : nat) : Q :=
  match i with
  | 0%nat | 1%nat | 2%nat | 3%nat => 0
  | 4%nat => 1 # 2
  | 5%nat => 3 # 4
  | 6%nat => 9 # 10
  | 7%nat => 1 # 2
  | _ => 1 # 3
  end%Q.

(** The draws of [randB], preceded by seven other values. *)
Definition randB' (i : nat) : Q :=
  if (i <? 7)%nat then (2 # 3)%Q else randB (i - 7).

(** The first 24 draws are 0, the later ones 9/10: a run from the start
    carves one 3 by 3 room at (1, 1), a run after 24 draws one 6 by 6 room
    at (20, 20). *)
Definition randA (i : nat) : Q := if (i <? 24)%nat then 0%Q else (9 # 10)%Q.

(** A [Math.sqrt] on rationals, exact to six decimals. *)
Definition sqrtA (q : Q) : Q :=
  (Z.sqrt (Qnum q * Zpos (Qden q) * 10 ^ 12) # (Qden q * 10 ^ 6))%Q.

(** [n] frames, 1001 ms apart. *)
Definition hits (n : nat) : list Event :=
  (λ i, Frame (1 # 60) (inject_Z (1001 * Z.of_nat i))) <$> seq 1 n.

(** The session started with the draws of [randA]: one room, both actors at
    its center (2, 2). *)
Definition sessionA (evs : list Event) : option Session :=
  startup randA ≫= run randA sqrtA evs.

(** The session of [randA] in which the enemy, standing on the player, hits
    ten times, 1001 ms apart, and the player then presses R: the restart
    draws a dungeon with one 6 by 6 room whose center is (23, 23). *)
Definition restarted : option Session := sessionA (hits 10 ++ [KeyDown "r"]).

(** Every value of [Math.random] is at least 0 and less than 1. *)
Definition unitRand (rand : nat → Q) : Prop := ∀ i, (0 <= rand i < 1)%Q.

(** Arguments of [generateDungeon] with which every candidate room, with its
    border of one cell, fits into the grid. *)
Definition roomsFit (width height roomMin roomMax : Z) : Prop :=
  1 ≤ roomMin ≤ roomMax ∧ roomMax + 3 ≤ width ∧ roomMax + 3 ≤ height.

(** The cell [(x, y)] is not on the border of the grid, nor outside. *)
Definition interior (width height x y : Z) : Prop :=
  1 ≤ x ≤ width - 2 ∧ 1 ≤ y ≤ height - 2.

(** The rectangle has the size of a room and leaves the border free. *)
Definition roomRect (width height roomMin roomMax : Z) (r : Rect) : Prop :=
  roomMin ≤ rw r ≤ roomMax ∧ roomMin ≤ rh r ≤ roomMax ∧
  1 ≤ rx r ∧ rx r + rw r ≤ width - 1 ∧
  1 ≤ ry r ∧ ry r + rh r ≤ height - 1.

(** What a run of the generator maintains when the rooms fit: the grid has
    the rows [0 .. height - 1], its Floor cells are interior, and so are the
    carved rectangles. *)
Record genInv (width height roomMin roomMax : Z) (st : GenState) : Prop :=
  mkGenInv {
  gen_rows : ∀ y, is_Some (g_grid st !! y) ↔ 0 ≤ y < height;
  gen_floor : ∀ x y, floorAt (g_grid st) x y → interior width height x y;
  gen_rects : ∀ r, r ∈ g_accepted st →
    roomRect width height roomMin roomMax r
}.

(** Every Floor cell of the grid of [st] is joined by a path of Floor cells
    to the center of one of its rooms. *)
Definition floorReaches (st : GenState) : Prop :=
  ∀ x y, floorAt (g_grid st) x y →
    ∃ c, c ∈ g_rooms st ∧ connected (g_grid st) (x, y) (cx c, cy c).

(** The position [p], rounded by [floor(v + 0.5)] on each coordinate, is a
    Floor cell of [g]. *)
Definition onFloor (g : Grid) (p : Vec) : Prop :=
  floorAt g (cellOf (vx p)) (cellOf (vz p)).

(** Both actors, as far as they exist, stand on Floor cells of the grid
    that the collision checks read. *)
Definition actorsOnFloor (s : Session) : Prop :=
  (∀ p, playerMesh s = Some p → onFloor (dungeonGrid s) p) ∧
  (∀ e, enemyMesh s = Some e → onFloor (dungeonGrid s) e).

(** The position of an actor placed at a room center. *)
Definition atCenter (c : RoomCenter) : Vec :=
  mkVec (inject_Z (cx c)) (inject_Z (cy c)).

(** What every state of a session satisfies: the player exists, its health
    is between 0 and the maximum, the enemy exists exactly when its health
    is above 0, and the game-over text shows exactly when the player's
    health is 0. *)
Record sessionInv (s : Session) : Prop := mkSessionInv {
  inv_player : is_Some (playerMesh s);
  inv_playerHealth : 0 ≤ playerHealth s ≤ PLAYER_MAX_HEALTH;
  inv_enemy :
    (enemyMesh s = None ∧ enemyHealth s = 0) ∨
    (is_Some (enemyMesh s) ∧ 0 < enemyHealth s ≤ ENEMY_MAX_HEALTH);
  inv_gameOver : gameOverShown s = true ↔ playerHealth s = 0
}.

(** The grid has the shape of a [height] by [width] array of arrays: the
    rows [0 .. height - 1] exist, each with the cells [0 .. width - 1] and
    no other. *)
Definition shaped (width height : Z) (g : Grid) : Prop :=
  ∀ y, match g !! y with
       | Some row => 0 ≤ y < height ∧ ∀ x, is_Some (row !! x) ↔ 0 ≤ x < width
       | None => ¬ 0 ≤ y < height
       end.

(** * Lemmas *)

(** ** Loops and grids: basic facts *)

Section Loops.
Context {A S : Type}.
Implicit Types (l : list A) (body : A → S → option S).

Lemma forEach_app l1 l2 body s :
  forEach (l1 ++ l2) body s =
  match forEach l1 body s with
  | Some s' => forEach l2 body s'
  | None => None
  end.
Proof.
  revert s; induction l1 as [|v l1 IH]; intros s; simpl; [done|].
  destruct (body v s); [apply IH | done].
Qed.

(** An invariant of the body is an invariant of the loop. *)
Lemma forEach_inv (P : S → Prop) l body s s' :
  P s →
  (∀ v t t', v ∈ l → P t → body v t = Some t' → P t') →
  forEach l body s = Some s' → P s'.
Proof.
  revert s; induction l as [|v l IH]; intros s Hs Hbody Hrun; simpl in *.
  - by simplify_eq.
  - destruct (body v s) as [t|] eqn:Hv; [|done].
    apply (IH t); [|intros; eapply Hbody; eauto; by right|done].
    eapply Hbody; eauto. by left.
Qed.

(** A loop whose body moves the state along a preorder [R] and
    establishes [P v], stable under [R], for the value [v] it handles,
    establishes [P v] for all of them. *)
Lemma forEach_mono (R : S → S → Prop) (P : A → S → Prop) l body s s' :
  (∀ t, R t t) →
  (∀ a b c, R a b → R b c → R a c) →
  (∀ v t t', v ∈ l → body v t = Some t' → R t t' ∧ P v t') →
  (∀ v t t', R t t' → P v t → P v t') →
  forEach l body s = Some s' →
  R s s' ∧ ∀ v, v ∈ l → P v s'.
Proof.
  intros Hrefl Htrans Hbody Hstable.
  revert s; induction l as [|v l IH]; intros s Hrun; simpl in *.
  - simplify_eq. split; [done|]. intros v Hv. by apply elem_of_nil in Hv.
  - destruct (body v s) as [t|] eqn:Hv; [|done].
    destruct (Hbody v s t) as [Hst Hvt]; [by left|done|].
    destruct (IH (λ u t1 t2 Hu, Hbody u t1 t2 (list_elem_of_further _ _ _ Hu)) t Hrun)
      as [Hts' Hl].
    split; [by eapply Htrans|].
    intros u [->|Hu]%elem_of_cons; [by eapply Hstable|by apply Hl].
Qed.
End Loops.

Lemma elem_of_range (v lo hi : Z) : v ∈ range lo hi ↔ lo ≤ v < hi.
Proof. unfold range. rewrite elem_of_seqZ. lia. Qed.

Lemma elem_of_rangeIncl (v lo hi : Z) : v ∈ rangeIncl lo hi ↔ lo ≤ v ≤ hi.
Proof. unfold rangeIncl. rewrite elem_of_seqZ. lia. Qed.

Lemma grows_refl g : grows g g.
Proof. by split. Qed.

Lemma grows_trans g1 g2 g3 : grows g1 g2 → grows g2 g3 → grows g1 g3.
Proof.
  intros [H1 D1] [H2 D2]. split; [auto|].
  intros y. by rewrite D1.
Qed.

Lemma floorAt_writeCell g y x g' xx yy :
  writeCell g y x Floor = Some g' →
  floorAt g' xx yy ↔ (xx = x ∧ yy = y) ∨ floorAt g xx yy.
Proof.
  unfold writeCell, floorAt, isFloor. intros Hw.
  destruct (g !! y) as [row|] eqn:Hrow; [|done]. simplify_eq.
  destruct (decide (yy = y)) as [->|Hy].
  - rewrite lookup_insert_eq, Hrow.
    destruct (decide (xx = x)) as [->|Hx].
    + rewrite lookup_insert_eq, bool_decide_eq_true_2 by done. tauto.
    + rewrite lookup_insert_ne by done. tauto.
  - rewrite lookup_insert_ne by done. tauto.
Qed.

Lemma writeCell_grows g y x g' :
  writeCell g y x Floor = Some g' → grows g g' ∧ floorAt g' x y.
Proof.
  intros Hw. split; [split|].
  - intros xx yy H. rewrite (floorAt_writeCell _ _ _ _ _ _ Hw). by right.
  - intros yy. unfold writeCell in Hw.
    destruct (g !! y) as [row|] eqn:Hrow; [|done]. simplify_eq.
    destruct (decide (yy = y)) as [->|Hy].
    + rewrite lookup_insert_eq, Hrow. by split; eauto.
    + by rewrite lookup_insert_ne.
  - rewrite (floorAt_writeCell _ _ _ _ _ _ Hw). by left.
Qed.

Lemma floorAt_grows g g' x y : grows g g' → floorAt g x y → floorAt g' x y.
Proof. intros [H _]. apply H. Qed.

Lemma wallRow_lookup width x c : wallRow width !! x = Some c → c = Wall.
Proof.
  unfold wallRow. generalize (range 0 width). intros l.
  assert (∀ (row : gmap Z Cell),
            (∀ c, row !! x = Some c → c = Wall) →
            ∀ c, foldl (λ row x, <[x := Wall]> row) row l !! x = Some c →
                 c = Wall) as H.
  { induction l as [|v l IH]; intros row Hrow c'; simpl; [by apply Hrow|].
    apply IH. intros c''. destruct (decide (v = x)) as [->|].
    - rewrite lookup_insert_eq. congruence.
    - rewrite lookup_insert_ne by done. apply Hrow. }
  apply H. intros c'. by rewrite lookup_empty.
Qed.

(** The grid of lines 127-133 has no Floor cell. *)
Lemma initGrid_wall width height x y : isFloor (initGrid width height) x y = false.
Proof.
  unfold initGrid. generalize (range 0 height). intros l.
  assert (∀ (g : Grid), isFloor g x y = false →
            isFloor (foldl (λ g y, <[y := wallRow width]> g) g l) x y = false)
    as H.
  { induction l as [|v l IH]; intros g Hg; simpl; [done|].
    apply IH. unfold isFloor. destruct (decide (v = y)) as [->|].
    - rewrite lookup_insert_eq. apply bool_decide_eq_false_2.
      intros Hc. by apply wallRow_lookup in Hc.
    - by rewrite lookup_insert_ne. }
  apply H. unfold isFloor. by rewrite lookup_empty.
Qed.

(** ** Carving *)

Section Carving.

Lemma carveH_spec y x1 x2 g g' :
  carveH y x1 x2 g = Some g' →
  grows g g' ∧ ∀ x, Z.min x1 x2 ≤ x ≤ Z.max x1 x2 → floorAt g' x y.
Proof.
  unfold carveH. intros Hrun.
  destruct (forEach_mono grows (λ x g, floorAt g x y) _ _ _ _
              grows_refl grows_trans
              (λ v t t' _ Hw, writeCell_grows t y v t' Hw)
              (λ v t t' Hg, floorAt_grows t t' v y Hg) Hrun) as [Hg Hall].
  split; [done|]. intros x Hx. by apply Hall, elem_of_rangeIncl.
Qed.

Lemma carveV_spec x y1 y2 g g' :
  carveV x y1 y2 g = Some g' →
  grows g g' ∧ ∀ y, Z.min y1 y2 ≤ y ≤ Z.max y1 y2 → floorAt g' x y.
Proof.
  unfold carveV. intros Hrun.
  destruct (forEach_mono grows (λ y g, floorAt g x y) _ _ _ _
              grows_refl grows_trans
              (λ v t t' _ Hw, writeCell_grows t v x t' Hw)
              (λ v t t' Hg, floorAt_grows t t' x v Hg) Hrun) as [Hg Hall].
  split; [done|]. intros y Hy. by apply Hall, elem_of_rangeIncl.
Qed.

(** [carveRoom] sets every cell of the rectangle to Floor and no cell to
    Wall. *)
Lemma carveRoom_spec x y w h g g' :
  carveRoom x y w h g = Some g' →
  grows g g' ∧ ∀ xx yy, inRect (mkRect x y w h) xx yy → floorAt g' xx yy.
Proof.
  unfold carveRoom. intros Hrun.
  destruct (forEach_mono grows
              (λ yy g, ∀ xx, x ≤ xx < x + w → floorAt g xx yy) _ _ _ _
              grows_refl grows_trans
              (λ yy t t' (_ : yy ∈ range y (y + h))
                 (Hrow : forEach (range x (x + w))
                           (λ xx g, writeCell g yy xx Floor) t = Some t'),
                 let '(conj Hg Hall) :=
                   forEach_mono grows (λ xx g, floorAt g xx yy) _ _ _ _
                     grows_refl grows_trans
                     (λ v u u' _ Hw, writeCell_grows u yy v u' Hw)
                     (λ v u u' Hg, floorAt_grows u u' v yy Hg) Hrow in
                 conj Hg (λ xx Hxx, Hall xx (proj2 (elem_of_range _ _ _) Hxx)))
              (λ yy t t' Hg Hall xx Hxx, floorAt_grows t t' xx yy Hg (Hall xx Hxx))
              Hrun) as [Hg Hall].
  split; [done|]. intros xx yy [Hx Hy]; simpl in *.
  by apply Hall; [apply elem_of_range|].
Qed.

(** The inner loop of the overlap check on the row [yy]. *)
Lemma checkOverlap_row g yy l ov :
  forEach l (λ xx overlaps,
      if (overlaps : bool) then Some true
      else match readCell g yy xx with
           | Some c => Some (bool_decide (c = Some Floor))
           | None => None
           end) ov = Some false →
  ov = false ∧ ∀ xx, xx ∈ l → isFloor g xx yy = false.
Proof.
  revert ov; induction l as [|v l IH]; intros ov Hrun; simpl in *.
  - simplify_eq. split; [done|]. intros xx Hxx. by apply elem_of_nil in Hxx.
  - destruct ov.
    + by destruct (IH _ Hrun).
    + destruct (readCell g yy v) as [c|] eqn:Hr; [|done].
      destruct (IH _ Hrun) as [Hc Hl]. split; [done|].
      intros xx [->|Hxx]%elem_of_cons; [|by apply Hl].
      unfold readCell in Hr. unfold isFloor.
      destruct (g !! yy); [|done]. by simplify_eq.
Qed.

(** A candidate that passes the overlap check has no Floor cell. *)
Lemma checkOverlap_false x y w h g :
  checkOverlap x y w h g = Some false →
  ∀ xx yy, inRect (mkRect x y w h) xx yy → isFloor g xx yy = false.
Proof.
  unfold checkOverlap. intros Hrun xx yy [Hx Hy]; simpl in *.
  assert (∀ ly ov,
    forEach ly (λ yy overlaps,
      forEach (range x (x + w)) (λ xx overlaps,
        if (overlaps : bool) then Some true
        else match readCell g yy xx with
             | Some c => Some (bool_decide (c = Some Floor))
             | None => None
             end) overlaps) ov = Some false →
    ov = false ∧ ∀ yy, yy ∈ ly → ∀ xx, xx ∈ range x (x + w) →
                        isFloor g xx yy = false) as Hrows.
  { induction ly as [|v ly IH]; intros ov Hly; simpl in *.
    - simplify_eq. split; [done|]. intros ? Hin. by apply elem_of_nil in Hin.
    - match type of Hly with
      | match ?inner with _ => _ end = _ => destruct inner as [ov'|] eqn:Hin
      end; [|done].
      destruct (IH _ Hly) as [-> Hrest].
      destruct (checkOverlap_row _ _ _ _ Hin) as [-> Hrow].
      split; [done|].
      intros y' [->|Hy']%elem_of_cons; [done|by apply Hrest]. }
  destruct (Hrows _ _ Hrun) as [_ Hall].
  by apply Hall; apply elem_of_range.
Qed.

(** On a grid without Floor cells the overlap check finds no overlap. *)
Lemma checkOverlap_walls x y w h g :
  (∀ xx yy, isFloor g xx yy = false) →
  checkOverlap x y w h g ≠ Some true.
Proof.
  intros Hwall. unfold checkOverlap.
  assert (∀ yy l ov,
    forEach l (λ xx overlaps,
      if (overlaps : bool) then Some true
      else match readCell g yy xx with
           | Some c => Some (bool_decide (c = Some Floor))
           | None => None
           end) ov = Some true → ov = true) as Hrow.
  { intros yy l. induction l as [|v l IH]; intros ov Hl; simpl in *.
    - by simplify_eq.
    - destruct ov; [done|].
      destruct (readCell g yy v) as [c|] eqn:Hr; [|done].
      apply IH in Hl. specialize (Hwall v yy).
      unfold readCell in Hr. unfold isFloor in Hwall.
      destruct (g !! yy); [|done]. simplify_eq. congruence. }
  generalize (range y (y + h)). intros ly.
  assert (∀ ov,
    forEach ly (λ yy overlaps,
      forEach (range x (x + w)) (λ xx overlaps,
        if (overlaps : bool) then Some true
        else match readCell g yy xx with
             | Some c => Some (bool_decide (c = Some Floor))
             | None => None
             end) overlaps) ov = Some true → ov = true) as Hrows.
  { induction ly as [|v ly IH]; intros ov Hly; simpl in *.
    - by simplify_eq.
    - match type of Hly with
      | match ?inner with _ => _ end = _ => destruct inner as [ov'|] eqn:Hin
      end; [|done].
      apply IH in Hly. subst. by apply Hrow in Hin. }
  intros Hrun. by apply Hrows in Hrun.
Qed.

End Carving.

(** ** Room placement *)

Section Placement.
Variable rand : nat → Q.
Variables width height roomMin roomMax : Z.

(** The two ways an iteration of the placement loop can end. *)
Lemma placeRoom_cases st st' :
  placeRoom rand width height roomMin roomMax st = Some st' →
  let r := candidate rand width height roomMin roomMax (g_drawn st) in
  g_drawn st' = (g_drawn st + 4)%nat ∧
  ((g_grid st' = g_grid st ∧ g_rooms st' = g_rooms st ∧
    g_accepted st' = g_accepted st)
   ∨
   ((∀ xx yy, inRect r xx yy → isFloor (g_grid st) xx yy = false) ∧
    carveRoom (rx r) (ry r) (rw r) (rh r) (g_grid st) = Some (g_grid st') ∧
    g_rooms st' = g_rooms st ++ [centerOf r] ∧
    g_accepted st' = g_accepted st ++ [r])).
Proof.
  unfold placeRoom, candidate. cbv zeta. intros Hrun.
  match type of Hrun with
  | match checkOverlap ?x ?y ?w ?h ?g with _ => _ end = _ =>
      destruct (checkOverlap x y w h g) as [[|]|] eqn:Hov; [| |done]
  end.
  - simplify_eq. simpl. auto.
  - match type of Hrun with
    | match ?c with _ => _ end = _ => destruct c as [g'|] eqn:Hc; [|done]
    end.
    simplify_eq. simpl. split; [done|]. right.
    split; [by apply checkOverlap_false|done].
Qed.

(** A candidate with a cell that is already Floor is not carved. *)
Lemma placeRoom_rejects st st' xx yy :
  inRect (candidate rand width height roomMin roomMax (g_drawn st)) xx yy →
  floorAt (g_grid st) xx yy →
  placeRoom rand width height roomMin roomMax st = Some st' →
  g_grid st' = g_grid st ∧ g_rooms st' = g_rooms st ∧
  g_accepted st' = g_accepted st.
Proof.
  intros Hin Hfloor Hrun.
  destruct (placeRoom_cases _ _ Hrun) as [_ [H|[Hwall _]]]; [done|].
  specialize (Hwall _ _ Hin). unfold floorAt in Hfloor. congruence.
Qed.

Lemma placeRoom_inv st st' :
  placedInv st →
  placeRoom rand width height roomMin roomMax st = Some st' →
  placedInv st'.
Proof.
  intros [Hc Hf Hd] Hrun.
  destruct (placeRoom_cases _ _ Hrun)
    as [_ [(Hg & Hr & Ha)|(Hwall & Hcarve & Hr & Ha)]].
  - split; rewrite ?Hg, ?Hr, ?Ha; done.
  - destruct (carveRoom_spec _ _ _ _ _ _ Hcarve) as [Hgrow Hnew].
    set (r := candidate rand width height roomMin roomMax (g_drawn st)) in *.
    assert (∀ r', r' ∈ g_accepted st → disjointRects r' r) as Hfresh.
    { intros r' Hr' xx yy [Hin' Hin].
      specialize (Hf _ _ _ Hr' Hin'). specialize (Hwall _ _ Hin).
      unfold floorAt in Hf. congruence. }
    split.
    + rewrite Hr, Ha, Hc, fmap_app. done.
    + rewrite Ha. intros r' xx yy [Hr'| ->%list_elem_of_singleton]%elem_of_app Hin.
      * eapply floorAt_grows; eauto.
      * apply Hnew. by destruct r.
    + rewrite Ha. intros i j ri rj Hij Hi Hj.
      apply lookup_app_Some in Hi as [Hi|[Hli Hi]];
        apply lookup_app_Some in Hj as [Hj|[Hlj Hj]].
      * by eapply Hd.
      * apply list_lookup_singleton_Some in Hj as [_ <-].
        apply Hfresh. by eapply list_elem_of_lookup_2.
      * apply list_lookup_singleton_Some in Hi as [_ <-].
        intros xx yy [H1 H2]. eapply Hfresh; [|split; eauto].
        by eapply list_elem_of_lookup_2.
      * apply list_lookup_singleton_Some in Hi as [Hi _].
        apply list_lookup_singleton_Some in Hj as [Hj _]. lia.
Qed.

Lemma placeRooms_inv maxRooms st st' :
  placedInv st →
  placeRooms rand width height maxRooms roomMin roomMax st = Some st' →
  placedInv st'.
Proof.
  intros Hst. unfold placeRooms. apply forEach_inv; [done|].
  intros _ t t' _. apply placeRoom_inv.
Qed.

(** The centers recorded are never removed. *)
Lemma placeLoop_rooms_prefix (l : list Z) st st' :
  forEach l (λ _ st, placeRoom rand width height roomMin roomMax st) st
    = Some st' →
  g_rooms st `prefix_of` g_rooms st'.
Proof.
  apply (forEach_inv (λ t, g_rooms st `prefix_of` g_rooms t)); [done|].
  intros _ t t' _ Hp Hrun.
  destruct (placeRoom_cases _ _ Hrun) as [_ [(_ & Hr & _)|(_ & _ & Hr & _)]];
    rewrite Hr; [done|]. by apply prefix_app_r.
Qed.

(** On a grid of walls the candidate is always carved. *)
Lemma placeRoom_walls st st' :
  (∀ xx yy, isFloor (g_grid st) xx yy = false) →
  placeRoom rand width height roomMin roomMax st = Some st' →
  g_rooms st' = g_rooms st ++ [centerOf (candidate rand width height roomMin roomMax (g_drawn st))].
Proof.
  intros Hwall. unfold placeRoom, candidate. cbv zeta. intros Hrun.
  match type of Hrun with
  | match checkOverlap ?x ?y ?w ?h ?g with _ => _ end = _ =>
      pose proof (checkOverlap_walls x y w h g Hwall) as Hw;
      destruct (checkOverlap x y w h g) as [[|]|] eqn:Hov; [done| |done]
  end.
  match type of Hrun with
  | match ?c with _ => _ end = _ => destruct c as [g'|] eqn:Hc; [|done]
  end.
  by simplify_eq.
Qed.

(** With at least one attempt, the first candidate meets a grid of walls
    and is carved: the result has a room. *)
Lemma placeRooms_first maxRooms k st' :
  1 ≤ maxRooms →
  placeRooms rand width height maxRooms roomMin roomMax
    (mkGen (initGrid width height) [] [] k) = Some st' →
  g_rooms st' ≠ [].
Proof.
  intros Hmax. unfold placeRooms, range.
  replace (maxRooms - 0) with (Z.succ (maxRooms - 1)) by lia.
  rewrite seqZ_cons by lia. simpl.
  destruct (placeRoom _ _ _ _ _ _) as [st1|] eqn:Hfirst; [|done].
  intros Hrest. apply placeLoop_rooms_prefix in Hrest as [l Hl].
  apply placeRoom_walls in Hfirst; [|intros; apply initGrid_wall].
  rewrite Hl, Hfirst. done.
Qed.

End Placement.

(** ** Paths of Floor cells *)

Section Paths.
Variable g : Grid.

Lemma connected_floor_l a b : connected g a b → floorAt g a.1 a.2.
Proof. by intros [|]. Qed.

Lemma connected_trans a b c : connected g a b → connected g b c → connected g a c.
Proof.
  induction 1 as [a Ha|a m b Ha Hadj _ IH]; [done|].
  intros Hbc. eapply connected_step; eauto.
Qed.

Lemma adjacentCells_sym a b : adjacentCells a b → adjacentCells b a.
Proof. unfold adjacentCells. lia. Qed.

Lemma connected_sym a b : connected g a b → connected g b a.
Proof.
  induction 1 as [a Ha|a m b Ha Hadj Hmb IH]; [by constructor|].
  eapply connected_trans; [done|].
  eapply connected_step; [by eapply connected_floor_l| |by constructor].
  by apply adjacentCells_sym.
Qed.

Lemma connected_path a b : connected g a b → pathBetween g a b.
Proof.
  induction 1 as [a Ha|a m b Ha Hadj _ (p & Hhd & Hlast & Hp)].
  - exists [a]. repeat split. by constructor.
  - destruct p as [|c p]; simplify_eq/=.
    exists (a :: m :: p). repeat split; [done|by constructor].
Qed.

(** A row segment of Floor cells is a path, walked in either direction. *)
Lemma connected_row_up y (n : nat) x :
  (∀ i, x ≤ i ≤ x + Z.of_nat n → floorAt g i y) →
  connected g (x, y) (x + Z.of_nat n, y).
Proof.
  revert x; induction n as [|n IH]; intros x Hseg.
  - replace (x + Z.of_nat 0) with x by lia. constructor. simpl. apply Hseg. lia.
  - apply (connected_step _ _ (x + 1, y)).
    + simpl. apply Hseg. lia.
    + unfold adjacentCells; simpl. lia.
    + replace (x + Z.of_nat (S n)) with (x + 1 + Z.of_nat n) by lia.
      apply IH. intros i Hi. apply Hseg. lia.
Qed.

Lemma connected_row y x1 x2 :
  (∀ x, Z.min x1 x2 ≤ x ≤ Z.max x1 x2 → floorAt g x y) →
  connected g (x1, y) (x2, y).
Proof.
  intros Hseg. destruct (decide (x1 ≤ x2)) as [Hle|Hgt].
  - replace x2 with (x1 + Z.of_nat (Z.to_nat (x2 - x1))) by lia.
    apply connected_row_up. intros i Hi. apply Hseg. lia.
  - apply connected_sym.
    replace x1 with (x2 + Z.of_nat (Z.to_nat (x1 - x2))) by lia.
    apply connected_row_up. intros i Hi. apply Hseg. lia.
Qed.

Lemma connected_column_up x (n : nat) y :
  (∀ i, y ≤ i ≤ y + Z.of_nat n → floorAt g x i) →
  connected g (x, y) (x, y + Z.of_nat n).
Proof.
  revert y; induction n as [|n IH]; intros y Hseg.
  - replace (y + Z.of_nat 0) with y by lia. constructor. simpl. apply Hseg. lia.
  - apply (connected_step _ _ (x, y + 1)).
    + simpl. apply Hseg. lia.
    + unfold adjacentCells; simpl. lia.
    + replace (y + Z.of_nat (S n)) with (y + 1 + Z.of_nat n) by lia.
      apply IH. intros i Hi. apply Hseg. lia.
Qed.

Lemma connected_column x y1 y2 :
  (∀ y, Z.min y1 y2 ≤ y ≤ Z.max y1 y2 → floorAt g x y) →
  connected g (x, y1) (x, y2).
Proof.
  intros Hseg. destruct (decide (y1 ≤ y2)) as [Hle|Hgt].
  - replace y2 with (y1 + Z.of_nat (Z.to_nat (y2 - y1))) by lia.
    apply connected_column_up. intros i Hi. apply Hseg. lia.
  - apply connected_sym.
    replace y1 with (y2 + Z.of_nat (Z.to_nat (y1 - y2))) by lia.
    apply connected_column_up. intros i Hi. apply Hseg. lia.
Qed.

End Paths.

(** ** Corridors *)

Lemma corridor_grows g g' c1 c2 : grows g g' → corridor g c1 c2 → corridor g' c1 c2.
Proof.
  intros [Hg _] [[H1 H2]|[H1 H2]]; [left|right]; split; intros; apply Hg; auto.
Qed.

Lemma corridor_connected g c1 c2 :
  corridor g c1 c2 → connected g (cx c1, cy c1) (cx c2, cy c2).
Proof.
  intros [[H1 H2]|[H1 H2]].
  - apply (connected_trans _ _ (cx c2, cy c1)).
    + by apply connected_row.
    + by apply connected_column.
  - apply (connected_trans _ _ (cx c1, cy c2)).
    + by apply connected_column.
    + by apply connected_row.
Qed.

Lemma extends_refl st : extends st st.
Proof. split; [done|]. split; [done|]. apply grows_refl. Qed.

Lemma extends_trans a b c : extends a b → extends b c → extends a c.
Proof.
  intros (Hr1 & Ha1 & Hg1) (Hr2 & Ha2 & Hg2).
  split; [congruence|]. split; [congruence|]. by eapply grows_trans.
Qed.

Section Corridors.
Variable rand : nat → Q.

Lemma connectRooms_spec i st st' :
  connectRooms rand i st = Some st' →
  extends st st' ∧ joined i st' ∧ g_drawn st' = (g_drawn st + 1)%nat.
Proof.
  unfold connectRooms. intros Hrun.
  destruct (g_rooms st !! (i - 1)%nat) as [c1|] eqn:H1; [|done].
  destruct (g_rooms st !! i) as [c2|] eqn:H2; [|done].
  cbv zeta in Hrun.
  destruct (Qlt_le_dec (rand (g_drawn st)) (1 # 2)) as [Hcoin|Hcoin].
  - destruct (carveH (cy c1) (cx c1) (cx c2) (g_grid st)) as [g1|] eqn:Hh;
      [|done].
    destruct (carveV (cx c2) (cy c1) (cy c2) g1) as [g2|] eqn:Hv; [|done].
    simplify_eq.
    destruct (carveH_spec _ _ _ _ _ Hh) as [Hg1 Hrow].
    destruct (carveV_spec _ _ _ _ _ Hv) as [Hg2 Hcol].
    split; [|split; [|done]].
    { split; [done|]. split; [done|]. by eapply grows_trans. }
    exists c1, c2. split; [done|]. split; [done|]. left. split; [|done].
    intros x Hx. eapply floorAt_grows; eauto.
  - destruct (carveV (cx c1) (cy c1) (cy c2) (g_grid st)) as [g1|] eqn:Hv;
      [|done].
    destruct (carveH (cy c2) (cx c1) (cx c2) g1) as [g2|] eqn:Hh; [|done].
    simplify_eq.
    destruct (carveV_spec _ _ _ _ _ Hv) as [Hg1 Hcol].
    destruct (carveH_spec _ _ _ _ _ Hh) as [Hg2 Hrow].
    split; [|split; [|done]].
    { split; [done|]. split; [done|]. by eapply grows_trans. }
    exists c1, c2. split; [done|]. split; [done|]. right. split; [|done].
    intros y Hy. eapply floorAt_grows; eauto.
Qed.

Lemma joined_extends i st st' : extends st st' → joined i st → joined i st'.
Proof.
  intros (Hr & _ & Hg) (c1 & c2 & H1 & H2 & Hc).
  exists c1, c2. rewrite Hr. split; [done|]. split; [done|].
  by eapply corridor_grows.
Qed.

Lemma connectAll_spec st st' :
  connectAll rand st = Some st' →
  extends st st' ∧
  ∀ i, (1 ≤ i < length (g_rooms st))%nat → joined i st'.
Proof.
  unfold connectAll. intros Hrun.
  destruct (decide (1 < length (g_rooms st))%nat) as [Hlen|Hlen].
  - destruct (forEach_mono extends joined _ _ _ _
                extends_refl extends_trans
                (λ i t t' _ Hc,
                   let '(conj He (conj Hj _)) := connectRooms_spec i t t' Hc in
                   conj He Hj)
                joined_extends Hrun) as [He Hall].
    split; [done|]. intros i Hi. apply Hall, elem_of_seq. lia.
  - simplify_eq. split; [apply extends_refl|]. intros i Hi. lia.
Qed.

End Corridors.

(** ** The generator as a whole *)

Lemma placedInv_init width height k : placedInv (mkGen (initGrid width height) [] [] k).
Proof.
  split; simpl; [done|..].
  - intros r xx yy Hr. by apply elem_of_nil in Hr.
  - intros i j ri rj _ Hi. by rewrite lookup_nil in Hi.
Qed.

Lemma generateRun_inv rand width height maxRooms roomMin roomMax k st :
  generateRun rand width height maxRooms roomMin roomMax k = Some st →
  placedInv st ∧ ∀ i, (1 ≤ i < length (g_rooms st))%nat → joined i st.
Proof.
  unfold generateRun. intros Hrun.
  destruct (placeRooms _ _ _ _ _ _ _) as [st0|] eqn:Hplace; [|done].
  apply placeRooms_inv in Hplace; [|apply placedInv_init].
  destruct (connectAll_spec _ _ _ Hrun) as [(Hr & Ha & Hg) Hj].
  destruct Hplace as [Hc Hf Hd]. split.
  - split; rewrite ?Hr, ?Ha; [done| |done].
    intros r xx yy Hin Hrect. eapply floorAt_grows; eauto.
  - intros i Hi. apply Hj. by rewrite <- Hr.
Qed.

Section SameDraws.
Variables rand1 rand2 : nat → Q.
Variables width height roomMin roomMax : Z.

Lemma placeRoom_same_draws st k2 :
(∀ i, (i < 4)%nat → rand1 (g_drawn st + i) = rand2 (k2 + i)) →
placeRoom rand2 width height roomMin roomMax (withDrawn k2 st) =
withDrawn (k2 + 4) <$> placeRoom rand1 width height roomMin roomMax st.
Proof.
intros Hsame. unfold placeRoom, randomBelow. cbv zeta. simpl.
pose proof (Hsame 0%nat) as H0. rewrite !Nat.add_0_r in H0.
rewrite <- H0, <- !Hsame by lia.
destruct (checkOverlap _ _ _ _ _) as [[|]|]; [done| |done].
by destruct (carveRoom _ _ _ _ _).
Qed.

Lemma placeLoop_same_draws (l : list Z) st k2 :
(∀ i, (i < 4 * length l)%nat → rand1 (g_drawn st + i) = rand2 (k2 + i)) →
forEach l (λ _ st, placeRoom rand2 width height roomMin roomMax st)
  (withDrawn k2 st) =
withDrawn (k2 + 4 * length l) <$>
  forEach l (λ _ st, placeRoom rand1 width height roomMin roomMax st) st.
Proof.
revert st k2; induction l as [|v l IH]; intros st k2 Hsame.
- simpl. by rewrite Nat.add_0_r.
- cbn [forEach].
  rewrite placeRoom_same_draws by (intros; apply Hsame; simpl; lia).
  destruct (placeRoom rand1 _ _ _ _ st) as [st1|] eqn:H1; [|done].
  destruct (placeRoom_cases _ _ _ _ _ _ _ H1) as [Hd _].
  cbn [fmap option_fmap option_map]. rewrite IH.
  + replace (k2 + 4 + 4 * length l)%nat with (k2 + 4 * length (v :: l))%nat
      by (simpl; lia). done.
  + intros i Hi. rewrite Hd.
    replace (g_drawn st + 4 + i)%nat with (g_drawn st + (4 + i))%nat by lia.
    replace (k2 + 4 + i)%nat with (k2 + (4 + i))%nat by lia.
    apply Hsame. simpl. lia.
Qed.

Lemma placeLoop_rooms_length (l : list Z) st st' :
forEach l (λ _ st, placeRoom rand1 width height roomMin roomMax st) st
  = Some st' →
(length (g_rooms st') ≤ length (g_rooms st) + length l)%nat.
Proof.
revert st; induction l as [|v l IH]; intros st Hrun; simpl in *.
- simplify_eq. lia.
- destruct (placeRoom rand1 _ _ _ _ st) as [st1|] eqn:H1; [|done].
  apply IH in Hrun.
  destruct (placeRoom_cases _ _ _ _ _ _ _ H1)
    as [_ [(_ & Hr & _)|(_ & _ & Hr & _)]]; rewrite Hr in Hrun;
    rewrite ?length_app in Hrun; simpl in Hrun; lia.
Qed.

Lemma connectRooms_same_draws i st k2 :
rand1 (g_drawn st) = rand2 k2 →
connectRooms rand2 i (withDrawn k2 st) =
withDrawn (k2 + 1) <$> connectRooms rand1 i st.
Proof.
intros Hsame. unfold connectRooms. simpl.
destruct (g_rooms st !! (i - 1)%nat) as [c1|]; [|done].
destruct (g_rooms st !! i) as [c2|]; [|done].
cbv zeta. rewrite <- Hsame.
destruct (Qlt_le_dec (rand1 (g_drawn st)) (1 # 2)).
- destruct (carveH _ _ _ _) as [g1|]; [|done]. by destruct (carveV _ _ _ _).
- destruct (carveV _ _ _ _) as [g1|]; [|done]. by destruct (carveH _ _ _ _).
Qed.

Lemma connectLoop_same_draws (l : list nat) st k2 :
(∀ i, (i < length l)%nat → rand1 (g_drawn st + i) = rand2 (k2 + i)) →
forEach l (connectRooms rand2) (withDrawn k2 st) =
withDrawn (k2 + length l) <$> forEach l (connectRooms rand1) st.
Proof.
revert st k2; induction l as [|v l IH]; intros st k2 Hsame.
- simpl. by rewrite Nat.add_0_r.
- cbn [forEach]. rewrite connectRooms_same_draws.
  2:{ pose proof (Hsame 0%nat) as H0. rewrite !Nat.add_0_r in H0.
      apply H0. simpl. lia. }
  destruct (connectRooms rand1 v st) as [st1|] eqn:H1; [|done].
  destruct (connectRooms_spec _ _ _ _ H1) as (_ & _ & Hd).
  cbn [fmap option_fmap option_map]. rewrite IH.
  + replace (k2 + 1 + length l)%nat with (k2 + length (v :: l))%nat
      by (simpl; lia). done.
  + intros i Hi. rewrite Hd.
    replace (g_drawn st + 1 + i)%nat with (g_drawn st + (1 + i))%nat by lia.
    replace (k2 + 1 + i)%nat with (k2 + (1 + i))%nat by lia.
    apply Hsame. simpl. lia.
Qed.

Lemma placeLoop_drawn (l : list Z) st st' :
forEach l (λ _ st, placeRoom rand1 width height roomMin roomMax st) st
  = Some st' →
g_drawn st' = (g_drawn st + 4 * length l)%nat.
Proof.
revert st; induction l as [|v l IH]; intros st Hrun; simpl in *.
- simplify_eq. lia.
- destruct (placeRoom rand1 _ _ _ _ st) as [st1|] eqn:H1; [|done].
  destruct (placeRoom_cases _ _ _ _ _ _ _ H1) as [Hd1 _].
  rewrite (IH _ Hrun). lia.
Qed.

Lemma connectLoop_drawn (l : list nat) st st' :
forEach l (connectRooms rand1) st = Some st' →
g_drawn st' = (g_drawn st + length l)%nat.
Proof.
revert st; induction l as [|v l IH]; intros st Hrun; simpl in *.
- simplify_eq. lia.
- destruct (connectRooms rand1 v st) as [st1|] eqn:H1; [|done].
  destruct (connectRooms_spec _ _ _ _ H1) as (_ & _ & Hd1).
  rewrite (IH _ Hrun). lia.
Qed.

Lemma connectAll_same_draws st k2 :
(∀ i, (i < length (g_rooms st) - 1)%nat →
      rand1 (g_drawn st + i) = rand2 (k2 + i)) →
connectAll rand2 (withDrawn k2 st) =
withDrawn (k2 + (length (g_rooms st) - 1)) <$> connectAll rand1 st.
Proof.
intros Hsame. unfold connectAll.
change (g_rooms (withDrawn k2 st)) with (g_rooms st).
destruct (decide (1 < length (g_rooms st))%nat) as [Hlt|Hge].
- rewrite connectLoop_same_draws; rewrite length_seq; done.
- simpl. replace (k2 + (length (g_rooms st) - 1))%nat with k2 by lia. done.
Qed.

Lemma connectAll_drawn st st' :
connectAll rand1 st = Some st' →
g_drawn st' = (g_drawn st + (length (g_rooms st) - 1))%nat.
Proof.
unfold connectAll.
destruct (decide (1 < length (g_rooms st))%nat) as [Hlt|Hge].
- intros Hrun. apply connectLoop_drawn in Hrun.
  by rewrite length_seq in Hrun.
- intros ?; simplify_eq. lia.
Qed.

(** Two runs that start at [k1] and [k2] and are given the same draws end
  in the same state, up to the count of the draws. *)
Lemma generateRun_same_draws maxRooms k1 k2 :
(∀ i, (i < 5 * Z.to_nat maxRooms)%nat → rand1 (k1 + i) = rand2 (k2 + i)) →
∃ n, generateRun rand2 width height maxRooms roomMin roomMax k2 =
     withDrawn (k2 + n) <$>
       generateRun rand1 width height maxRooms roomMin roomMax k1 ∧
     ∀ st, generateRun rand1 width height maxRooms roomMin roomMax k1
             = Some st → g_drawn st = (k1 + n)%nat.
Proof.
intros Hsame. unfold generateRun, placeRooms.
set (l := range 0 maxRooms).
assert (length l = Z.to_nat maxRooms) as Hl.
{ unfold l, range. rewrite length_seqZ. lia. }
pose proof (placeLoop_same_draws l (mkGen (initGrid width height) [] [] k1) k2)
  as Hplace.
change (withDrawn k2 (mkGen (initGrid width height) [] [] k1))
  with (mkGen (initGrid width height) [] [] k2) in Hplace.
rewrite Hplace by (intros; apply Hsame; simpl; lia). clear Hplace.
destruct (forEach l _ (mkGen _ _ _ k1)) as [st|] eqn:Hrun;
  cbn [fmap option_fmap option_map].
2:{ exists 0%nat. by split. }
pose proof (placeLoop_rooms_length _ _ _ Hrun) as Hlen.
pose proof (placeLoop_drawn _ _ _ Hrun) as Hd.
cbn [g_rooms g_drawn length] in Hlen, Hd.
rewrite Nat.add_0_l in Hlen.
exists (4 * length l + (length (g_rooms st) - 1))%nat.
rewrite connectAll_same_draws.
- split.
  + replace (k2 + 4 * length l + (length (g_rooms st) - 1))%nat
      with (k2 + (4 * length l + (length (g_rooms st) - 1)))%nat by lia.
    done.
  + intros st' Hst'. apply connectAll_drawn in Hst'. lia.
- intros i Hi. rewrite Hd.
  replace (k1 + 4 * length l + i)%nat with (k1 + (4 * length l + i))%nat by lia.
  replace (k2 + 4 * length l + i)%nat with (k2 + (4 * length l + i))%nat by lia.
  apply Hsame. lia.
Qed.

End SameDraws.

(** ** Properties of the generator *)

(** C2. In every dungeon that [generateDungeon] returns with at least two
    rooms, the cells of an L-shaped corridor between the centers of two
    rooms placed one after the other are all Floor, both ends included, and
    so a path of Floor cells, each adjacent to the next, leads from the
    center of the first to the center of the second. *)
Theorem consecutive_rooms_connected
  rand width height maxRooms roomMin roomMax k d k' (i : nat) c1 c2 :
  generateDungeon rand width height maxRooms roomMin roomMax k = Some (d, k') →
  (2 ≤ length (rooms d))%nat →
  rooms d !! i = Some c1 →
  rooms d !! S i = Some c2 →
  corridor (grid d) c1 c2 ∧
  pathBetween (grid d) (cx c1, cy c1) (cx c2, cy c2).
Proof.
  unfold generateDungeon. intros Hgen _ H1 H2.
  destruct (generateRun _ _ _ _ _ _ _) as [st|] eqn:Hrun; [|done].
  simplify_eq. simpl in *.
  destruct (generateRun_inv _ _ _ _ _ _ _ _ Hrun) as [_ Hj].
  destruct (Hj (S i)) as (c1' & c2' & H1' & H2' & Hc).
  { apply lookup_lt_Some in H2. lia. }
  replace (S i - 1)%nat with i in H1' by lia. simplify_eq.
  split; [done|]. by apply connected_path, corridor_connected.
Qed.

Lemma consecutive_rooms_connected_witness :
  ∃ d k', generateDungeon randB 30 30 6 3 6 0 = Some (d, k') ∧
          rooms d = [mkCenter 2 2; mkCenter 23 15; mkCenter 11 11] ∧
          corridor (grid d) (mkCenter 2 2) (mkCenter 23 15) ∧
          pathBetween (grid d) (2, 2) (23, 15).
Proof.
  assert (is_Some (generateDungeon randB 30 30 6 3 6 0)) as [[d k'] Hgen].
  { apply (bool_decide_unpack _). vm_compute. reflexivity. }
  assert (rooms d = [mkCenter 2 2; mkCenter 23 15; mkCenter 11 11]) as Hr.
  { assert ((λ r, rooms r.1) <$> generateDungeon randB 30 30 6 3 6 0
            = Some [mkCenter 2 2; mkCenter 23 15; mkCenter 11 11]) as Hc
      by (vm_compute; reflexivity).
    rewrite Hgen in Hc. simpl in Hc. congruence. }
  exists d, k'. split; [exact Hgen|]. split; [exact Hr|].
  apply (consecutive_rooms_connected randB 30 30 6 3 6 0 d k' 0
           (mkCenter 2 2) (mkCenter 23 15) Hgen).
  - rewrite Hr. simpl. lia.
  - rewrite Hr. reflexivity.
  - rewrite Hr. reflexivity.
Defined.

(** C9. The rectangles carved by a run of the generator are those of the
    centers it returns, their cells are Floor in the returned grid, and no
    cell belongs to two of them; an iteration whose candidate rectangle
    holds a cell that is already Floor changes neither the grid nor the list
    of rooms. *)
Theorem accepted_rooms_disjoint
  rand width height maxRooms roomMin roomMax k st :
  generateRun rand width height maxRooms roomMin roomMax k = Some st →
  generateDungeon rand width height maxRooms roomMin roomMax k
    = Some (mkDungeon (g_grid st) (g_rooms st), g_drawn st) ∧
  g_rooms st = centerOf <$> g_accepted st ∧
  (∀ r xx yy, r ∈ g_accepted st → inRect r xx yy → floorAt (g_grid st) xx yy) ∧
  (∀ i j ri rj, i ≠ j →
     g_accepted st !! i = Some ri → g_accepted st !! j = Some rj →
     ∀ xx yy, ¬ (inRect ri xx yy ∧ inRect rj xx yy)) ∧
  (∀ st0 st1 xx yy,
     inRect (candidate rand width height roomMin roomMax (g_drawn st0)) xx yy →
     floorAt (g_grid st0) xx yy →
     placeRoom rand width height roomMin roomMax st0 = Some st1 →
     g_grid st1 = g_grid st0 ∧ g_rooms st1 = g_rooms st0 ∧
     g_accepted st1 = g_accepted st0).
Proof.
  intros Hrun. split; [unfold generateDungeon; by rewrite Hrun|].
  destruct (generateRun_inv _ _ _ _ _ _ _ _ Hrun) as [[Hc Hf Hd] _].
  split; [done|]. split; [done|]. split; [exact Hd|].
  intros st0 st1 xx yy. apply placeRoom_rejects.
Qed.

Lemma accepted_rooms_disjoint_witness :
  ∃ st, generateRun randB 30 30 6 3 6 0 = Some st ∧
        g_accepted st = [mkRect 1 1 3 3; mkRect 21 12 5 6; mkRect 9 9 4 4] ∧
        ∀ i j ri rj, i ≠ j →
          g_accepted st !! i = Some ri → g_accepted st !! j = Some rj →
          ∀ xx yy, ¬ (inRect ri xx yy ∧ inRect rj xx yy).
Proof.
  assert (is_Some (generateRun randB 30 30 6 3 6 0)) as [st Hrun].
  { apply (bool_decide_unpack _). vm_compute. reflexivity. }
  exists st. split; [exact Hrun|]. split.
  - assert (g_accepted <$> generateRun randB 30 30 6 3 6 0
            = Some [mkRect 1 1 3 3; mkRect 21 12 5 6; mkRect 9 9 4 4]) as Hc
      by (vm_compute; reflexivity).
    rewrite Hrun in Hc. simpl in Hc. congruence.
  - exact (proj1 (proj2 (proj2 (proj2
             (accepted_rooms_disjoint randB 30 30 6 3 6 0 st Hrun))))).
Defined.

(** C5 as amended. [generateDungeon] has no parameter for its random
    source; what it returns is determined by its five arguments and by the
    values [Math.random] returns during the call, of which there are at most
    [5 * maxRooms]: two calls with the same arguments that are given the
    same values return the same grid and the same sequence of room centers
    (or both throw), after the same number of draws. *)
Theorem generateDungeon_same_draws
  (rand1 rand2 : nat → Q) width height maxRooms roomMin roomMax (k1 k2 : nat) :
  (∀ i, (i < 5 * Z.to_nat maxRooms)%nat →
        rand1 (k1 + i)%nat = rand2 (k2 + i)%nat) →
  fst <$> generateDungeon rand1 width height maxRooms roomMin roomMax k1 =
  fst <$> generateDungeon rand2 width height maxRooms roomMin roomMax k2 ∧
  ∀ d1 n1 d2 n2,
    generateDungeon rand1 width height maxRooms roomMin roomMax k1
      = Some (d1, n1) →
    generateDungeon rand2 width height maxRooms roomMin roomMax k2
      = Some (d2, n2) →
    grid d1 = grid d2 ∧ rooms d1 = rooms d2 ∧ (n1 - k1 = n2 - k2)%nat.
Proof.
  intros Hsame.
  destruct (generateRun_same_draws rand1 rand2 width height roomMin roomMax
              maxRooms k1 k2 Hsame) as (n & Hrun & Hn).
  unfold generateDungeon. rewrite Hrun.
  destruct (generateRun rand1 _ _ _ _ _ k1) as [st|]; simpl; [|done].
  split; [done|]. intros d1 n1 d2 n2 ? ?. simplify_eq.
  rewrite (Hn st eq_refl). simpl. split; [done|]. split; [done|]. lia.
Qed.

Lemma generateDungeon_same_draws_witness :
  fst <$> generateDungeon randB 30 30 6 3 6 0 =
  fst <$> generateDungeon randB' 30 30 6 3 6 7.
Proof.
  apply (generateDungeon_same_draws randB randB' 30 30 6 3 6 0 7).
  intros i _. unfold randB'.
  replace (7 + i <? 7)%nat with false by (symmetry; apply Nat.ltb_ge; lia).
  f_equal. lia.
Defined.

(** C5, counterexample. Two calls of [generateDungeon] with the same five
    arguments, the first when the script starts and the second after the 24
    draws of the first, return different grids and different room centers:
    the arguments hold no seed, and the result is not a function of them. *)
Lemma generateDungeon_not_seeded :
  snd <$> generateDungeon randA 30 30 6 3 6 0 = Some 24%nat ∧
  (λ r, rooms r.1) <$> generateDungeon randA 30 30 6 3 6 0
    = Some [mkCenter 2 2] ∧
  (λ r, rooms r.1) <$> generateDungeon randA 30 30 6 3 6 24
    = Some [mkCenter 23 23] ∧
  (λ r, isFloor (grid r.1) 2 2) <$> generateDungeon randA 30 30 6 3 6 0
    = Some true ∧
  (λ r, isFloor (grid r.1) 2 2) <$> generateDungeon randA 30 30 6 3 6 24
    = Some false.
Proof. repeat split; vm_compute; reflexivity. Qed.

(** ** Movement *)

(** [enemyAttack] changes the player's health, the time of the last attack
    and the game-over text, and nothing else. *)
Lemma enemyAttack_frame now s s' :
  enemyAttack now s = Some s' →
  dungeonGrid s' = dungeonGrid s ∧ builtGrid s' = builtGrid s ∧
  playerMesh s' = playerMesh s ∧ enemyMesh s' = enemyMesh s ∧
  enemyHealth s' = enemyHealth s ∧ keys s' = keys s ∧ drawn s' = drawn s.
Proof.
  unfold enemyAttack. intros Hrun.
  repeat case_match; simplify_eq; done.
Qed.

(** The two axis steps of lines 357-375 and 389-404, for a move by [mx]
    along x (tried when [bx]) and by [mz] along z (tried when [bz]). *)
Lemma two_axis_steps (g : Grid) (p : Vec) (bx bz : bool) (mx mz : Q) :
  let p1 :=
    if bx then
      if isFloor g (cellOf (vx p + mx)) (cellOf (vz p))
      then mkVec (vx p + mx) (vz p) else p
    else p in
  let p2 :=
    if bz then
      if isFloor g (cellOf (vx p1)) (cellOf (vz p1 + mz))
      then mkVec (vx p1) (vz p1 + mz) else p1
    else p1 in
  vx p2 = (if bx && isFloor g (cellOf (vx p + mx)) (cellOf (vz p))
           then (vx p + mx)%Q else vx p) ∧
  vz p2 = (if bz && isFloor g (cellOf (vx p2)) (cellOf (vz p + mz))
           then (vz p + mz)%Q else vz p).
Proof.
  cbv zeta.
  destruct bx; [destruct (isFloor g (cellOf (vx p + mx)) (cellOf (vz p)))|];
    cbn [andb vx vz];
    (destruct bz; [|by split]);
    match goal with
    | |- context [if isFloor g ?x ?z then _ else _] =>
        destruct (isFloor g x z) eqn:E
    end; cbn [andb vx vz]; rewrite ?E; by split.
Qed.

(** C3. In a frame the player's x-coordinate becomes the candidate
    [x + moveX * moveDistance] exactly when [moveX] is not zero and the cell
    of the candidate and of the current z-coordinate, both rounded by
    [floor(v + 0.5)], is a Floor cell of the grid, and stays as it was
    otherwise; the z-coordinate likewise, with the x-coordinate as the x-step
    left it.  The enemy's two coordinates obey the same rule for its own
    step towards the player.  Each axis is decided on its own. *)
Theorem axis_moves_commit_iff_floor
  (sqrt : Q → Q) (deltaTime now : Q) (s s' : Session) (p : Vec) :
  animate sqrt deltaTime now s = Some s' →
  0 < playerHealth s →
  playerMesh s = Some p →
  let g := dungeonGrid s in
  let moveX := (playerDirection sqrt (keys s)).1 in
  let moveZ := (playerDirection sqrt (keys s)).2 in
  let newX := (vx p + moveX * (PLAYER_SPEED * deltaTime))%Q in
  let newZ := (vz p + moveZ * (PLAYER_SPEED * deltaTime))%Q in
  ∃ p', playerMesh s' = Some p' ∧
    vx p' = (if nonzero moveX && isFloor g (cellOf newX) (cellOf (vz p))
             then newX else vx p) ∧
    vz p' = (if nonzero moveZ && isFloor g (cellOf (vx p')) (cellOf newZ)
             then newZ else vz p) ∧
    ∀ e, enemyMesh s = Some e →
      let dx := (vx p' - vx e)%Q in
      let dz := (vz p' - vz e)%Q in
      let dist := sqrt (dx * dx + dz * dz)%Q in
      let eX := (dx / dist * (ENEMY_SPEED * deltaTime))%Q in
      let eZ := (dz / dist * (ENEMY_SPEED * deltaTime))%Q in
      let newEx := (vx e + eX)%Q in
      let newEz := (vz e + eZ)%Q in
      ∃ e', enemyMesh s' = Some e' ∧
        vx e' = (if positive dist && nonzero eX &&
                    isFloor g (cellOf newEx) (cellOf (vz e))
                 then newEx else vx e) ∧
        vz e' = (if positive dist && nonzero eZ &&
                    isFloor g (cellOf (vx e')) (cellOf newEz)
                 then newEz else vz e).
Proof.
  unfold animate. intros Hrun Halive Hp.
  destruct (decide (0 < playerHealth s)) as [_|]; [|done].
  rewrite Hp in Hrun. simpl in Hrun. cbv zeta.
  set (p' := movePlayer sqrt deltaTime (dungeonGrid s) (keys s) p) in *.
  assert (vx p' = (if nonzero (playerDirection sqrt (keys s)).1 &&
             isFloor (dungeonGrid s)
               (cellOf (vx p + (playerDirection sqrt (keys s)).1 *
                               (PLAYER_SPEED * deltaTime)))
               (cellOf (vz p))
           then (vx p + (playerDirection sqrt (keys s)).1 *
                        (PLAYER_SPEED * deltaTime))%Q else vx p) ∧
          vz p' = (if nonzero (playerDirection sqrt (keys s)).2 &&
             isFloor (dungeonGrid s) (cellOf (vx p'))
               (cellOf (vz p + (playerDirection sqrt (keys s)).2 *
                               (PLAYER_SPEED * deltaTime)))
           then (vz p + (playerDirection sqrt (keys s)).2 *
                        (PLAYER_SPEED * deltaTime))%Q else vz p)) as [Hx Hz].
  { unfold p', movePlayer, nonzero.
    destruct (playerDirection sqrt (keys s)) as [moveX moveZ]. cbn [fst snd].
    apply (two_axis_steps (dungeonGrid s) p (negb (Qeq_bool moveX 0))
             (negb (Qeq_bool moveZ 0))). }
  assert (∃ s2, (match enemyMesh s with
                 | Some e => Some (set_enemyMesh
                     (Some (moveEnemy sqrt deltaTime (dungeonGrid s) p' e))
                     (set_playerMesh (Some p') s))
                 | None => Some (set_playerMesh (Some p') s)
                 end) = Some s2 ∧ enemyAttack now s2 = Some s') as (s2 & Hs2 & Hatt).
  { destruct (enemyMesh s); eauto. }
  clear Hrun.
  destruct (enemyAttack_frame _ _ _ Hatt) as (_ & _ & Hp' & He' & _).
  exists p'. split; [|split; [exact Hx|split; [exact Hz|]]].
  { rewrite Hp'. destruct (enemyMesh s); by simplify_eq. }
  intros e He. rewrite He in Hs2. simplify_eq.
  exists (moveEnemy sqrt deltaTime (dungeonGrid s) p' e).
  split; [by rewrite He'|].
  unfold moveEnemy, nonzero, positive. cbv zeta.
  destruct (Qlt_le_dec 0 _) as [Hd|Hd]; [|done].
  cbn [andb]. apply (two_axis_steps (dungeonGrid s) e).
Qed.

(** ** Combat *)

(** What both attacks compare with their range is the squared distance in
    the plane. *)
Lemma distSq_planar (p e : Vec) : (distSq p e == planarDistSq p e)%Q.
Proof. unfold distSq, planarDistSq. cbv zeta. simpl. ring. Qed.

(** The two outcomes of [enemyAttack]: nothing changes, or the enemy is in
    range, the cooldown has run out, and the player is hit. *)
Lemma enemyAttack_cases now s s' :
  enemyAttack now s = Some s' →
  s' = s ∨
  ∃ p e, playerMesh s = Some p ∧ enemyMesh s = Some e ∧
         (distSq p e <= 1 * 1)%Q ∧
         (ATTACK_INTERVAL < now - lastEnemyAttackTime s)%Q ∧
         playerHealth s' = Z.max 0 (playerHealth s - ENEMY_DAMAGE) ∧
         lastEnemyAttackTime s' = now.
Proof.
  unfold enemyAttack. intros Hrun.
  destruct (enemyMesh s) as [e|] eqn:He; [|left; by simplify_eq].
  destruct (playerMesh s) as [p|] eqn:Hp; [|done].
  cbv zeta in Hrun.
  destruct (Qle_bool (distSq p e) (1 * 1)) eqn:Hrange; [|left; by simplify_eq].
  destruct (Qlt_le_dec _ _) as [Hcool|Hcool]; [|left; by simplify_eq].
  right. exists p, e. apply Qle_bool_iff in Hrange.
  destruct (decide (playerHealth s - ENEMY_DAMAGE ≤ 0)); simplify_eq; simpl;
    repeat split; try done; lia.
Qed.

(** Before the cooldown has run out (and at the very millisecond it does)
    the attack is rejected, in range or not. *)
Lemma enemyAttack_cooldown now s p :
  playerMesh s = Some p →
  (now - lastEnemyAttackTime s <= ATTACK_INTERVAL)%Q →
  enemyAttack now s = Some s.
Proof.
  unfold enemyAttack. intros -> Hcool.
  destruct (enemyMesh s); [|done]. cbv zeta.
  destruct (Qle_bool _ _); [|done].
  destruct (Qlt_le_dec _ _) as [Hlt|]; [|done].
  exfalso. eapply Qlt_not_le; eauto.
Qed.

Section Session.
Variable rand : nat → Q.
Variable sqrt : Q → Q.

(** A frame either leaves the player's health and the time of the last
  enemy attack alone, or an attack lands in it. *)
Lemma animate_attack deltaTime now s s' :
animate sqrt deltaTime now s = Some s' →
(playerHealth s' = playerHealth s ∧
 lastEnemyAttackTime s' = lastEnemyAttackTime s) ∨
(0 < playerHealth s ∧
 (ATTACK_INTERVAL < now - lastEnemyAttackTime s)%Q ∧
 playerHealth s' = Z.max 0 (playerHealth s - ENEMY_DAMAGE) ∧
 lastEnemyAttackTime s' = now).
Proof.
unfold animate. intros Hrun.
destruct (decide (0 < playerHealth s)) as [Halive|]; [|left; by simplify_eq].
match type of Hrun with
| match ?m with _ => _ end = _ => destruct m as [s2|] eqn:Hs2; [|done]
end.
assert (playerHealth s2 = playerHealth s ∧
        lastEnemyAttackTime s2 = lastEnemyAttackTime s) as [Hh Ht].
{ repeat case_match; by simplify_eq. }
destruct (enemyAttack_cases _ _ _ Hrun) as [->|(p & e & _ & _ & _ & Hc & Hh' & Ht')].
- by left.
- right. rewrite Hh', Hh, <- Ht. done.
Qed.

Lemma createPlayerAndEnemy_time c1 c2 s s' :
createPlayerAndEnemy c1 c2 s = Some s' →
lastEnemyAttackTime s' = lastEnemyAttackTime s ∧
dungeonGrid s' = dungeonGrid s ∧
playerHealth s' = PLAYER_MAX_HEALTH ∧ enemyHealth s' = ENEMY_MAX_HEALTH.
Proof. unfold createPlayerAndEnemy. intros H. by repeat case_match; simplify_eq. Qed.

Lemma playerAttack_frame s s' :
playerAttack s = Some s' →
dungeonGrid s' = dungeonGrid s ∧ builtGrid s' = builtGrid s ∧
playerMesh s' = playerMesh s ∧ playerHealth s' = playerHealth s ∧
lastEnemyAttackTime s' = lastEnemyAttackTime s ∧ keys s' = keys s ∧
drawn s' = drawn s.
Proof. unfold playerAttack. intros H. by repeat case_match; simplify_eq. Qed.

Lemma restartGame_frame s s' :
restartGame rand s = Some s' →
dungeonGrid s' = dungeonGrid s ∧
lastEnemyAttackTime s' = lastEnemyAttackTime s ∧ keys s' = keys s.
Proof.
unfold restartGame, restartWith, createPlayerAndEnemy. intros H.
by repeat case_match; simplify_eq.
Qed.

(** No key changes the time of the last enemy attack, nor the grid used for
  collisions. *)
Lemma keydown_frame key s s' :
keydown rand key s = Some s' →
lastEnemyAttackTime s' = lastEnemyAttackTime s ∧
dungeonGrid s' = dungeonGrid s.
Proof.
unfold keydown. intros H.
repeat case_decide; simplify_eq; try done.
- by destruct (playerAttack_frame _ _ H) as (? & _ & _ & _ & ? & _).
- by destruct (restartGame_frame _ _ H) as (? & ? & _).
Qed.

Lemma keyup_frame key s :
lastEnemyAttackTime (keyup key s) = lastEnemyAttackTime s ∧
dungeonGrid (keyup key s) = dungeonGrid s ∧
playerHealth (keyup key s) = playerHealth s ∧
enemyMesh (keyup key s) = enemyMesh s.
Proof. unfold keyup. by repeat case_decide. Qed.

(** Every attack of the run comes more than [ATTACK_INTERVAL] after the last
  attack before the run, and after every earlier attack of the run. *)
Lemma attackTimes_spaced evs s :
(∀ t, t ∈ attackTimes rand sqrt evs s →
      (ATTACK_INTERVAL < t - lastEnemyAttackTime s)%Q) ∧
(∀ (i j : nat) t1 t2, (i < j)%nat →
   attackTimes rand sqrt evs s !! i = Some t1 →
   attackTimes rand sqrt evs s !! j = Some t2 →
   (ATTACK_INTERVAL < t2 - t1)%Q).
Proof.
revert s; induction evs as [|ev evs IH]; intros s; simpl.
- split; [intros t Ht; by apply elem_of_nil in Ht|].
  intros i j t1 t2 _ Hi. by rewrite lookup_nil in Hi.
- destruct (handle rand sqrt ev s) as [s'|] eqn:Hstep.
  2:{ split; [intros t Ht; by apply elem_of_nil in Ht|].
      intros i j t1 t2 _ Hi. by rewrite lookup_nil in Hi. }
  destruct (IH s') as [IH1 IH2].
  assert (lastEnemyAttackTime s' = lastEnemyAttackTime s →
          (∀ t, t ∈ attackTimes rand sqrt evs s' →
             (ATTACK_INTERVAL < t - lastEnemyAttackTime s)%Q) ∧
          (∀ (i j : nat) t1 t2, (i < j)%nat →
             attackTimes rand sqrt evs s' !! i = Some t1 →
             attackTimes rand sqrt evs s' !! j = Some t2 →
             (ATTACK_INTERVAL < t2 - t1)%Q)) as Hsame.
  { intros <-. by split. }
  destruct ev as [key|key|deltaTime now]; simpl in Hstep.
  + apply Hsame. by destruct (keydown_frame _ _ _ Hstep).
  + simplify_eq. apply Hsame. by destruct (keyup_frame key s).
  + destruct (animate_attack _ _ _ _ Hstep) as [[Hh Ht]|(Halive & Hcool & Hh & Ht)].
    * rewrite bool_decide_eq_false_2 by lia. by apply Hsame.
    * rewrite bool_decide_eq_true_2 by (unfold ENEMY_DAMAGE in *; lia).
      rewrite Ht in IH1. unfold ATTACK_INTERVAL in *. split.
      -- intros t [->|Hin]%elem_of_cons; [done|].
         specialize (IH1 _ Hin). lra.
      -- intros [|i] [|j] t1 t2 Hij Hi Hj; simpl in *; try lia.
         ++ simplify_eq. apply IH1. by eapply list_elem_of_lookup_2.
         ++ eapply (IH2 i j); eauto. lia.
Qed.


End Session.

(** ** Attacks *)





(** C7. [enemyAttack] changes the session only when the enemy exists, the
    squared distance in the plane between enemy and player is at most 1
    squared, and more than [ATTACK_INTERVAL] ms have passed since the time
    stamp of the last hit; it then takes 10 off the player's health (not
    below 0) and sets the time stamp to now, and it does so whenever these
    conditions hold.  An enemy further away is rejected, and so is an
    attempt at most [ATTACK_INTERVAL] ms after the last hit, in range or
    not.  So in every run of the session a frame in which the player loses
    health comes more than [ATTACK_INTERVAL] ms after every earlier such
    frame. *)
Theorem enemy_attack_cooldown (rand : nat → Q) (sqrt : Q → Q) :
  (∀ now s s', enemyAttack now s = Some s' → s' ≠ s →
     ∃ p e, playerMesh s = Some p ∧ enemyMesh s = Some e ∧
            (planarDistSq p e <= 1 ^ 2)%Q ∧
            (ATTACK_INTERVAL < now - lastEnemyAttackTime s)%Q ∧
            playerHealth s' = Z.max 0 (playerHealth s - ENEMY_DAMAGE) ∧
            lastEnemyAttackTime s' = now) ∧
  (∀ now s p e, playerMesh s = Some p → enemyMesh s = Some e →
     (planarDistSq p e <= 1 ^ 2)%Q →
     (ATTACK_INTERVAL < now - lastEnemyAttackTime s)%Q →
     ∃ s', enemyAttack now s = Some s' ∧
           playerHealth s' = Z.max 0 (playerHealth s - ENEMY_DAMAGE) ∧
           lastEnemyAttackTime s' = now) ∧
  (∀ now s p e, playerMesh s = Some p → enemyMesh s = Some e →
     (1 ^ 2 < planarDistSq p e)%Q →
     enemyAttack now s = Some s) ∧
  (∀ now s p, playerMesh s = Some p →
     (now - lastEnemyAttackTime s <= ATTACK_INTERVAL)%Q →
     enemyAttack now s = Some s) ∧
  (∀ deltaTime now s s',
     handle rand sqrt (Frame deltaTime now) s = Some s' →
     playerHealth s' < playerHealth s →
     (ATTACK_INTERVAL < now - lastEnemyAttackTime s)%Q ∧
     playerHealth s' = Z.max 0 (playerHealth s - ENEMY_DAMAGE) ∧
     lastEnemyAttackTime s' = now) ∧
  (∀ evs s (i j : nat) t1 t2, (i < j)%nat →
     attackTimes rand sqrt evs s !! i = Some t1 →
     attackTimes rand sqrt evs s !! j = Some t2 →
     (ATTACK_INTERVAL < t2 - t1)%Q).
Proof.
  split; [|split; [|split; [|split; [|split]]]].
  - intros now s s' Hrun Hne.
    destruct (enemyAttack_cases _ _ _ Hrun)
      as [?|(p & e & Hp & He & Hd & Hrest)]; [done|].
    exists p, e. split; [exact Hp|]. split; [exact He|]. split; [|exact Hrest].
    rewrite <- distSq_planar. exact Hd.
  - intros now s p e Hp He Hd Hcool. unfold enemyAttack. rewrite He, Hp.
    cbv zeta. rewrite <- distSq_planar in Hd.
    change (1 ^ 2)%Q with (1 * 1)%Q in Hd. apply Qle_bool_iff in Hd.
    rewrite Hd.
    destruct (Qlt_le_dec ATTACK_INTERVAL (now - lastEnemyAttackTime s))
      as [_|Hle]; [|exfalso; by eapply Qlt_not_le].
    destruct (decide (playerHealth s - ENEMY_DAMAGE ≤ 0)); eexists;
      (split; [reflexivity|]); simpl; split; try reflexivity; lia.
  - intros now s p e Hp He Hd. unfold enemyAttack. rewrite He, Hp. cbv zeta.
    destruct (Qle_bool (distSq p e) (1 * 1)) eqn:Hrange; [|reflexivity].
    exfalso. apply Qle_bool_iff in Hrange. rewrite distSq_planar in Hrange.
    by eapply Qlt_not_le.
  - apply enemyAttack_cooldown.
  - intros deltaTime now s s' Hstep Hlt. simpl in Hstep.
    destruct (animate_attack _ _ _ _ _ Hstep) as [[Hh _]|(_ & ? & ? & ?)]; [lia|done].
  - intros evs s. apply attackTimes_spaced.
Qed.

(** The player of [sessionA] has walked right to x = 3.2 and the enemy has
    followed to x = 2.6, at distance 0.6.  There the enemy's attack is
    rejected 1000 ms after the time stamp and lands after 1001 ms; three
    frames 1001 ms apart hit three times.  In the session of [randB] the
    enemy starts at (11, 11), far from the player at (2, 2), and its attack
    is rejected whatever the time. *)
Lemma enemy_attack_cooldown_witness :
  ∃ s s' sB,
    sessionA [KeyDown "d"; Frame (2 # 5) 0; KeyUp "d"] = Some s ∧
    playerMesh s = Some (mkVec (16000000 # 5000000) 2) ∧
    enemyMesh s
      = Some (mkVec (3900000000000000000000000000
                       # 1500000000000000000000000000) 2) ∧
    (planarDistSq (mkVec (16000000 # 5000000) 2)
       (mkVec (3900000000000000000000000000
                 # 1500000000000000000000000000) 2) == 9 # 25)%Q ∧
    enemyAttack 1000 s = Some s ∧
    enemyAttack 1001 s = Some s' ∧
    playerHealth s' = 90 ∧ lastEnemyAttackTime s' = 1001%Q ∧
    attackTimes randA sqrtA (hits 3) s
      = [inject_Z 1001; inject_Z 2002; inject_Z 3003] ∧
    (ATTACK_INTERVAL < inject_Z 3003 - inject_Z 1001)%Q ∧
    startup randB = Some sB ∧
    playerMesh sB = Some (mkVec 2 2) ∧ enemyMesh sB = Some (mkVec 11 11) ∧
    enemyAttack 1001 sB = Some sB.
Proof.
  assert (is_Some (sessionA [KeyDown "d"; Frame (2 # 5) 0; KeyUp "d"]))
    as [s Hs].
  { apply (bool_decide_unpack _). vm_compute. reflexivity. }
  assert ((λ s, (playerMesh s, enemyMesh s, lastEnemyAttackTime s,
                 playerHealth s))
            <$> sessionA [KeyDown "d"; Frame (2 # 5) 0; KeyUp "d"]
          = Some (Some (mkVec (16000000 # 5000000) 2),
                  Some (mkVec (3900000000000000000000000000
                                 # 1500000000000000000000000000) 2),
                  0%Q, 100)) as Hc by (vm_compute; reflexivity).
  assert (attackTimes randA sqrtA (hits 3)
            <$> sessionA [KeyDown "d"; Frame (2 # 5) 0; KeyUp "d"]
          = Some [inject_Z 1001; inject_Z 2002; inject_Z 3003]) as Ht
    by (vm_compute; reflexivity).
  rewrite Hs in Hc, Ht. injection Hc as Hp He Hlast Hh.
  change (Some (attackTimes randA sqrtA (hits 3) s)
          = Some [inject_Z 1001; inject_Z 2002; inject_Z 3003]) in Ht.
  apply (inj Some) in Ht.
  assert (is_Some (startup randB)) as [sB HsB].
  { apply (bool_decide_unpack _). vm_compute. reflexivity. }
  assert ((λ s, (playerMesh s, enemyMesh s)) <$> startup randB
          = Some (Some (mkVec 2 2), Some (mkVec 11 11))) as HcB
    by (vm_compute; reflexivity).
  rewrite HsB in HcB. injection HcB as HpB HeB.
  destruct (enemy_attack_cooldown randA sqrtA)
    as (_ & Hlands & Hfar & Hearly & _ & Hspaced).
  destruct (Hlands 1001%Q s _ _ Hp He) as (s' & Hatt & Hnew & Hstamp).
  { by apply Qle_bool_iff. }
  { rewrite Hlast. reflexivity. }
  exists s, s', sB. split; [exact Hs|]. split; [exact Hp|]. split; [exact He|].
  split; [reflexivity|].
  split; [apply (Hearly 1000%Q s _ Hp); rewrite Hlast; by apply Qle_bool_iff|].
  split; [exact Hatt|]. split; [rewrite Hnew, Hh; reflexivity|].
  split; [exact Hstamp|]. split; [exact Ht|].
  split; [apply (Hspaced (hits 3) s 0%nat 2%nat); [lia|by rewrite Ht..]|].
  split; [exact HsB|]. split; [exact HpB|]. split; [exact HeB|].
  apply (Hfar 1001%Q sB _ _ HpB HeB). reflexivity.
Defined.

(** C10. When the player's health is 0 a frame changes nothing, but the
    space key still attacks: an enemy that is alive and within the attack
    radius loses 50 health and is removed when that brings it to 0 or less.
    The attack reads the enemy's mesh and health only; the player's health
    is left as it is. *)
Theorem attack_not_suspended_at_game_over
  (rand : nat → Q) (sqrt : Q → Q) (s : Session) (p e : Vec) :
  playerHealth s ≤ 0 →
  playerMesh s = Some p →
  enemyMesh s = Some e →
  0 < enemyHealth s →
  (distSq p e <= (3 # 2) * (3 # 2))%Q →
  (∀ deltaTime now, handle rand sqrt (Frame deltaTime now) s = Some s) ∧
  ∃ s', handle rand sqrt (KeyDown " ") s = Some s' ∧
        enemyHealth s' = Z.max 0 (enemyHealth s - 50) ∧
        (enemyHealth s ≤ 50 → enemyMesh s' = None) ∧
        playerHealth s' = playerHealth s.
Proof.
  intros Hover Hp He Halive Hrange. split.
  - intros deltaTime now. simpl. unfold animate.
    destruct (decide (0 < playerHealth s)); [lia|done].
  - change (handle rand sqrt (KeyDown " ") s) with (playerAttack s).
    unfold playerAttack. rewrite He, Hp.
    destruct (decide (enemyHealth s ≤ 0)); [lia|]. cbv zeta.
    apply Qle_bool_iff in Hrange. rewrite Hrange.
    destruct (decide (enemyHealth s - 50 ≤ 0)); eexists; (split; [done|]);
      simpl; repeat split; try done; lia.
Qed.

Lemma attack_not_suspended_at_game_over_witness :
  ∃ s s', sessionA (hits 10) = Some s ∧
          playerHealth s = 0 ∧ gameOverShown s = true ∧ enemyHealth s = 50 ∧
          handle randA sqrtA (KeyDown " ") s = Some s' ∧
          enemyHealth s' = 0 ∧ enemyMesh s' = None ∧ playerHealth s' = 0.
Proof.
  assert (is_Some (sessionA (hits 10))) as [s Hs].
  { apply (bool_decide_unpack _). vm_compute. reflexivity. }
  assert ((λ s, (playerMesh s, enemyMesh s, enemyHealth s, playerHealth s,
                 gameOverShown s)) <$> sessionA (hits 10)
          = Some (Some (mkVec 2 2), Some (mkVec 2 2), 50, 0, true)) as Hc
    by (vm_compute; reflexivity).
  rewrite Hs in Hc. injection Hc as Hp He Hh Hph Hgo.
  destruct (attack_not_suspended_at_game_over randA sqrtA s (mkVec 2 2)
              (mkVec 2 2)) as (_ & s' & Hatt & Hnew & Hgone & Hsame);
    [lia|exact Hp|exact He|lia|by apply Qle_bool_iff|].
  exists s, s'. repeat split; try assumption; try lia.
  apply Hgone. lia.
Defined.

(** The player of [sessionA] walks right to x = 3.2 and then holds right and
    down for a frame: the step along x would enter the wall column 4 and is
    dropped, the step along z stays in the room and is made. *)
Lemma axis_moves_commit_iff_floor_witness :
  ∃ s s' p p',
    sessionA [KeyDown "d"; Frame (2 # 5) 0; KeyDown "s"] = Some s ∧
    animate sqrtA (1 # 5) 0 s = Some s' ∧
    0 < playerHealth s ∧
    playerMesh s = Some p ∧ playerMesh s' = Some p' ∧
    vx p' = vx p ∧ (vz p < vz p')%Q.
Proof.
  assert (is_Some (sessionA [KeyDown "d"; Frame (2 # 5) 0; KeyDown "s"]))
    as [s Hs].
  { apply (bool_decide_unpack _). vm_compute. reflexivity. }
  assert (is_Some (sessionA [KeyDown "d"; Frame (2 # 5) 0; KeyDown "s"]
                     ≫= animate sqrtA (1 # 5) 0)) as [s' Hs'].
  { apply (bool_decide_unpack _). vm_compute. reflexivity. }
  assert ((λ s, (playerHealth s, playerMesh s))
            <$> sessionA [KeyDown "d"; Frame (2 # 5) 0; KeyDown "s"]
          = Some (100, Some (mkVec (16000000 # 5000000) 2))) as Hc
    by (vm_compute; reflexivity).
  assert (playerMesh
            <$> (sessionA [KeyDown "d"; Frame (2 # 5) 0; KeyDown "s"]
                   ≫= animate sqrtA (1 # 5) 0)
          = Some (Some (mkVec (16000000 # 5000000) (17142130 # 7071065))))
    as Hc' by (vm_compute; reflexivity).
  rewrite Hs' in Hc'. rewrite Hs in Hc, Hs'.
  change (animate sqrtA (1 # 5) 0 s = Some s') in Hs'.
  injection Hc as Hh Hp. injection Hc' as Hp'.
  destruct (axis_moves_commit_iff_floor sqrtA (1 # 5) 0 s s'
              (mkVec (16000000 # 5000000) 2) Hs')
    as (p' & Hp'' & _); [lia|exact Hp|].
  exists s, s', (mkVec (16000000 # 5000000) 2), p'.
  split; [exact Hs|]. split; [exact Hs'|]. split; [lia|].
  split; [exact Hp|]. split; [exact Hp''|].
  rewrite Hp' in Hp''. injection Hp'' as <-. split; [reflexivity|].
  reflexivity.
Defined.

(** ** Restart *)

(** C1, at the failing input. After the restart the actors stand, with
    full health, at the center (23, 23) of the only room of the new dungeon,
    whose walls were built from the new grid; but the grid the collision
    checks read is still the grid of the first dungeon, in which that room
    does not exist: holding D for a frame does not move the player, though
    the cell to the right is Floor in the new grid. *)
Theorem restart_keeps_startup_grid :
  (λ s, (playerHealth s, enemyHealth s, playerMesh s, enemyMesh s))
    <$> restarted
    = Some (100, 50, Some (mkVec 23 23), Some (mkVec 23 23)) ∧
  dungeonGrid <$> restarted = dungeonGrid <$> sessionA [] ∧
  (λ s, (isFloor (builtGrid s) 23 23, isFloor (builtGrid s) 24 23))
    <$> restarted = Some (true, true) ∧
  (λ s, (isFloor (dungeonGrid s) 23 23, isFloor (dungeonGrid s) 24 23))
    <$> restarted = Some (false, false) ∧
  playerMesh
    <$> (restarted ≫= run randA sqrtA [KeyDown "d"; Frame (1 # 3) 20000])
    = Some (Some (mkVec 23 23)).
Proof. repeat split; vm_compute; reflexivity. Qed.

(** C4, at the failing input. After the same restart both actors are alive
    and their position, rounded by [floor(v + 0.5)], is the cell (23, 23),
    which is a Wall cell of the grid used for collisions. *)
Theorem restart_spawns_on_wall :
  (λ s, (bool_decide (0 < playerHealth s), bool_decide (0 < enemyHealth s)))
    <$> restarted = Some (true, true) ∧
  (λ s, (λ p, (cellOf (vx p), cellOf (vz p))) <$> playerMesh s) <$> restarted
    = Some (Some (23, 23)) ∧
  (λ s, (λ p, isFloor (dungeonGrid s) (cellOf (vx p)) (cellOf (vz p)))
          <$> playerMesh s) <$> restarted = Some (Some false) ∧
  (λ s, (λ e, isFloor (dungeonGrid s) (cellOf (vx e)) (cellOf (vz e)))
          <$> enemyMesh s) <$> restarted = Some (Some false).
Proof. repeat split; vm_compute; reflexivity. Qed.

(** * Further properties of the code *)

(** ** The generator returns, and stays off the border *)

Lemma Qfloor_between (q : Q) (z : Z) :
  (inject_Z z <= q)%Q → (q < inject_Z (z + 1))%Q → Qfloor q = z.
Proof.
  intros Hlo Hhi.
  pose proof (Qfloor_resp_le _ _ Hlo) as H1. rewrite Qfloor_Z in H1.
  pose proof (Qfloor_le q) as H2.
  assert (inject_Z (Qfloor q) < inject_Z (z + 1))%Q as H3
    by (eapply Qle_lt_trans; eauto).
  rewrite <- Zlt_Qlt in H3. lia.
Qed.

(** [Math.floor(Math.random() * n)] is one of [0 .. n - 1]. *)
Lemma randomBelow_bounds rand k n :
  unitRand rand → 1 ≤ n → 0 ≤ randomBelow rand k n ≤ n - 1.
Proof.
  intros Hunit Hn. destruct (Hunit k) as [Hlo Hhi]. unfold randomBelow.
  assert (0 < inject_Z n)%Q as Hpos.
  { change 0%Q with (inject_Z 0). rewrite <- Zlt_Qlt. lia. }
  split.
  - change 0 with (Qfloor 0). apply Qfloor_resp_le.
    apply Qmult_le_0_compat; [done|]. by apply Qlt_le_weak.
  - assert (rand k * inject_Z n < inject_Z n)%Q as Hlt.
    { rewrite <- (Qmult_1_l (inject_Z n)) at 2.
      by apply Qmult_lt_compat_r. }
    pose proof (Qfloor_le (rand k * inject_Z n)) as Hle.
    assert (inject_Z (Qfloor (rand k * inject_Z n)) < inject_Z n)%Q as H3
      by (eapply Qle_lt_trans; eauto).
    rewrite <- Zlt_Qlt in H3. lia.
Qed.

(** [Math.floor(x + w/2)] on integers. *)
Lemma center_value (x w : Z) : Qfloor (inject_Z x + inject_Z w / 2) = x + w / 2.
Proof.
  unfold Qfloor, Qplus, Qdiv, Qmult, Qinv, inject_Z. simpl.
  change (Z.pos (1 * 2)) with 2. change (Z.pos (1 * (1 * 2))) with 2.
  rewrite !Z.mul_1_r, Z.add_comm, Z.div_add by lia. lia.
Qed.

Lemma candidate_roomRect rand width height roomMin roomMax k :
  unitRand rand → roomsFit width height roomMin roomMax →
  roomRect width height roomMin roomMax
    (candidate rand width height roomMin roomMax k).
Proof.
  intros Hunit (Hmin & Hw & Hh). unfold candidate, roomRect. cbv zeta. simpl.
  pose proof (randomBelow_bounds rand k (roomMax - roomMin + 1) Hunit) as H1.
  pose proof (randomBelow_bounds rand (k + 1) (roomMax - roomMin + 1) Hunit) as H2.
  specialize (H1 ltac:(lia)). specialize (H2 ltac:(lia)).
  set (w := randomBelow rand k (roomMax - roomMin + 1) + roomMin) in *.
  set (h := randomBelow rand (k + 1) (roomMax - roomMin + 1) + roomMin) in *.
  pose proof (randomBelow_bounds rand (k + 2) (width - w - 2) Hunit) as H3.
  pose proof (randomBelow_bounds rand (k + 3) (height - h - 2) Hunit) as H4.
  specialize (H3 ltac:(lia)). specialize (H4 ltac:(lia)). lia.
Qed.

Lemma wallRow_foldl_rows (width : Z) (l : list Z) (g : Grid) (y : Z) :
  is_Some (foldl (λ g y, <[y := wallRow width]> g) g l !! y) ↔
  is_Some (g !! y) ∨ y ∈ l.
Proof.
  revert g; induction l as [|v l IH]; intros g; simpl.
  - rewrite elem_of_nil. tauto.
  - rewrite IH, elem_of_cons. destruct (decide (v = y)) as [->|Hne].
    + rewrite lookup_insert_eq. split; [intros _; right; by left|].
      intros _. left. eauto.
    + rewrite lookup_insert_ne by done. split; [tauto|].
      intros [?|[?|?]]; [tauto|congruence|tauto].
Qed.

(** The grid of lines 127-133 has exactly the rows [0 .. height - 1]. *)
Lemma initGrid_rows width height y :
  is_Some (initGrid width height !! y) ↔ 0 ≤ y < height.
Proof.
  unfold initGrid. rewrite wallRow_foldl_rows, lookup_empty, elem_of_range.
  split; [intros [[? ?]|?]; [done|lia]|intros ?; right; lia].
Qed.

Section Writes.
Context {A : Type}.
Implicit Types (l : list A) (body : A → Grid → option Grid).

(** A loop that keeps a property of the state and whose body returns
    whenever the property holds, returns. *)
Lemma forEach_returns {S : Type} (P : S → Prop) l (body : A → S → option S) s :
  P s →
  (∀ v t, v ∈ l → P t → ∃ t', body v t = Some t' ∧ P t') →
  ∃ s', forEach l body s = Some s' ∧ P s'.
Proof.
  revert s; induction l as [|v l IH]; intros s Hs Hbody; simpl; [eauto|].
  destruct (Hbody v s) as (t & -> & Ht); [by left|done|].
  apply IH; [done|]. intros u t' Hu. apply Hbody. by right.
Qed.

(** The Floor cells after a loop of writes are those before it and those
    written by its iterations. *)
Lemma forEach_floor_iff l body (W : A → Z → Z → Prop) g g' :
  (∀ v t t', v ∈ l → body v t = Some t' →
     ∀ xx yy, floorAt t' xx yy ↔ floorAt t xx yy ∨ W v xx yy) →
  forEach l body g = Some g' →
  ∀ xx yy, floorAt g' xx yy ↔ floorAt g xx yy ∨ ∃ v, v ∈ l ∧ W v xx yy.
Proof.
  revert g; induction l as [|v l IH]; intros g Hbody Hrun xx yy; simpl in *.
  - simplify_eq. split; [tauto|]. intros [?|(v & Hv & _)]; [done|].
    by apply elem_of_nil in Hv.
  - destruct (body v g) as [t|] eqn:Hv; [|done].
    rewrite (IH t (λ u t1 t2 Hu, Hbody u t1 t2 (list_elem_of_further _ _ _ Hu)) Hrun).
    rewrite (Hbody v g t (list_elem_of_here _ _) Hv). split.
    + intros [[?|?]|(u & Hu & ?)]; [tauto|right; exists v; split; [by left|done]|].
      right. exists u. split; [by right|done].
    + intros [?|(u & [->|Hu]%elem_of_cons & ?)]; [tauto|tauto|].
      right. exists u. done.
Qed.
End Writes.

Lemma writeCell_returns g y x v : is_Some (g !! y) → is_Some (writeCell g y x v).
Proof. intros [row Hrow]. unfold writeCell. rewrite Hrow. eauto. Qed.

Lemma grows_rows g g' y : grows g g' → is_Some (g !! y) → is_Some (g' !! y).
Proof. intros [_ H]. apply H. Qed.

Lemma floorAt_writeCell_or g y x g' xx yy :
  writeCell g y x Floor = Some g' →
  floorAt g' xx yy ↔ floorAt g xx yy ∨ (xx = x ∧ yy = y).
Proof. intros Hw. rewrite (floorAt_writeCell _ _ _ _ _ _ Hw). tauto. Qed.

Lemma carveH_iff y x1 x2 g g' :
  carveH y x1 x2 g = Some g' →
  ∀ xx yy, floorAt g' xx yy ↔
    floorAt g xx yy ∨ (yy = y ∧ Z.min x1 x2 ≤ xx ≤ Z.max x1 x2).
Proof.
  unfold carveH. intros Hrun xx yy.
  rewrite (forEach_floor_iff _ _ (λ v xx yy, xx = v ∧ yy = y) _ _
             (λ v t t' _ Hw xx yy, floorAt_writeCell_or t y v t' xx yy Hw) Hrun).
  split; (intros [?|H]; [by left|right]).
  - destruct H as (v & Hv%elem_of_rangeIncl & -> & ->). done.
  - destruct H as [-> ?]. exists xx. by rewrite elem_of_rangeIncl.
Qed.

Lemma carveV_iff x y1 y2 g g' :
  carveV x y1 y2 g = Some g' →
  ∀ xx yy, floorAt g' xx yy ↔
    floorAt g xx yy ∨ (xx = x ∧ Z.min y1 y2 ≤ yy ≤ Z.max y1 y2).
Proof.
  unfold carveV. intros Hrun xx yy.
  rewrite (forEach_floor_iff _ _ (λ v xx yy, xx = x ∧ yy = v) _ _
             (λ v t t' _ Hw xx yy, floorAt_writeCell_or t v x t' xx yy Hw) Hrun).
  split; (intros [?|H]; [by left|right]).
  - destruct H as (v & Hv%elem_of_rangeIncl & -> & ->). done.
  - destruct H as [-> ?]. exists yy. by rewrite elem_of_rangeIncl.
Qed.

Lemma carveRow_iff yy x w g g' :
  forEach (range x (x + w)) (λ xx g, writeCell g yy xx Floor) g = Some g' →
  ∀ xx' yy', floorAt g' xx' yy' ↔
    floorAt g xx' yy' ∨ (yy' = yy ∧ x ≤ xx' < x + w).
Proof.
  intros Hrun xx' yy'.
  rewrite (forEach_floor_iff _ _ (λ v xx yy', xx = v ∧ yy' = yy) _ _
             (λ v t t' _ Hw xx yy', floorAt_writeCell_or t yy v t' xx yy' Hw)
             Hrun).
  split; (intros [?|H]; [by left|right]).
  - destruct H as (v & Hv%elem_of_range & -> & ->). done.
  - destruct H as [-> ?]. exists xx'. by rewrite elem_of_range.
Qed.

(** [carveRoom] changes the cells of the rectangle and no other. *)
Lemma carveRoom_iff x y w h g g' :
  carveRoom x y w h g = Some g' →
  ∀ xx yy, floorAt g' xx yy ↔ floorAt g xx yy ∨ inRect (mkRect x y w h) xx yy.
Proof.
  unfold carveRoom. intros Hrun xx yy.
  rewrite (forEach_floor_iff _ _ (λ v xx yy, yy = v ∧ x ≤ xx < x + w) _ _
             (λ v t t' _ Hrow, carveRow_iff v x w t t' Hrow) Hrun).
  unfold inRect. simpl. split; (intros [?|H]; [by left|right]).
  - destruct H as (v & Hv%elem_of_range & -> & ?). done.
  - destruct H as [? ?]. exists yy. by rewrite elem_of_range.
Qed.

Lemma carveRow_returns yy (l : list Z) g :
  is_Some (g !! yy) →
  ∃ g', forEach l (λ xx g, writeCell g yy xx Floor) g = Some g' ∧ grows g g'.
Proof.
  intros Hrow. apply forEach_returns; [apply grows_refl|].
  intros v t _ Hgt.
  destruct (writeCell_returns t yy v Floor) as [t' Ht'];
    [by eapply grows_rows|].
  exists t'. split; [done|]. eapply grows_trans; [done|].
  by apply writeCell_grows in Ht' as [? _].
Qed.

Lemma carveColumn_returns x (l : list Z) g :
  (∀ y, y ∈ l → is_Some (g !! y)) →
  ∃ g', forEach l (λ y g, writeCell g y x Floor) g = Some g' ∧ grows g g'.
Proof.
  intros Hrows. apply forEach_returns; [apply grows_refl|].
  intros v t Hv Hgt.
  destruct (writeCell_returns t v x Floor) as [t' Ht'];
    [eapply grows_rows; eauto|].
  exists t'. split; [done|]. eapply grows_trans; [done|].
  by apply writeCell_grows in Ht' as [? _].
Qed.

Lemma carveRoom_returns x y w h g :
  (∀ yy, y ≤ yy < y + h → is_Some (g !! yy)) →
  ∃ g', carveRoom x y w h g = Some g' ∧ grows g g'.
Proof.
  intros Hrows. unfold carveRoom. apply forEach_returns; [apply grows_refl|].
  intros yy t Hyy%elem_of_range Hgt.
  destruct (carveRow_returns yy (range x (x + w)) t) as (t' & Ht' & Hg);
    [eapply grows_rows; eauto|].
  exists t'. split; [done|]. by eapply grows_trans.
Qed.

Lemma carveH_returns y x1 x2 g :
  is_Some (g !! y) → ∃ g', carveH y x1 x2 g = Some g' ∧ grows g g'.
Proof. apply carveRow_returns. Qed.

Lemma carveV_returns x y1 y2 g :
  (∀ y, Z.min y1 y2 ≤ y ≤ Z.max y1 y2 → is_Some (g !! y)) →
  ∃ g', carveV x y1 y2 g = Some g' ∧ grows g g'.
Proof.
  intros Hrows. apply carveColumn_returns.
  intros y Hy%elem_of_rangeIncl. by apply Hrows.
Qed.

(** The overlap check throws only when it reads a row that does not exist. *)
Lemma checkOverlap_returns x y w h g :
  (∀ yy, y ≤ yy < y + h → is_Some (g !! yy)) →
  is_Some (checkOverlap x y w h g).
Proof.
  intros Hrows. unfold checkOverlap.
  destruct (forEach_returns (λ _ : bool, True) (range y (y + h))
              (λ yy overlaps,
                 forEach (range x (x + w)) (λ xx overlaps,
                   if (overlaps : bool) then Some true
                   else match readCell g yy xx with
                        | Some c => Some (bool_decide (c = Some Floor))
                        | None => None
                        end) overlaps) false I) as (b & Hb & _); [|eauto].
  intros yy ov Hyy%elem_of_range _.
  apply forEach_returns; [done|]. intros xx ov' _ _.
  destruct ov'; [eauto|]. unfold readCell.
  destruct (Hrows yy Hyy) as [row ->]. eauto.
Qed.

Lemma placeRoom_unfold rand width height roomMin roomMax st :
  placeRoom rand width height roomMin roomMax st =
  let r := candidate rand width height roomMin roomMax (g_drawn st) in
  match checkOverlap (rx r) (ry r) (rw r) (rh r) (g_grid st) with
  | None => None
  | Some true =>
      Some (mkGen (g_grid st) (g_rooms st) (g_accepted st) (g_drawn st + 4))
  | Some false =>
      match carveRoom (rx r) (ry r) (rw r) (rh r) (g_grid st) with
      | None => None
      | Some g' =>
          Some (mkGen g' (g_rooms st ++ [centerOf r]) (g_accepted st ++ [r])
                  (g_drawn st + 4))
      end
  end.
Proof. reflexivity. Qed.

Section Fitting.
Variable rand : nat → Q.
Variables width height roomMin roomMax : Z.
Hypothesis Hunit : unitRand rand.
Hypothesis Hfit : roomsFit width height roomMin roomMax.

Lemma roomRect_interior r xx yy :
  roomRect width height roomMin roomMax r → inRect r xx yy →
  interior width height xx yy.
Proof. unfold roomRect, inRect, interior. lia. Qed.

(** The center of a room is one of its cells. *)
Lemma centerOf_inRect r :
  roomRect width height roomMin roomMax r →
  inRect r (cx (centerOf r)) (cy (centerOf r)).
Proof.
  destruct Hfit as (Hmin & _). unfold roomRect, inRect, centerOf.
  cbn [cx cy]. rewrite !center_value. intros (Hw & Hh & _).
  pose proof (Z.div_pos (rw r) 2). pose proof (Z.div_lt (rw r) 2).
  pose proof (Z.div_pos (rh r) 2). pose proof (Z.div_lt (rh r) 2). lia.
Qed.

Lemma genInv_init k :
  genInv width height roomMin roomMax (mkGen (initGrid width height) [] [] k).
Proof.
  split; simpl.
  - apply initGrid_rows.
  - intros x y H. unfold floorAt in H. by rewrite initGrid_wall in H.
  - intros r Hr. by apply elem_of_nil in Hr.
Qed.

(** An iteration of the placement loop returns and keeps the grid in
    shape. *)
Lemma placeRoom_returns st :
  genInv width height roomMin roomMax st →
  ∃ st', placeRoom rand width height roomMin roomMax st = Some st' ∧
         genInv width height roomMin roomMax st'.
Proof.
  intros [Hrows Hfloor Hrects]. rewrite placeRoom_unfold. cbv zeta.
  pose proof (candidate_roomRect rand width height roomMin roomMax
                (g_drawn st) Hunit Hfit) as Hr.
  set (r := candidate rand width height roomMin roomMax (g_drawn st)) in *.
  assert (∀ yy, ry r ≤ yy < ry r + rh r → is_Some (g_grid st !! yy)) as Hin.
  { intros yy Hyy. apply Hrows. unfold roomRect in Hr. lia. }
  destruct (checkOverlap_returns (rx r) (ry r) (rw r) (rh r) _ Hin) as [b ->].
  destruct b; [eexists; split; [done|]; by split|].
  destruct (carveRoom_returns (rx r) (ry r) (rw r) (rh r) _ Hin)
    as (g' & Hcarve & Hg).
  rewrite Hcarve. eexists. split; [done|]. split; simpl.
  - intros y. rewrite <- Hrows. symmetry. apply Hg.
  - intros x y Hxy. apply (carveRoom_iff _ _ _ _ _ _ Hcarve) in Hxy as [?|Hxy];
      [by apply Hfloor|].
    eapply roomRect_interior; [exact Hr|]. by destruct r.
  - intros r' [?| ->%list_elem_of_singleton]%elem_of_app; [by apply Hrects|done].
Qed.

Lemma placeRooms_returns maxRooms st :
  genInv width height roomMin roomMax st →
  ∃ st', placeRooms rand width height maxRooms roomMin roomMax st = Some st' ∧
         genInv width height roomMin roomMax st'.
Proof.
  intros Hst. unfold placeRooms. apply forEach_returns; [done|].
  intros _ t _. apply placeRoom_returns.
Qed.

(** The centers of the carved rooms are interior Floor cells. *)
Lemma centers_interior st c :
  placedInv st → genInv width height roomMin roomMax st →
  c ∈ g_rooms st →
  floorAt (g_grid st) (cx c) (cy c) ∧ interior width height (cx c) (cy c).
Proof.
  intros [Hc Hf _] [_ Hfloor Hrects] Hin. rewrite Hc in Hin.
  apply list_elem_of_fmap in Hin as (r & -> & Hr).
  assert (floorAt (g_grid st) (cx (centerOf r)) (cy (centerOf r))) as Hfl.
  { eapply Hf; [done|]. apply centerOf_inRect. by apply Hrects. }
  split; [done|]. by apply Hfloor.
Qed.

(** A corridor between two interior centers is carved without leaving the
    interior. *)
Lemma connectRooms_returns i st :
  genInv width height roomMin roomMax st →
  (∀ c, c ∈ g_rooms st → interior width height (cx c) (cy c)) →
  (1 ≤ i < length (g_rooms st))%nat →
  ∃ st', connectRooms rand i st = Some st' ∧
         genInv width height roomMin roomMax st'.
Proof.
  intros [Hrows Hfloor Hrects] Hcenters Hi. unfold connectRooms.
  destruct (lookup_lt_is_Some_2 (g_rooms st) (i - 1)) as [c1 H1]; [lia|].
  destruct (lookup_lt_is_Some_2 (g_rooms st) i) as [c2 H2]; [lia|].
  rewrite H1, H2. cbv zeta.
  pose proof (Hcenters c1 (list_elem_of_lookup_2 _ _ _ H1)) as I1.
  pose proof (Hcenters c2 (list_elem_of_lookup_2 _ _ _ H2)) as I2.
  unfold interior in I1, I2.
  assert (∀ g, grows (g_grid st) g → ∀ y, is_Some (g !! y) ↔ 0 ≤ y < height)
    as Hkeep.
  { intros g Hg y. rewrite <- Hrows. symmetry. apply Hg. }
  destruct (Qlt_le_dec (rand (g_drawn st)) (1 # 2)).
  - destruct (carveH_returns (cy c1) (cx c1) (cx c2) (g_grid st))
      as (g1 & Hh & Hg1); [apply Hrows; lia|].
    destruct (carveV_returns (cx c2) (cy c1) (cy c2) g1) as (g2 & Hv & Hg2).
    { intros y Hy. apply (Hkeep g1 Hg1). lia. }
    rewrite Hh, Hv. eexists. split; [done|]. split; simpl.
    + apply Hkeep. by eapply grows_trans.
    + intros x y Hxy.
      apply (carveV_iff _ _ _ _ _ Hv) in Hxy as [Hxy|[-> ?]];
        [|unfold interior; lia].
      apply (carveH_iff _ _ _ _ _ Hh) in Hxy as [Hxy|[-> ?]];
        [by apply Hfloor|unfold interior; lia].
    + done.
  - destruct (carveV_returns (cx c1) (cy c1) (cy c2) (g_grid st))
      as (g1 & Hv & Hg1); [intros y Hy; apply Hrows; lia|].
    destruct (carveH_returns (cy c2) (cx c1) (cx c2) g1) as (g2 & Hh & Hg2).
    { apply (Hkeep g1 Hg1). lia. }
    rewrite Hv, Hh. eexists. split; [done|]. split; simpl.
    + apply Hkeep. by eapply grows_trans.
    + intros x y Hxy.
      apply (carveH_iff _ _ _ _ _ Hh) in Hxy as [Hxy|[-> ?]];
        [|unfold interior; lia].
      apply (carveV_iff _ _ _ _ _ Hv) in Hxy as [Hxy|[-> ?]];
        [by apply Hfloor|unfold interior; lia].
    + done.
Qed.

Lemma connectAll_returns st :
  placedInv st → genInv width height roomMin roomMax st →
  ∃ st', connectAll rand st = Some st' ∧
         genInv width height roomMin roomMax st'.
Proof.
  intros Hp Hg. unfold connectAll.
  destruct (decide (1 < length (g_rooms st))%nat); [|eauto].
  destruct (forEach_returns
              (λ t, genInv width height roomMin roomMax t ∧
                    g_rooms t = g_rooms st)
              (seq 1 (length (g_rooms st) - 1)) (connectRooms rand) st)
    as (st' & Hrun & Hst' & _); [done| |eauto].
  intros i t Hi%elem_of_seq [Ht Hr].
  destruct (connectRooms_returns i t Ht) as (t' & Hc & Ht').
  - rewrite Hr. intros c Hc. by eapply centers_interior.
  - rewrite Hr. lia.
  - exists t'. split; [done|]. split; [done|].
    destruct (connectRooms_spec _ _ _ _ Hc) as ((-> & _) & _). done.
Qed.

(** With values of [Math.random] in [0, 1) and rooms that fit,
    the run of the generator returns. *)
Lemma generateRun_returns maxRooms k :
  ∃ st, generateRun rand width height maxRooms roomMin roomMax k = Some st ∧
        placedInv st ∧ genInv width height roomMin roomMax st.
Proof.
  unfold generateRun.
  destruct (placeRooms_returns maxRooms (mkGen (initGrid width height) [] [] k))
    as (st0 & Hplace & Hg0); [apply genInv_init|].
  rewrite Hplace.
  pose proof (placeRooms_inv _ _ _ _ _ _ _ _ (placedInv_init _ _ _) Hplace) as Hp0.
  destruct (connectAll_returns st0 Hp0 Hg0) as (st & Hconn & Hg).
  exists st. split; [done|]. split; [|done].
  pose proof (generateRun_inv rand width height maxRooms roomMin roomMax k st)
    as Hinv.
  unfold generateRun in Hinv. rewrite Hplace in Hinv. by apply Hinv.
Qed.

End Fitting.

Lemma unitRand_randA : unitRand randA.
Proof. intros i. unfold randA. destruct (i <? 24)%nat; split; by compute. Qed.

Lemma unitRand_randB : unitRand randB.
Proof.
  intros i. unfold randB.
  do 8 (destruct i as [|i]; [split; by compute|]). split; by compute.
Qed.

Lemma roomsFit_constants :
  roomsFit DUNGEON_WIDTH DUNGEON_HEIGHT ROOM_MIN_SIZE ROOM_MAX_SIZE.
Proof. by compute. Qed.

(** With values of [Math.random] in [0, 1) and room sizes that leave a
    border ([1 <= roomMin <= roomMax], [roomMax + 3 <= width, height]),
    [generateDungeon] never throws: every row it reads or writes exists. *)
Theorem generateDungeon_returns rand width height maxRooms roomMin roomMax k :
  unitRand rand →
  roomsFit width height roomMin roomMax →
  ∃ d k', generateDungeon rand width height maxRooms roomMin roomMax k
            = Some (d, k') ∧
          ∀ y, is_Some (grid d !! y) ↔ 0 ≤ y < height.
Proof.
  intros Hunit Hfit.
  destruct (generateRun_returns rand width height roomMin roomMax Hunit Hfit
              maxRooms k) as (st & Hrun & _ & [Hrows _ _]).
  unfold generateDungeon. rewrite Hrun. eauto.
Qed.

Lemma generateDungeon_returns_witness :
  ∃ d k', generateDungeon randB 30 30 6 3 6 0 = Some (d, k') ∧
          ∀ y, is_Some (grid d !! y) ↔ 0 ≤ y < 30.
Proof.
  apply (generateDungeon_returns randB 30 30 6 3 6 0 unitRand_randB).
  unfold roomsFit. lia.
Defined.

(** No cell of the border of the grid, and no cell outside of it, is ever
    Floor in the result: rooms and corridors stay in the interior. *)
Theorem floor_cells_interior
  rand width height maxRooms roomMin roomMax k d k' x y :
  unitRand rand →
  roomsFit width height roomMin roomMax →
  generateDungeon rand width height maxRooms roomMin roomMax k = Some (d, k') →
  isFloor (grid d) x y = true →
  1 ≤ x ≤ width - 2 ∧ 1 ≤ y ≤ height - 2.
Proof.
  intros Hunit Hfit Hgen Hfloor.
  destruct (generateRun_returns rand width height roomMin roomMax Hunit Hfit
              maxRooms k) as (st & Hrun & _ & [_ Hin _]).
  unfold generateDungeon in Hgen. rewrite Hrun in Hgen. simplify_eq.
  by apply Hin.
Qed.

Lemma floor_cells_interior_witness :
  ∃ d k', generateDungeon randB 30 30 6 3 6 0 = Some (d, k') ∧
          isFloor (grid d) 23 15 = true ∧
          1 ≤ 23 ≤ 30 - 2 ∧ 1 ≤ 15 ≤ 30 - 2.
Proof.
  assert (is_Some (generateDungeon randB 30 30 6 3 6 0)) as [[d k'] Hgen].
  { apply (bool_decide_unpack _). vm_compute. reflexivity. }
  assert ((λ r, isFloor (grid r.1) 23 15) <$> generateDungeon randB 30 30 6 3 6 0
          = Some true) as Hc by (vm_compute; reflexivity).
  rewrite Hgen in Hc. injection Hc as Hc.
  exists d, k'. split; [exact Hgen|]. split; [exact Hc|].
  apply (floor_cells_interior randB 30 30 6 3 6 0 d k' 23 15 unitRand_randB);
    [unfold roomsFit; lia|exact Hgen|exact Hc].
Defined.

(** Every room center returned is a Floor cell of the returned grid, in the
    interior. *)
Theorem room_centers_floor
  rand width height maxRooms roomMin roomMax k d k' c :
  unitRand rand →
  roomsFit width height roomMin roomMax →
  generateDungeon rand width height maxRooms roomMin roomMax k = Some (d, k') →
  c ∈ rooms d →
  isFloor (grid d) (cx c) (cy c) = true ∧
  1 ≤ cx c ≤ width - 2 ∧ 1 ≤ cy c ≤ height - 2.
Proof.
  intros Hunit Hfit Hgen Hc.
  destruct (generateRun_returns rand width height roomMin roomMax Hunit Hfit
              maxRooms k) as (st & Hrun & Hp & Hg).
  unfold generateDungeon in Hgen. rewrite Hrun in Hgen. simplify_eq.
  by apply (centers_interior width height roomMin roomMax Hfit st c).
Qed.

Lemma room_centers_floor_witness :
  ∃ d k', generateDungeon randB 30 30 6 3 6 0 = Some (d, k') ∧
          mkCenter 11 11 ∈ rooms d ∧
          isFloor (grid d) 11 11 = true.
Proof.
  assert (is_Some (generateDungeon randB 30 30 6 3 6 0)) as [[d k'] Hgen].
  { apply (bool_decide_unpack _). vm_compute. reflexivity. }
  assert ((λ r, rooms r.1) <$> generateDungeon randB 30 30 6 3 6 0
          = Some [mkCenter 2 2; mkCenter 23 15; mkCenter 11 11]) as Hc
    by (vm_compute; reflexivity).
  rewrite Hgen in Hc. injection Hc as Hc.
  assert (mkCenter 11 11 ∈ rooms d) as Hin.
  { rewrite Hc. apply list_elem_of_In. simpl. tauto. }
  exists d, k'. split; [exact Hgen|]. split; [exact Hin|].
  apply (room_centers_floor randB 30 30 6 3 6 0 d k' (mkCenter 11 11)
           unitRand_randB); [unfold roomsFit; lia|exact Hgen|exact Hin].
Defined.

(** When at least one room is attempted the first candidate meets a grid
    without Floor cells and is carved: a dungeon that is returned has a
    room. *)
Theorem generateDungeon_has_a_room
  rand width height maxRooms roomMin roomMax k d k' :
  1 ≤ maxRooms →
  generateDungeon rand width height maxRooms roomMin roomMax k = Some (d, k') →
  rooms d ≠ [].
Proof.
  intros Hmax Hgen. unfold generateDungeon, generateRun in Hgen.
  destruct (placeRooms _ _ _ _ _ _ _) as [st0|] eqn:Hplace; [|done].
  destruct (connectAll rand st0) as [st|] eqn:Hconn; [|done].
  simplify_eq. simpl.
  destruct (connectAll_spec _ _ _ Hconn) as [(-> & _) _].
  by eapply placeRooms_first.
Qed.

Lemma generateDungeon_has_a_room_witness :
  ∃ d k', generateDungeon randA 30 30 6 3 6 0 = Some (d, k') ∧ rooms d ≠ [].
Proof.
  assert (is_Some (generateDungeon randA 30 30 6 3 6 0)) as [[d k'] Hgen].
  { apply (bool_decide_unpack _). vm_compute. reflexivity. }
  exists d, k'. split; [exact Hgen|].
  apply (generateDungeon_has_a_room randA 30 30 6 3 6 0 d k'); [lia|exact Hgen].
Defined.

(** There is no retry: each of the [maxRooms] attempts takes four values of
    [Math.random], carved or not, and each corridor one more.  So with
    [maxRooms] at least 1 between 1 and [maxRooms] rooms are returned, after
    [4 * maxRooms + (rooms - 1)] draws; with no attempt to make no room is
    returned and nothing is drawn. *)
Theorem generateDungeon_counts
  rand width height maxRooms roomMin roomMax k d k' :
  generateDungeon rand width height maxRooms roomMin roomMax k = Some (d, k') →
  (maxRooms ≤ 0 → rooms d = [] ∧ k' = k) ∧
  (1 ≤ maxRooms →
     1 ≤ Z.of_nat (length (rooms d)) ≤ maxRooms ∧
     Z.of_nat k'
       = Z.of_nat k + 4 * maxRooms + (Z.of_nat (length (rooms d)) - 1)).
Proof.
  intros Hgen. unfold generateDungeon, generateRun in Hgen.
  destruct (placeRooms _ _ _ _ _ _ _) as [st0|] eqn:Hplace; [|done].
  destruct (connectAll rand st0) as [st|] eqn:Hconn; [|done].
  simplify_eq. simpl.
  destruct (connectAll_spec _ _ _ Hconn) as [(Hr & _) _].
  apply connectAll_drawn in Hconn.
  assert (1 ≤ maxRooms → g_rooms st0 ≠ []) as Hfirst.
  { intros Hmax. by eapply placeRooms_first. }
  unfold placeRooms in Hplace.
  pose proof (placeLoop_rooms_length _ _ _ _ _ _ _ _ Hplace) as Hlen.
  apply placeLoop_drawn in Hplace. simpl in Hlen, Hplace.
  unfold range in *. rewrite length_seqZ in *.
  rewrite Hr, Hconn, Hplace. split.
  - intros Hmax. replace (Z.to_nat (maxRooms - 0)) with 0%nat in * by lia.
    split; [|lia]. apply nil_length_inv. lia.
  - intros Hmax. specialize (Hfirst Hmax).
    assert (length (g_rooms st0) ≠ 0%nat) as Hpos.
    { intros H0. by apply nil_length_inv in H0. }
    lia.
Qed.

(** The run of [randB] attempts six rooms, carves three and two corridors,
    and has drawn 4 * 6 + 2 = 26 values; a run with no attempt draws
    nothing. *)
Lemma generateDungeon_counts_witness :
  ∃ d k' d0 k0,
    generateDungeon randB 30 30 6 3 6 0 = Some (d, k') ∧
    length (rooms d) = 3%nat ∧ k' = 26%nat ∧
    generateDungeon randB 30 30 0 3 6 5 = Some (d0, k0) ∧
    rooms d0 = [] ∧ k0 = 5%nat.
Proof.
  assert (is_Some (generateDungeon randB 30 30 6 3 6 0)) as [[d k'] Hgen].
  { apply (bool_decide_unpack _). vm_compute. reflexivity. }
  assert (is_Some (generateDungeon randB 30 30 0 3 6 5)) as [[d0 k0] Hgen0].
  { apply (bool_decide_unpack _). vm_compute. reflexivity. }
  assert ((λ r, length (rooms r.1)) <$> generateDungeon randB 30 30 6 3 6 0
          = Some 3%nat) as Hc by (vm_compute; reflexivity).
  rewrite Hgen in Hc. simpl in Hc. injection Hc as Hc.
  destruct (generateDungeon_counts randB 30 30 6 3 6 0 d k' Hgen) as [_ Hsome].
  destruct (generateDungeon_counts randB 30 30 0 3 6 5 d0 k0 Hgen0) as [Hnone _].
  destruct Hsome as [_ Hdraws]; [lia|].
  destruct Hnone as [Hr0 Hk0]; [lia|].
  exists d, k', d0, k0. split; [exact Hgen|]. split; [exact Hc|].
  split; [lia|]. split; [exact Hgen0|]. split; [exact Hr0|exact Hk0].
Defined.

(** ** The dungeon is connected *)

Lemma connected_grows g g' a b : grows g g' → connected g a b → connected g' a b.
Proof.
  intros [Hg _]. induction 1 as [a Ha|a m b Ha Hadj _ IH].
  - constructor. by apply Hg.
  - eapply connected_step; eauto.
Qed.

(** The cells of a rectangle of Floor cells are connected. *)
Lemma rect_connected g r a b :
  (∀ xx yy, inRect r xx yy → floorAt g xx yy) →
  inRect r a.1 a.2 → inRect r b.1 b.2 → connected g a b.
Proof.
  destruct a as [ax ay], b as [bx by']. simpl. intros Hfloor Ha Hb.
  apply (connected_trans _ _ (bx, ay)).
  - apply connected_row. intros x Hx. apply Hfloor. unfold inRect in *. lia.
  - apply connected_column. intros y Hy. apply Hfloor. unfold inRect in *. lia.
Qed.

(** A cell of a rectangle shows that its center is one of its cells. *)
Lemma centerOf_inRect_of_cell r xx yy :
  inRect r xx yy → inRect r (cx (centerOf r)) (cy (centerOf r)).
Proof.
  unfold inRect, centerOf. cbn [cx cy]. rewrite !center_value. intros [Hx Hy].
  pose proof (Z.div_pos (rw r) 2). pose proof (Z.div_lt (rw r) 2).
  pose proof (Z.div_pos (rh r) 2). pose proof (Z.div_lt (rh r) 2). lia.
Qed.

Section Reach.
Variable rand : nat → Q.
Variables width height roomMin roomMax : Z.

Lemma placeRoom_reaches st st' :
  floorReaches st →
  placeRoom rand width height roomMin roomMax st = Some st' →
  floorReaches st'.
Proof.
  intros Hreach Hrun.
  destruct (placeRoom_cases _ _ _ _ _ _ _ Hrun)
    as [_ [(Hg & Hr & _)|(_ & Hcarve & Hr & _)]].
  - unfold floorReaches. by rewrite Hg, Hr.
  - destruct (carveRoom_spec _ _ _ _ _ _ Hcarve) as [Hgrow Hnew].
    set (r := candidate rand width height roomMin roomMax (g_drawn st)) in *.
    intros x y Hxy.
    apply (carveRoom_iff _ _ _ _ _ _ Hcarve) in Hxy as [Hold|Hin].
    + destruct (Hreach x y Hold) as (c & Hc & Hpath).
      exists c. rewrite Hr. split; [apply elem_of_app; by left|].
      by eapply connected_grows.
    + exists (centerOf r). rewrite Hr.
      split; [apply elem_of_app; right; by apply list_elem_of_singleton|].
      assert (inRect r x y) as Hin' by (by destruct r).
      apply (rect_connected _ r); simpl; [|done|].
      * intros xx yy Hc. apply Hnew. by destruct r.
      * by eapply centerOf_inRect_of_cell.
Qed.

Lemma connectRooms_reaches i st st' :
  floorReaches st → connectRooms rand i st = Some st' → floorReaches st'.
Proof.
  intros Hreach Hrun.
  destruct (connectRooms_spec _ _ _ _ Hrun) as ((Hr & _ & Hgrow) & _ & _).
  unfold connectRooms in Hrun.
  destruct (g_rooms st !! (i - 1)%nat) as [c1|] eqn:H1; [|done].
  destruct (g_rooms st !! i) as [c2|] eqn:H2; [|done].
  cbv zeta in Hrun.
  assert (c1 ∈ g_rooms st') as Hc1
    by (rewrite Hr; by eapply list_elem_of_lookup_2).
  assert (c2 ∈ g_rooms st') as Hc2
    by (rewrite Hr; by eapply list_elem_of_lookup_2).
  assert (∀ x y, floorAt (g_grid st) x y →
            ∃ c, c ∈ g_rooms st' ∧ connected (g_grid st') (x, y) (cx c, cy c))
    as Hold.
  { intros x y Hxy. destruct (Hreach x y Hxy) as (c & Hc & Hpath).
    exists c. rewrite Hr. split; [done|]. by eapply connected_grows. }
  destruct (Qlt_le_dec (rand (g_drawn st)) (1 # 2)).
  - destruct (carveH (cy c1) (cx c1) (cx c2) (g_grid st)) as [g1|] eqn:Hh;
      [|done].
    destruct (carveV (cx c2) (cy c1) (cy c2) g1) as [g2|] eqn:Hv; [|done].
    simplify_eq. simpl in *.
    destruct (carveH_spec _ _ _ _ _ Hh) as [Hg1 Hrow].
    destruct (carveV_spec _ _ _ _ _ Hv) as [Hg2 Hcol].
    intros x y Hxy.
    apply (carveV_iff _ _ _ _ _ Hv) in Hxy as [Hxy|[-> Hy]].
    + apply (carveH_iff _ _ _ _ _ Hh) in Hxy as [Hxy|[-> Hx]];
        [by apply Hold|].
      exists c1. split; [done|]. apply connected_row.
      intros x' Hx'. eapply floorAt_grows; [exact Hg2|]. apply Hrow. lia.
    + exists c2. split; [done|]. apply connected_column.
      intros y' Hy'. apply Hcol. lia.
  - destruct (carveV (cx c1) (cy c1) (cy c2) (g_grid st)) as [g1|] eqn:Hv;
      [|done].
    destruct (carveH (cy c2) (cx c1) (cx c2) g1) as [g2|] eqn:Hh; [|done].
    simplify_eq. simpl in *.
    destruct (carveV_spec _ _ _ _ _ Hv) as [Hg1 Hcol].
    destruct (carveH_spec _ _ _ _ _ Hh) as [Hg2 Hrow].
    intros x y Hxy.
    apply (carveH_iff _ _ _ _ _ Hh) in Hxy as [Hxy|[-> Hx]].
    + apply (carveV_iff _ _ _ _ _ Hv) in Hxy as [Hxy|[-> Hy]];
        [by apply Hold|].
      exists c1. split; [done|]. apply connected_column.
      intros y' Hy'. eapply floorAt_grows; [exact Hg2|]. apply Hcol. lia.
    + exists c2. split; [done|]. apply connected_row.
      intros x' Hx'. apply Hrow. lia.
Qed.

Lemma generateRun_reaches maxRooms k st :
  generateRun rand width height maxRooms roomMin roomMax k = Some st →
  floorReaches st.
Proof.
  unfold generateRun, placeRooms, connectAll. intros Hrun.
  destruct (forEach (range 0 maxRooms) _ _) as [st0|] eqn:Hplace; [|done].
  assert (floorReaches st0) as H0.
  { revert Hplace. apply forEach_inv.
    - intros x y H. unfold floorAt in H. simpl in H.
      by rewrite initGrid_wall in H.
    - intros _ t t' _. apply placeRoom_reaches. }
  destruct (decide (1 < length (g_rooms st0))%nat); [|by simplify_eq].
  revert Hrun. apply forEach_inv; [done|].
  intros i t t' _. apply connectRooms_reaches.
Qed.

(** The centers of any two rooms are connected, along the chain of
    corridors between them. *)
Lemma centers_chain st (i n : nat) c1 c2 :
  (∀ j, (1 ≤ j < length (g_rooms st))%nat → joined j st) →
  g_rooms st !! i = Some c1 → g_rooms st !! (i + S n)%nat = Some c2 →
  connected (g_grid st) (cx c1, cy c1) (cx c2, cy c2).
Proof.
  intros Hj. revert c2. induction n as [|n IH]; intros c2 H1 H2.
  - destruct (Hj (i + 1)%nat) as (c1' & c2' & H1' & H2' & Hc).
    { apply lookup_lt_Some in H2. lia. }
    replace (i + 1 - 1)%nat with i in H1' by lia.
    replace (i + 1)%nat with (i + 1)%nat in H2' by lia. simplify_eq.
    by apply corridor_connected.
  - destruct (lookup_lt_is_Some_2 (g_rooms st) (i + S n)) as [cm Hm].
    { apply lookup_lt_Some in H2. lia. }
    apply (connected_trans _ _ (cx cm, cy cm)); [by apply IH|].
    destruct (Hj (i + S (S n))%nat) as (c1' & c2' & H1' & H2' & Hc).
    { apply lookup_lt_Some in H2. lia. }
    replace (i + S (S n) - 1)%nat with (i + S n)%nat in H1' by lia.
    simplify_eq. by apply corridor_connected.
Qed.

End Reach.

(** The player can always walk to the enemy: in every dungeon returned, the
    centers of any two different rooms, the first and the last in
    particular, are joined by a path of Floor cells. *)
Theorem all_rooms_connected
  rand width height maxRooms roomMin roomMax k d k' (i j : nat) c1 c2 :
  generateDungeon rand width height maxRooms roomMin roomMax k = Some (d, k') →
  i ≠ j →
  rooms d !! i = Some c1 →
  rooms d !! j = Some c2 →
  pathBetween (grid d) (cx c1, cy c1) (cx c2, cy c2).
Proof.
  unfold generateDungeon. intros Hgen Hij H1 H2.
  destruct (generateRun _ _ _ _ _ _ _) as [st|] eqn:Hrun; [|done].
  simplify_eq. simpl in *.
  destruct (generateRun_inv _ _ _ _ _ _ _ _ Hrun) as [_ Hj].
  apply connected_path.
  destruct (decide (i < j)%nat).
  - replace j with (i + S (j - i - 1))%nat in H2 by lia.
    by eapply centers_chain.
  - apply connected_sym.
    replace i with (j + S (i - j - 1))%nat in H1 by lia.
    by eapply centers_chain.
Qed.

Lemma all_rooms_connected_witness :
  ∃ d k', generateDungeon randB 30 30 6 3 6 0 = Some (d, k') ∧
          pathBetween (grid d) (11, 11) (2, 2).
Proof.
  assert (is_Some (generateDungeon randB 30 30 6 3 6 0)) as [[d k'] Hgen].
  { apply (bool_decide_unpack _). vm_compute. reflexivity. }
  assert ((λ r, rooms r.1) <$> generateDungeon randB 30 30 6 3 6 0
          = Some [mkCenter 2 2; mkCenter 23 15; mkCenter 11 11]) as Hc
    by (vm_compute; reflexivity).
  rewrite Hgen in Hc. injection Hc as Hc.
  exists d, k'. split; [exact Hgen|].
  apply (all_rooms_connected randB 30 30 6 3 6 0 d k' 2 0
           (mkCenter 11 11) (mkCenter 2 2) Hgen);
    [lia|by rewrite Hc..].
Defined.

(** The dungeon is connected: any two Floor cells of a returned grid are
    joined by a path of Floor cells.  Every cell of a room reaches the
    center of the room, every cell of a corridor the center at one of its
    ends, and the centers reach each other. *)
Theorem floor_cells_connected
  rand width height maxRooms roomMin roomMax k d k' (a b : Z * Z) :
  generateDungeon rand width height maxRooms roomMin roomMax k = Some (d, k') →
  isFloor (grid d) a.1 a.2 = true →
  isFloor (grid d) b.1 b.2 = true →
  pathBetween (grid d) a b.
Proof.
  intros Hgen Ha Hb. pose proof Hgen as Hgen'. unfold generateDungeon in Hgen'.
  destruct (generateRun _ _ _ _ _ _ _) as [st|] eqn:Hrun; [|done].
  simplify_eq. simpl in *.
  pose proof (generateRun_reaches _ _ _ _ _ _ _ _ Hrun) as Hreach.
  destruct a as [ax ay], b as [bx by']. simpl in *.
  destruct (Hreach ax ay Ha) as (ca & [ia Hia]%list_elem_of_lookup_1 & Hpa).
  destruct (Hreach bx by' Hb) as (cb & [ib Hib]%list_elem_of_lookup_1 & Hpb).
  apply connected_path.
  apply (connected_trans _ _ (cx ca, cy ca)); [done|].
  apply connected_sym in Hpb.
  destruct (decide (ia = ib)) as [->|Hne]; [by simplify_eq|].
  apply (connected_trans _ _ (cx cb, cy cb)); [|done].
  destruct (generateRun_inv _ _ _ _ _ _ _ _ Hrun) as [_ Hj].
  destruct (decide (ia < ib)%nat).
  - replace ib with (ia + S (ib - ia - 1))%nat in Hib by lia.
    by eapply centers_chain.
  - apply connected_sym.
    replace ia with (ib + S (ia - ib - 1))%nat in Hia by lia.
    by eapply centers_chain.
Qed.

Lemma floor_cells_connected_witness :
  ∃ d k', generateDungeon randB 30 30 6 3 6 0 = Some (d, k') ∧
          pathBetween (grid d) (1, 1) (25, 17).
Proof.
  assert (is_Some (generateDungeon randB 30 30 6 3 6 0)) as [[d k'] Hgen].
  { apply (bool_decide_unpack _). vm_compute. reflexivity. }
  assert ((λ r, (isFloor (grid r.1) 1 1, isFloor (grid r.1) 25 17))
            <$> generateDungeon randB 30 30 6 3 6 0 = Some (true, true)) as Hc
    by (vm_compute; reflexivity).
  rewrite Hgen in Hc. injection Hc as Ha Hb.
  exists d, k'. split; [exact Hgen|].
  apply (floor_cells_connected randB 30 30 6 3 6 0 d k' (1, 1) (25, 17) Hgen);
    [exact Ha|exact Hb].
Defined.

(** ** The session *)

Lemma cellOf_inject_Z (z : Z) : cellOf (inject_Z z) = z.
Proof.
  unfold cellOf, Qfloor, Qplus, inject_Z. simpl.
  change (Z.pos (1 * 2)) with 2. change (1 * 1) with 1.
  rewrite Z.div_add_l by lia. change (1 `div` 2) with 0. lia.
Qed.

(** The two axis steps keep an actor on the Floor. *)
Lemma two_axis_steps_onFloor (g : Grid) (p : Vec) (bx bz : bool) (mx mz : Q) :
  onFloor g p →
  let p1 :=
    if bx then
      if isFloor g (cellOf (vx p + mx)) (cellOf (vz p))
      then mkVec (vx p + mx) (vz p) else p
    else p in
  let p2 :=
    if bz then
      if isFloor g (cellOf (vx p1)) (cellOf (vz p1 + mz))
      then mkVec (vx p1) (vz p1 + mz) else p1
    else p1 in
  onFloor g p2.
Proof.
  intros Hp. cbv zeta.
  assert (onFloor g (if bx then
            if isFloor g (cellOf (vx p + mx)) (cellOf (vz p))
            then mkVec (vx p + mx) (vz p) else p else p)) as H1.
  { destruct bx; [|done].
    by destruct (isFloor g (cellOf (vx p + mx)) (cellOf (vz p))) eqn:E. }
  destruct bz; [|done].
  match goal with
  | |- context [if isFloor g ?x ?z then _ else _] =>
      by destruct (isFloor g x z) eqn:E
  end.
Qed.

Lemma movePlayer_onFloor sqrt deltaTime g k p :
  onFloor g p → onFloor g (movePlayer sqrt deltaTime g k p).
Proof.
  intros Hp. unfold movePlayer.
  destruct (playerDirection sqrt k) as [moveX moveZ].
  by apply (two_axis_steps_onFloor g p (negb (Qeq_bool moveX 0))
              (negb (Qeq_bool moveZ 0))).
Qed.

Lemma moveEnemy_onFloor sqrt deltaTime g p e :
  onFloor g e → onFloor g (moveEnemy sqrt deltaTime g p e).
Proof.
  intros He. unfold moveEnemy. cbv zeta.
  destruct (Qlt_le_dec 0 _); [|done].
  by apply (two_axis_steps_onFloor g e).
Qed.

(** What a frame does to the fields of the session other than the
    positions, the player's health and the attack time. *)
Lemma animate_frame sqrt deltaTime now s s' :
  animate sqrt deltaTime now s = Some s' →
  dungeonGrid s' = dungeonGrid s ∧ builtGrid s' = builtGrid s ∧
  enemyHealth s' = enemyHealth s ∧ keys s' = keys s ∧ drawn s' = drawn s ∧
  (is_Some (playerMesh s) → is_Some (playerMesh s')) ∧
  (enemyMesh s = None ↔ enemyMesh s' = None).
Proof.
  unfold animate. intros Hrun.
  destruct (decide (0 < playerHealth s)); [|by simplify_eq].
  match type of Hrun with
  | match ?m with _ => _ end = _ => destruct m as [s2|] eqn:Hs2; [|done]
  end.
  destruct (enemyAttack_frame _ _ _ Hrun) as (-> & -> & -> & -> & -> & -> & ->).
  clear Hrun.
  destruct (playerMesh s) as [p|] eqn:Hpm; simpl in Hs2;
    destruct (enemyMesh s) as [e|] eqn:Hem; rewrite ?Hpm in Hs2;
    simplify_eq; simpl; rewrite ?Hpm, ?Hem; repeat split; eauto;
    try done; by intros [? ?].
Qed.

(** A frame keeps both actors on the Floor. *)
Lemma animate_onFloor sqrt deltaTime now s s' :
  animate sqrt deltaTime now s = Some s' →
  actorsOnFloor s → actorsOnFloor s'.
Proof.
  unfold animate. intros Hrun [Hp He].
  destruct (decide (0 < playerHealth s)); [|by simplify_eq].
  match type of Hrun with
  | match ?m with _ => _ end = _ => destruct m as [s2|] eqn:Hs2; [|done]
  end.
  destruct (enemyAttack_frame _ _ _ Hrun) as (Hg & _ & Hp' & He' & _).
  unfold actorsOnFloor. rewrite Hg, Hp', He'. clear Hrun Hg Hp' He'.
  destruct (playerMesh s) as [p|] eqn:Hpm; simpl in Hs2;
    destruct (enemyMesh s) as [e|] eqn:Hem; rewrite ?Hpm in Hs2;
    simplify_eq; simpl; rewrite ?Hpm, ?Hem; split; intros q Hq; simplify_eq;
    try (apply movePlayer_onFloor; by apply Hp);
    try (apply moveEnemy_onFloor; by apply He).
Qed.

Lemma generateRun_has_a_room rand width height maxRooms roomMin roomMax k st :
  1 ≤ maxRooms →
  generateRun rand width height maxRooms roomMin roomMax k = Some st →
  g_rooms st ≠ [].
Proof.
  intros Hmax Hrun. unfold generateRun in Hrun.
  destruct (placeRooms _ _ _ _ _ _ _) as [st0|] eqn:Hplace; [|done].
  destruct (connectAll_spec _ _ _ Hrun) as [(-> & _) _].
  by eapply placeRooms_first.
Qed.

Lemma index_first {A} (l : list A) : index l 0 = head l.
Proof. unfold index. simpl. by destruct l. Qed.

Lemma index_last {A} (l : list A) :
  l ≠ [] → index l (Z.of_nat (length l) - 1) = last l.
Proof.
  intros Hne. unfold index.
  destruct (decide (0 ≤ Z.of_nat (length l) - 1)) as [_|Hneg].
  - replace (Z.to_nat (Z.of_nat (length l) - 1)) with (pred (length l)) by lia.
    by rewrite last_lookup.
  - destruct l; [done|]. simpl in Hneg. lia.
Qed.

Section Placing.
Variable rand : nat → Q.
Hypothesis Hunit : unitRand rand.

(** What the generator gives to its two callers. *)
Lemma generated k :
  ∃ d k' c1 c2,
    generateDungeon rand DUNGEON_WIDTH DUNGEON_HEIGHT MAX_ROOMS ROOM_MIN_SIZE
      ROOM_MAX_SIZE k = Some (d, k') ∧
    head (rooms d) = Some c1 ∧ last (rooms d) = Some c2 ∧
    rooms d ≠ [] ∧
    floorAt (grid d) (cx c1) (cy c1) ∧ floorAt (grid d) (cx c2) (cy c2).
Proof.
  destruct (generateRun_returns rand DUNGEON_WIDTH DUNGEON_HEIGHT ROOM_MIN_SIZE
              ROOM_MAX_SIZE Hunit roomsFit_constants MAX_ROOMS k)
    as (st & Hrun & Hp & Hg).
  assert (1 ≤ MAX_ROOMS) as Hmax by (unfold MAX_ROOMS; lia).
  pose proof (generateRun_has_a_room _ _ _ _ _ _ _ _ Hmax Hrun) as Hne.
  unfold generateDungeon. rewrite Hrun.
  destruct (g_rooms st) as [|c1 l] eqn:Hr; [done|].
  destruct (last (c1 :: l)) as [c2|] eqn:Hl.
  2:{ apply last_None in Hl. done. }
  exists (mkDungeon (g_grid st) (g_rooms st)), (g_drawn st), c1, c2. simpl.
  rewrite Hr. simpl. split; [done|]. split; [done|]. split; [done|].
  split; [done|].
  split; apply (centers_interior DUNGEON_WIDTH DUNGEON_HEIGHT ROOM_MIN_SIZE
                  ROOM_MAX_SIZE roomsFit_constants st); try done;
    rewrite Hr; [by left|].
  apply last_Some in Hl as [l' ->]. apply elem_of_app. right. by left.
Qed.

End Placing.

(** What the startup code leaves behind. *)
Lemma startup_spec (rand : nat → Q) :
  unitRand rand →
  ∃ s d k c1 c2,
    startup rand = Some s ∧
    generateDungeon rand DUNGEON_WIDTH DUNGEON_HEIGHT MAX_ROOMS ROOM_MIN_SIZE
      ROOM_MAX_SIZE 0 = Some (d, k) ∧
    dungeonGrid s = grid d ∧
    head (rooms d) = Some c1 ∧ last (rooms d) = Some c2 ∧
    playerMesh s = Some (atCenter c1) ∧ enemyMesh s = Some (atCenter c2) ∧
    onFloor (dungeonGrid s) (atCenter c1) ∧
    onFloor (dungeonGrid s) (atCenter c2) ∧
    playerHealth s = PLAYER_MAX_HEALTH ∧ enemyHealth s = ENEMY_MAX_HEALTH.
Proof.
  intros Hunit.
  destruct (generated rand Hunit 0) as (d & k & c1 & c2 & Hgen & H1 & H2 & Hne & F1 & F2).
  unfold startup. rewrite Hgen. unfold startupWith.
  rewrite index_first, index_last, H1, H2 by done.
  eexists _, d, k, c1, c2. split; [reflexivity|]. simpl.
  unfold onFloor, atCenter. simpl. rewrite !cellOf_inject_Z.
  repeat split; done.
Qed.

(** The actors start alive on the Floor: with values of [Math.random] in
    [0, 1) the startup code returns, the player stands on the center of the
    first room and the enemy on the center of the last, both Floor cells of
    the grid used for collisions, with full health. *)
Theorem spawn_on_floor_at_startup (rand : nat → Q) :
  unitRand rand →
  ∃ s d k c1 c2,
    startup rand = Some s ∧
    generateDungeon rand DUNGEON_WIDTH DUNGEON_HEIGHT MAX_ROOMS ROOM_MIN_SIZE
      ROOM_MAX_SIZE 0 = Some (d, k) ∧
    dungeonGrid s = grid d ∧
    head (rooms d) = Some c1 ∧ last (rooms d) = Some c2 ∧
    playerMesh s = Some (atCenter c1) ∧ enemyMesh s = Some (atCenter c2) ∧
    onFloor (dungeonGrid s) (atCenter c1) ∧
    onFloor (dungeonGrid s) (atCenter c2) ∧
    playerHealth s = PLAYER_MAX_HEALTH ∧ enemyHealth s = ENEMY_MAX_HEALTH.
Proof. apply startup_spec. Qed.

Lemma spawn_on_floor_at_startup_witness :
  ∃ s, startup randA = Some s ∧
       playerMesh s = Some (mkVec 2 2) ∧ onFloor (dungeonGrid s) (mkVec 2 2).
Proof.
  destruct (spawn_on_floor_at_startup randA unitRand_randA)
    as (s & d & k & c1 & c2 & Hs & Hgen & _ & H1 & _ & Hp & _ & Hf & _).
  assert ((λ r, head (rooms r.1)) <$> generateDungeon randA DUNGEON_WIDTH
            DUNGEON_HEIGHT MAX_ROOMS ROOM_MIN_SIZE ROOM_MAX_SIZE 0
          = Some (Some (mkCenter 2 2))) as Hc by (vm_compute; reflexivity).
  rewrite Hgen in Hc. simpl in Hc. rewrite H1 in Hc. injection Hc as ->.
  exists s. split; [exact Hs|]. split; [exact Hp|exact Hf].
Defined.

(** A frame never moves an actor off the Floor: if the rounded positions of
    the actors are Floor cells of the collision grid before a frame, they
    are after it. *)
Theorem frame_keeps_actors_on_floor
  (sqrt : Q → Q) (deltaTime now : Q) (s s' : Session) :
  animate sqrt deltaTime now s = Some s' →
  actorsOnFloor s →
  actorsOnFloor s'.
Proof. apply animate_onFloor. Qed.

Lemma startup_onFloor rand s :
  unitRand rand → startup rand = Some s → actorsOnFloor s.
Proof.
  intros Hunit Hs.
  destruct (startup_spec rand Hunit)
    as (s0 & d & k & c1 & c2 & Hs0 & _ & _ & _ & _ & Hp & He & F1 & F2 & _).
  simplify_eq. split; intros q Hq; by simplify_eq.
Qed.

Lemma playerAttack_returns s : is_Some (playerMesh s) → is_Some (playerAttack s).
Proof.
  intros [p Hp]. unfold playerAttack. rewrite Hp.
  repeat case_match; eauto.
Qed.

Lemma enemyAttack_returns now s :
  is_Some (playerMesh s) → is_Some (enemyAttack now s).
Proof.
  intros [p Hp]. unfold enemyAttack. rewrite Hp.
  repeat case_match; eauto.
Qed.

(** A frame throws only when there is no player. *)
Lemma animate_returns sqrt deltaTime now s :
  is_Some (playerMesh s) → is_Some (animate sqrt deltaTime now s).
Proof.
  intros [p Hp]. unfold animate. rewrite Hp. simpl.
  destruct (decide (0 < playerHealth s)); [|eauto].
  destruct (enemyMesh s); apply enemyAttack_returns; simpl; eauto.
Qed.

(** The player of [sessionA] holds D for a frame of 0.4 s: it moves from
    (2, 2) to (3.2, 2) and the enemy follows from (2, 2) to (2.6, 2), both
    still in the room.  In a second such frame the player's step would end
    in the wall column 4 and is dropped, while the enemy reaches (3.2, 2). *)
Lemma frame_keeps_actors_on_floor_witness :
  ∃ s s' s'',
    sessionA [KeyDown "d"] = Some s ∧
    animate sqrtA (2 # 5) 0 s = Some s' ∧
    animate sqrtA (2 # 5) 0 s' = Some s'' ∧
    playerMesh s = Some (mkVec 2 2) ∧ enemyMesh s = Some (mkVec 2 2) ∧
    playerMesh s' = Some (mkVec (16000000 # 5000000) 2) ∧
    enemyMesh s'
      = Some (mkVec (3900000000000000000000000000
                       # 1500000000000000000000000000) 2) ∧
    playerMesh s'' = Some (mkVec (16000000 # 5000000) 2) ∧
    (λ e, Qeq_bool (vx e) (16 # 5)) <$> enemyMesh s'' = Some true ∧
    isFloor (dungeonGrid s) 4 2 = false ∧
    actorsOnFloor s ∧ actorsOnFloor s' ∧ actorsOnFloor s''.
Proof.
  assert (is_Some (sessionA [KeyDown "d"])) as [s Hs].
  { apply (bool_decide_unpack _). vm_compute. reflexivity. }
  assert (is_Some (sessionA [KeyDown "d"] ≫= animate sqrtA (2 # 5) 0))
    as [s' Hs'].
  { apply (bool_decide_unpack _). vm_compute. reflexivity. }
  assert (is_Some (sessionA [KeyDown "d"; Frame (2 # 5) 0]
                     ≫= animate sqrtA (2 # 5) 0)) as [s'' Hs''].
  { apply (bool_decide_unpack _). vm_compute. reflexivity. }
  assert ((λ s, (playerMesh s, enemyMesh s, isFloor (dungeonGrid s) 2 2,
                 isFloor (dungeonGrid s) 4 2))
            <$> sessionA [KeyDown "d"]
          = Some (Some (mkVec 2 2), Some (mkVec 2 2), true, false)) as Hc
    by (vm_compute; reflexivity).
  assert ((λ s, (playerMesh s, enemyMesh s))
            <$> (sessionA [KeyDown "d"] ≫= animate sqrtA (2 # 5) 0)
          = Some (Some (mkVec (16000000 # 5000000) 2),
                  Some (mkVec (3900000000000000000000000000
                                 # 1500000000000000000000000000) 2))) as Hc'
    by (vm_compute; reflexivity).
  assert ((λ s, (playerMesh s,
                 (λ e, Qeq_bool (vx e) (16 # 5)) <$> enemyMesh s))
            <$> (sessionA [KeyDown "d"; Frame (2 # 5) 0]
                   ≫= animate sqrtA (2 # 5) 0)
          = Some (Some (mkVec (16000000 # 5000000) 2), Some true)) as Hc''
    by (vm_compute; reflexivity).
  rewrite Hs'' in Hc''.
  change (sessionA [KeyDown "d"; Frame (2 # 5) 0])
    with (sessionA [KeyDown "d"] ≫= animate sqrtA (2 # 5) 0) in Hs''.
  rewrite Hs' in Hc', Hs''. rewrite Hs in Hc, Hs'.
  change (animate sqrtA (2 # 5) 0 s = Some s') in Hs'.
  change (animate sqrtA (2 # 5) 0 s' = Some s'') in Hs''.
  injection Hc as Hp He Hf Hw. injection Hc' as Hp' He'.
  injection Hc'' as Hp'' He''.
  assert (actorsOnFloor s) as Hon.
  { split; intros q Hq; [rewrite Hp in Hq|rewrite He in Hq];
      injection Hq as <-; exact Hf. }
  pose proof (frame_keeps_actors_on_floor sqrtA (2 # 5) 0 s s' Hs' Hon) as Hon'.
  pose proof (frame_keeps_actors_on_floor sqrtA (2 # 5) 0 s' s'' Hs'' Hon')
    as Hon''.
  exists s, s', s''. split; [exact Hs|]. split; [exact Hs'|].
  split; [exact Hs''|]. split; [exact Hp|]. split; [exact He|].
  split; [exact Hp'|]. split; [exact He'|]. split; [exact Hp''|].
  split; [exact He''|]. split; [exact Hw|]. split; [exact Hon|].
  split; [exact Hon'|exact Hon''].
Defined.

Section Running.
Variable rand : nat → Q.
Variable sqrt : Q → Q.

Lemma createPlayerAndEnemy_spec c1 c2 s :
  createPlayerAndEnemy (Some c1) c2 s =
  Some (set_enemyHealth ENEMY_MAX_HEALTH
         (set_playerHealth PLAYER_MAX_HEALTH
            (set_enemyMesh (Some (atCenter (default c1 c2)))
               (set_playerMesh (Some (atCenter c1)) s)))).
Proof. unfold createPlayerAndEnemy. by destruct c2. Qed.

(** What a restart leaves behind, whenever it returns. *)
Lemma restartGame_spec s s' :
  restartGame rand s = Some s' →
  ∃ d k c1 c2,
    generateDungeon rand DUNGEON_WIDTH DUNGEON_HEIGHT MAX_ROOMS ROOM_MIN_SIZE
      ROOM_MAX_SIZE (drawn s) = Some (d, k) ∧
    head (rooms d) = Some c1 ∧ last (rooms d) = Some c2 ∧
    s' = mkSession (dungeonGrid s) (grid d) (Some (atCenter c1))
           (Some (atCenter c2)) PLAYER_MAX_HEALTH ENEMY_MAX_HEALTH
           (lastEnemyAttackTime s) (keys s) false k.
Proof.
  unfold restartGame. intros Hrun.
  destruct (generateDungeon _ _ _ _ _ _ _) as [[d k]|] eqn:Hgen; [|done].
  unfold restartWith in Hrun. rewrite index_first in Hrun.
  destruct (head (rooms d)) as [c1|] eqn:H1; [|done].
  assert (rooms d ≠ []) as Hne by (by destruct (rooms d)).
  rewrite index_last in Hrun by done.
  destruct (last (rooms d)) as [c2|] eqn:H2.
  2:{ apply last_None in H2. done. }
  rewrite createPlayerAndEnemy_spec in Hrun. simplify_eq.
  exists d, k, c1, c2. done.
Qed.

Lemma restartGame_returns s : unitRand rand → is_Some (restartGame rand s).
Proof.
  intros Hunit.
  destruct (generated rand Hunit (drawn s))
    as (d & k & c1 & c2 & Hgen & H1 & H2 & Hne & _).
  unfold restartGame, restartWith. rewrite Hgen.
  rewrite index_first, index_last, H1, H2 by done.
  rewrite createPlayerAndEnemy_spec. eauto.
Qed.

Lemma enemyAttack_health now s s' :
  enemyAttack now s = Some s' →
  (playerHealth s' = playerHealth s ∧ gameOverShown s' = gameOverShown s) ∨
  (playerHealth s - ENEMY_DAMAGE ≤ 0 ∧
   playerHealth s' = 0 ∧ gameOverShown s' = true) ∨
  (0 < playerHealth s - ENEMY_DAMAGE ∧
   playerHealth s' = playerHealth s - ENEMY_DAMAGE ∧
   gameOverShown s' = gameOverShown s).
Proof.
  unfold enemyAttack. intros Hrun.
  destruct (enemyMesh s) as [e|]; [|left; by simplify_eq].
  destruct (playerMesh s) as [p|]; [|done].
  cbv zeta in Hrun.
  destruct (Qle_bool (distSq p e) (1 * 1)); [|left; by simplify_eq].
  destruct (Qlt_le_dec _ _); [|left; by simplify_eq].
  right.
  destruct (decide (playerHealth s - ENEMY_DAMAGE ≤ 0)); simplify_eq; simpl;
    [left|right]; repeat split; try done; lia.
Qed.

Lemma enemyAttack_inv now s s' :
  sessionInv s → enemyAttack now s = Some s' → sessionInv s'.
Proof.
  intros [Hp Hh He Hg] Hrun.
  destruct (enemyAttack_frame _ _ _ Hrun) as (_ & _ & Hp' & He' & Heh & _).
  apply enemyAttack_health in Hrun.
  split; rewrite ?Hp', ?He', ?Heh; try done;
    unfold PLAYER_MAX_HEALTH, ENEMY_DAMAGE in *.
  - destruct Hrun as [[-> _]|[(_ & -> & _)|(? & -> & _)]]; lia.
  - destruct Hrun as [[-> ->]|[(_ & -> & ->)|(? & -> & ->)]]; [done|done|].
    rewrite Hg. split; lia.
Qed.

Lemma playerAttack_inv s s' :
  sessionInv s → playerAttack s = Some s' → sessionInv s'.
Proof.
  intros [Hp Hh He Hg] Hrun. unfold playerAttack in Hrun.
  destruct (enemyMesh s) as [e|] eqn:Hem; [|simplify_eq; split; by rewrite ?Hem].
  destruct (decide (enemyHealth s ≤ 0));
    [simplify_eq; split; by rewrite ?Hem|].
  destruct (playerMesh s) as [p|] eqn:Hpm; [|done]. cbv zeta in Hrun.
  destruct (Qle_bool _ _); [|simplify_eq; split; by rewrite ?Hem, ?Hpm].
  destruct (decide (enemyHealth s - 50 ≤ 0)); simplify_eq; split; simpl;
    rewrite ?Hem, ?Hpm; try done.
  - by left.
  - right. split; [eauto|]. destruct He as [[? ?]|[_ ?]]; [done|].
    unfold ENEMY_MAX_HEALTH in *. lia.
Qed.

Lemma animate_inv deltaTime now s s' :
  sessionInv s → animate sqrt deltaTime now s = Some s' → sessionInv s'.
Proof.
  intros Hs Hrun. unfold animate in Hrun.
  destruct (decide (0 < playerHealth s)); [|by simplify_eq].
  match type of Hrun with
  | match ?m with _ => _ end = _ => destruct m as [s2|] eqn:Hs2; [|done]
  end.
  apply (enemyAttack_inv now s2); [|done]. clear Hrun.
  destruct Hs as [[p Hp] Hh He Hg]. rewrite Hp in Hs2. simpl in Hs2.
  destruct (enemyMesh s) as [e|] eqn:Hem; simplify_eq; split; simpl;
    rewrite ?Hem; eauto; try done.
  all: destruct He as [[? _]|[_ ?]]; [done|]; right; eauto.
Qed.

Lemma keys_inv k s : sessionInv s → sessionInv (set_keys k s).
Proof. by intros []. Qed.

Lemma keyup_inv key s : sessionInv s → sessionInv (keyup key s).
Proof. intros Hs. unfold keyup. repeat case_decide; by try apply keys_inv. Qed.

Lemma keydown_inv key s s' :
  sessionInv s → keydown rand key s = Some s' → sessionInv s'.
Proof.
  intros Hs Hrun. unfold keydown in Hrun.
  repeat case_decide; simplify_eq; try (by apply keys_inv); try done.
  - by eapply playerAttack_inv.
  - apply restartGame_spec in Hrun as (d & k & c1 & c2 & _ & _ & _ & ->).
    split; simpl; eauto; try done.
    right. split; [eauto|done].
Qed.

(** Every handler keeps the invariant of the session. *)
Lemma handle_inv ev s s' :
  sessionInv s → handle rand sqrt ev s = Some s' → sessionInv s'.
Proof.
  intros Hs Hrun. destruct ev as [key|key|deltaTime now]; simpl in Hrun.
  - by eapply keydown_inv.
  - simplify_eq. by apply keyup_inv.
  - by eapply animate_inv.
Qed.

Lemma run_inv evs s s' :
  sessionInv s → run rand sqrt evs s = Some s' → sessionInv s'.
Proof.
  revert s; induction evs as [|ev evs IH]; intros s Hs Hrun; simpl in Hrun;
    [by simplify_eq|].
  destruct (handle rand sqrt ev s) as [s1|] eqn:Hstep; [|done].
  eapply IH; [|done]. by eapply handle_inv.
Qed.

Lemma startup_inv s : startup rand = Some s → sessionInv s.
Proof.
  unfold startup, startupWith. intros Hrun.
  destruct (generateDungeon _ _ _ _ _ _ _) as [[d k]|]; [|done].
  rewrite createPlayerAndEnemy_spec in Hrun. simplify_eq.
  split; simpl; eauto; try done. right. split; [eauto|done].
Qed.

(** With values of [Math.random] in [0, 1) no handler throws. *)
Lemma handle_returns ev s :
  unitRand rand → sessionInv s → is_Some (handle rand sqrt ev s).
Proof.
  intros Hunit [Hp _ _ _]. destruct ev as [key|key|deltaTime now]; simpl.
  - unfold keydown. repeat case_decide; eauto.
    + by apply playerAttack_returns.
    + by apply restartGame_returns.
  - eauto.
  - by apply animate_returns.
Qed.

Lemma run_returns evs s :
  unitRand rand → sessionInv s → is_Some (run rand sqrt evs s).
Proof.
  intros Hunit. revert s; induction evs as [|ev evs IH]; intros s Hs; simpl;
    [eauto|].
  destruct (handle_returns ev s Hunit Hs) as [s1 Hstep]. rewrite Hstep.
  apply IH. by eapply handle_inv.
Qed.

(** No handler replaces the grid that the collision checks read. *)
Lemma handle_dungeonGrid ev s s' :
  handle rand sqrt ev s = Some s' → dungeonGrid s' = dungeonGrid s.
Proof.
  intros Hrun. destruct ev as [key|key|deltaTime now]; simpl in Hrun.
  - by destruct (keydown_frame _ _ _ _ Hrun).
  - simplify_eq. by destruct (keyup_frame key s) as (_ & ? & _).
  - by destruct (animate_frame _ _ _ _ _ Hrun).
Qed.

Lemma run_dungeonGrid evs s s' :
  run rand sqrt evs s = Some s' → dungeonGrid s' = dungeonGrid s.
Proof.
  revert s; induction evs as [|ev evs IH]; intros s Hrun; simpl in Hrun;
    [by simplify_eq|].
  destruct (handle rand sqrt ev s) as [s1|] eqn:Hstep; [|done].
  rewrite (IH _ Hrun). by eapply handle_dungeonGrid.
Qed.

Lemma set_keys_onFloor k s : actorsOnFloor s → actorsOnFloor (set_keys k s).
Proof. done. Qed.

Lemma playerAttack_enemy s s' :
  playerAttack s = Some s' →
  enemyMesh s' = enemyMesh s ∨ enemyMesh s' = None.
Proof.
  unfold playerAttack. intros Hrun.
  repeat case_match; simplify_eq; simpl; auto.
Qed.

Lemma playerAttack_onFloor s s' :
  actorsOnFloor s → playerAttack s = Some s' → actorsOnFloor s'.
Proof.
  intros [Hp He] Hrun.
  destruct (playerAttack_frame _ _ Hrun) as (Hg & _ & Hp' & _).
  unfold actorsOnFloor. rewrite Hg, Hp'. split; [done|].
  destruct (playerAttack_enemy _ _ Hrun) as [-> | ->]; [done|].
  intros ? ?. done.
Qed.

(** Without a restart every handler keeps the actors on the Floor. *)
Lemma handle_onFloor ev s s' :
  notRestart ev → actorsOnFloor s → handle rand sqrt ev s = Some s' →
  actorsOnFloor s'.
Proof.
  intros Hev Hs Hrun. destruct ev as [key|key|deltaTime now]; simpl in *.
  - unfold keydown in Hrun.
    repeat case_decide; simplify_eq; try (by apply set_keys_onFloor); try done.
    by eapply playerAttack_onFloor.
  - simplify_eq. unfold keyup.
    repeat case_decide; by try apply set_keys_onFloor.
  - by eapply animate_onFloor.
Qed.

Lemma run_onFloor evs s s' :
  Forall notRestart evs → actorsOnFloor s → run rand sqrt evs s = Some s' →
  actorsOnFloor s'.
Proof.
  intros Hevs. revert s. induction Hevs as [|ev evs Hev _ IH]; intros s Hs Hrun;
    simpl in Hrun; [by simplify_eq|].
  destruct (handle rand sqrt ev s) as [s1|] eqn:Hstep; [|done].
  eapply IH; [|done]. by eapply handle_onFloor.
Qed.

End Running.

(** The grid read by the collision checks is the one built at startup, for
    the whole session: no key and no frame replaces it, a restart
    included. *)
Theorem collision_grid_never_replaced
  (rand : nat → Q) (sqrt : Q → Q) (evs : list Event) (s s' : Session) :
  run rand sqrt evs s = Some s' →
  dungeonGrid s' = dungeonGrid s.
Proof. apply run_dungeonGrid. Qed.

Lemma collision_grid_never_replaced_witness :
  ∃ s0 s, startup randA = Some s0 ∧
          run randA sqrtA (hits 10 ++ [KeyDown "r"]) s0 = Some s ∧
          dungeonGrid s = dungeonGrid s0.
Proof.
  destruct (startup_spec randA unitRand_randA) as (s0 & _ & _ & _ & _ & Hs0 & _).
  destruct (run_returns randA sqrtA (hits 10 ++ [KeyDown "r"]) s0
              unitRand_randA (startup_inv randA s0 Hs0)) as [s Hs].
  exists s0, s. split; [exact Hs0|]. split; [exact Hs|].
  exact (collision_grid_never_replaced randA sqrtA _ s0 s Hs).
Defined.

(** From startup until the first press of R both actors stay on Floor cells
    of the collision grid, whatever keys are pressed and frames run. *)
Theorem actors_on_floor_until_restart
  (rand : nat → Q) (sqrt : Q → Q) (evs : list Event) (s0 s : Session) :
  unitRand rand →
  startup rand = Some s0 →
  Forall notRestart evs →
  run rand sqrt evs s0 = Some s →
  actorsOnFloor s.
Proof.
  intros Hunit Hs0 Hevs Hrun.
  eapply run_onFloor; [exact Hevs| |exact Hrun]. by eapply startup_onFloor.
Qed.

Lemma actors_on_floor_until_restart_witness :
  ∃ s0 s, startup randA = Some s0 ∧
          run randA sqrtA [KeyDown "d"; Frame (2 # 5) 0; KeyDown "s";
                           Frame (1 # 5) 0] s0 = Some s ∧
          actorsOnFloor s.
Proof.
  destruct (startup_spec randA unitRand_randA) as (s0 & _ & _ & _ & _ & Hs0 & _).
  destruct (run_returns randA sqrtA
              [KeyDown "d"; Frame (2 # 5) 0; KeyDown "s"; Frame (1 # 5) 0] s0
              unitRand_randA (startup_inv randA s0 Hs0)) as [s Hs].
  exists s0, s. split; [exact Hs0|]. split; [exact Hs|].
  apply (actors_on_floor_until_restart randA sqrtA
           [KeyDown "d"; Frame (2 # 5) 0; KeyDown "s"; Frame (1 # 5) 0]
           s0 s unitRand_randA Hs0);
    [|exact Hs].
  repeat constructor; simpl; unfold not; intros Hin;
    apply list_elem_of_In in Hin; simpl in Hin; intuition discriminate.
Defined.

(** With values of [Math.random] in [0, 1) the game never throws: the
    startup code returns, and so does every handler on every sequence of
    keys and frames, restarts included. *)
Theorem session_never_throws (rand : nat → Q) (sqrt : Q → Q) :
  unitRand rand →
  ∃ s0, startup rand = Some s0 ∧
        ∀ evs, is_Some (run rand sqrt evs s0).
Proof.
  intros Hunit.
  destruct (startup_spec rand Hunit) as (s0 & _ & _ & _ & _ & Hs0 & _).
  exists s0. split; [done|]. intros evs.
  apply run_returns; [done|]. by apply (startup_inv rand).
Qed.

Lemma session_never_throws_witness :
  ∃ s0, startup randA = Some s0 ∧
        is_Some (run randA sqrtA (hits 10 ++ [KeyDown "r"; KeyDown " "]) s0).
Proof.
  destruct (session_never_throws randA sqrtA unitRand_randA) as (s0 & Hs0 & Hall).
  exists s0. split; [exact Hs0|apply Hall].
Defined.

(** In every state of a session the player exists with health between 0
    and 100, the enemy exists exactly when its health is above 0 (at most
    50), and the game-over text shows exactly when the player's health is
    0. *)
Theorem session_invariant
  (rand : nat → Q) (sqrt : Q → Q) (evs : list Event) (s0 s : Session) :
  startup rand = Some s0 →
  run rand sqrt evs s0 = Some s →
  is_Some (playerMesh s) ∧
  0 ≤ playerHealth s ≤ 100 ∧
  0 ≤ enemyHealth s ≤ 50 ∧
  (enemyMesh s = None ↔ enemyHealth s = 0) ∧
  (gameOverShown s = true ↔ playerHealth s = 0).
Proof.
  intros Hs0 Hrun.
  destruct (run_inv rand sqrt evs s0 s (startup_inv rand s0 Hs0) Hrun)
    as [Hp Hh He Hg].
  unfold PLAYER_MAX_HEALTH, ENEMY_MAX_HEALTH in *.
  split; [done|]. split; [done|].
  destruct He as [[He1 He2]|[[e He1] He2]]; rewrite ?He1.
  - split; [lia|]. split; [done|done].
  - split; [lia|]. split; [|done]. split; [done|lia].
Qed.

Lemma session_invariant_witness :
  ∃ s0 s, startup randA = Some s0 ∧
          run randA sqrtA (hits 10 ++ [KeyDown " "]) s0 = Some s ∧
          (enemyMesh s = None ↔ enemyHealth s = 0) ∧
          (gameOverShown s = true ↔ playerHealth s = 0).
Proof.
  destruct (startup_spec randA unitRand_randA) as (s0 & _ & _ & _ & _ & Hs0 & _).
  destruct (run_returns randA sqrtA (hits 10 ++ [KeyDown " "]) s0
              unitRand_randA (startup_inv randA s0 Hs0)) as [s Hs].
  exists s0, s. split; [exact Hs0|]. split; [exact Hs|].
  exact (proj2 (proj2 (proj2
           (session_invariant randA sqrtA _ s0 s Hs0 Hs)))).
Defined.

Lemma handle_game_over rand sqrt ev s s' :
  playerHealth s ≤ 0 → notRestart ev →
  handle rand sqrt ev s = Some s' →
  playerHealth s' = playerHealth s ∧ playerMesh s' = playerMesh s ∧
  lastEnemyAttackTime s' = lastEnemyAttackTime s ∧
  (enemyMesh s' = enemyMesh s ∨ enemyMesh s' = None).
Proof.
  intros Hover Hev Hrun. destruct ev as [key|key|deltaTime now]; simpl in *.
  - unfold keydown in Hrun.
    repeat case_decide; simplify_eq; simpl; auto.
    destruct (playerAttack_frame _ _ Hrun) as (_ & _ & ? & ? & ? & _).
    pose proof (playerAttack_enemy _ _ Hrun). auto.
  - simplify_eq. unfold keyup. repeat case_decide; simpl; auto.
  - unfold animate in Hrun.
    destruct (decide (0 < playerHealth s)); [lia|]. simplify_eq. auto.
Qed.

(** Game over is final until R is pressed: while the player's health is 0,
    no key other than R and no frame changes the player's health or
    position or lets the enemy attack or move; only the space key can still
    remove the enemy. *)
Theorem game_over_freezes
  (rand : nat → Q) (sqrt : Q → Q) (evs : list Event) (s s' : Session) :
  playerHealth s ≤ 0 →
  Forall notRestart evs →
  run rand sqrt evs s = Some s' →
  playerHealth s' = playerHealth s ∧ playerMesh s' = playerMesh s ∧
  lastEnemyAttackTime s' = lastEnemyAttackTime s ∧
  (enemyMesh s' = enemyMesh s ∨ enemyMesh s' = None).
Proof.
  intros Hover Hevs. revert s Hover.
  induction Hevs as [|ev evs Hev _ IH]; intros s Hover Hrun; simpl in Hrun;
    [simplify_eq; auto|].
  destruct (handle rand sqrt ev s) as [s1|] eqn:Hstep; [|done].
  destruct (handle_game_over _ _ _ _ _ Hover Hev Hstep) as (H1 & H2 & H3 & H4).
  destruct (IH s1) as (I1 & I2 & I3 & I4); [lia|done|].
  rewrite I1, I2, I3, H1, H2, H3. repeat split.
  destruct I4 as [I4|I4]; rewrite I4; auto.
Qed.

Lemma game_over_freezes_witness :
  ∃ s0 s s', startup randA = Some s0 ∧
    run randA sqrtA (hits 10) s0 = Some s ∧
    run randA sqrtA [KeyDown "w"; Frame (1 # 2) 30000; KeyUp "w"] s = Some s' ∧
    playerHealth s ≤ 0 ∧
    playerHealth s' = playerHealth s ∧ playerMesh s' = playerMesh s.
Proof.
  destruct (startup_spec randA unitRand_randA) as (s0 & _ & _ & _ & _ & Hs0 & _).
  destruct (run_returns randA sqrtA (hits 10) s0
              unitRand_randA (startup_inv randA s0 Hs0)) as [s Hs].
  pose proof (run_inv randA sqrtA _ s0 s (startup_inv randA s0 Hs0) Hs) as Hinv.
  destruct (run_returns randA sqrtA
              [KeyDown "w"; Frame (1 # 2) 30000; KeyUp "w"] s
              unitRand_randA Hinv) as [s' Hs'].
  assert (playerHealth <$> sessionA (hits 10) = Some 0) as Hc
    by (vm_compute; reflexivity).
  unfold sessionA in Hc. rewrite Hs0 in Hc.
  change (playerHealth <$> run randA sqrtA (hits 10) s0 = Some 0) in Hc.
  rewrite Hs in Hc. injection Hc as Hc.
  assert (playerHealth s ≤ 0) as Hover by lia.
  destruct (game_over_freezes randA sqrtA
              [KeyDown "w"; Frame (1 # 2) 30000; KeyUp "w"] s s' Hover)
    as (H1 & H2 & _); [|exact Hs'|].
  { repeat constructor; simpl; unfold not; intros Hin;
      apply list_elem_of_In in Hin; simpl in Hin; intuition discriminate. }
  exists s0, s, s'. repeat split; assumption.
Defined.

(** Releasing a movement key after pressing it leaves the session as
    releasing it alone would: the press is undone, and a key that the
    handlers do not know changes nothing. *)
Theorem keyup_after_keydown (rand : nat → Q) (key : string) (s s' : Session) :
  key ≠ " " →
  key ∉ ["r"; "R"] →
  keydown rand key s = Some s' →
  keyup key s' = keyup key s.
Proof.
  intros Hspace Hr Hrun. unfold keydown in Hrun. unfold keyup.
  repeat case_decide; simplify_eq; done.
Qed.

Lemma keyup_after_keydown_witness :
  ∃ s s', startup randA = Some s ∧ keydown randA "ArrowUp" s = Some s' ∧
          up (keys s') = true ∧ keyup "ArrowUp" s' = keyup "ArrowUp" s.
Proof.
  destruct (startup_spec randA unitRand_randA) as (s & _ & _ & _ & _ & Hs & _).
  exists s, (set_keys (mkKeys true (down (keys s)) (left (keys s))
                         (right (keys s))) s).
  split; [exact Hs|]. split; [reflexivity|]. split; [reflexivity|].
  apply (keyup_after_keydown randA "ArrowUp" s); [discriminate| |reflexivity].
  intros Hin. apply list_elem_of_In in Hin. simpl in Hin. intuition discriminate.
Defined.

(** The outcomes of [enemyAttack], in terms of the value [distSq] that the
    code compares with its range. *)
Lemma enemyAttack_outcomes (now : Q) (s : Session) (p : Vec) :
  playerMesh s = Some p →
  ∃ s', enemyAttack now s = Some s' ∧
    (s' ≠ s ↔
       ∃ e, enemyMesh s = Some e ∧ (distSq p e <= 1 * 1)%Q ∧
            (ATTACK_INTERVAL < now - lastEnemyAttackTime s)%Q) ∧
    (s' ≠ s →
       playerHealth s' = Z.max 0 (playerHealth s - ENEMY_DAMAGE) ∧
       lastEnemyAttackTime s' = now ∧
       (playerHealth s ≤ ENEMY_DAMAGE → gameOverShown s' = true)) ∧
    (¬ (∃ e, enemyMesh s = Some e ∧ (distSq p e <= 1 * 1)%Q ∧
             (ATTACK_INTERVAL < now - lastEnemyAttackTime s)%Q) →
     s' = s).
Proof.
  intros Hp. unfold enemyAttack. rewrite Hp.
  destruct (enemyMesh s) as [e|] eqn:He.
  2:{ exists s. split; [done|]. split; [|done].
      split; [done|]. by intros (e & ? & _). }
  cbv zeta.
  destruct (Qle_bool (distSq p e) (1 * 1)) eqn:Hrange.
  2:{ exists s. split; [done|]. split; [|done]. split; [done|].
      intros (e' & ? & Hle & _). simplify_eq.
      apply Qle_bool_iff in Hle. congruence. }
  destruct (Qlt_le_dec ATTACK_INTERVAL (now - lastEnemyAttackTime s))
    as [Hcool|Hcool].
  2:{ exists s. split; [done|]. split; [|done]. split; [done|].
      intros (e' & _ & _ & Hlt). exfalso. by eapply Qlt_not_le. }
  apply Qle_bool_iff in Hrange.
  assert (now ≠ lastEnemyAttackTime s) as Hnow.
  { intros Heq. rewrite Heq in Hcool. unfold ATTACK_INTERVAL in Hcool. lra. }
  destruct (decide (playerHealth s - ENEMY_DAMAGE ≤ 0)); eexists;
    (split; [done|]); simpl.
  - split; [|split; [intros _; repeat split; lia|]].
    + split; [intros _; by exists e|]. intros _ Heq.
      apply (f_equal lastEnemyAttackTime) in Heq. by simpl in Heq.
    + intros Hn. exfalso. apply Hn. by exists e.
  - split; [|split; [intros _; unfold ENEMY_DAMAGE in *; repeat split; lia|]].
    + split; [intros _; by exists e|]. intros _ Heq.
      apply (f_equal lastEnemyAttackTime) in Heq. by simpl in Heq.
    + intros Hn. exfalso. apply Hn. by exists e.
Qed.

(** [enemyAttack] hits exactly when the enemy exists, the squared distance
    in the plane between enemy and player is at most 1 squared, and more
    than [ATTACK_INTERVAL] ms have passed since the last hit; a hit takes 10
    off the player's health, sets it to 0 and shows the game-over text when
    that brings it to 0 or less, and stamps the time; otherwise nothing
    changes. *)
Theorem enemyAttack_lands_iff (now : Q) (s : Session) (p : Vec) :
  playerMesh s = Some p →
  ∃ s', enemyAttack now s = Some s' ∧
    (s' ≠ s ↔
       ∃ e, enemyMesh s = Some e ∧ (planarDistSq p e <= 1 ^ 2)%Q ∧
            (ATTACK_INTERVAL < now - lastEnemyAttackTime s)%Q) ∧
    (s' ≠ s →
       playerHealth s' = Z.max 0 (playerHealth s - ENEMY_DAMAGE) ∧
       lastEnemyAttackTime s' = now ∧
       (playerHealth s ≤ ENEMY_DAMAGE → gameOverShown s' = true)) ∧
    (¬ (∃ e, enemyMesh s = Some e ∧ (planarDistSq p e <= 1 ^ 2)%Q ∧
             (ATTACK_INTERVAL < now - lastEnemyAttackTime s)%Q) →
     s' = s).
Proof.
  intros Hp.
  destruct (enemyAttack_outcomes now s p Hp) as (s' & Hrun & Hiff & Hhit & Hmiss).
  assert ((∃ e, enemyMesh s = Some e ∧ (distSq p e <= 1 * 1)%Q ∧
                (ATTACK_INTERVAL < now - lastEnemyAttackTime s)%Q) ↔
          (∃ e, enemyMesh s = Some e ∧ (planarDistSq p e <= 1 ^ 2)%Q ∧
                (ATTACK_INTERVAL < now - lastEnemyAttackTime s)%Q)) as Hsame.
  { split; intros (e & He & Hd & Hc); exists e; (split; [exact He|]);
      (split; [|exact Hc]).
    - rewrite <- distSq_planar. exact Hd.
    - rewrite distSq_planar. exact Hd. }
  exists s'. split; [exact Hrun|]. split; [|split; [exact Hhit|]].
  - rewrite Hiff. exact Hsame.
  - intros Hn. apply Hmiss. intros Hc. apply Hn, Hsame, Hc.
Qed.

(** The player of [sessionA] has walked down to z = 3.2 and the enemy has
    followed to z = 2.6, at distance 0.6: 1001 ms after the time stamp its
    attack lands.  In the session of [randB] the enemy starts at (11, 11),
    at squared distance 162 of the player at (2, 2): its attack changes
    nothing. *)
Lemma enemyAttack_lands_iff_witness :
  ∃ s s' sB,
    sessionA [KeyDown "s"; Frame (2 # 5) 0; KeyUp "s"] = Some s ∧
    playerMesh s = Some (mkVec 2 (16000000 # 5000000)) ∧
    enemyMesh s
      = Some (mkVec 2 (3900000000000000000000000000
                         # 1500000000000000000000000000)) ∧
    (planarDistSq (mkVec 2 (16000000 # 5000000))
       (mkVec 2 (3900000000000000000000000000
                   # 1500000000000000000000000000)) == 9 # 25)%Q ∧
    enemyAttack 1001 s = Some s' ∧ playerHealth s' = 90 ∧
    lastEnemyAttackTime s' = 1001%Q ∧
    startup randB = Some sB ∧
    playerMesh sB = Some (mkVec 2 2) ∧ enemyMesh sB = Some (mkVec 11 11) ∧
    (planarDistSq (mkVec 2 2) (mkVec 11 11) == 162)%Q ∧
    enemyAttack 1001 sB = Some sB.
Proof.
  assert (is_Some (sessionA [KeyDown "s"; Frame (2 # 5) 0; KeyUp "s"]))
    as [s Hs].
  { apply (bool_decide_unpack _). vm_compute. reflexivity. }
  assert ((λ s, (playerMesh s, enemyMesh s, lastEnemyAttackTime s,
                 playerHealth s))
            <$> sessionA [KeyDown "s"; Frame (2 # 5) 0; KeyUp "s"]
          = Some (Some (mkVec 2 (16000000 # 5000000)),
                  Some (mkVec 2 (3900000000000000000000000000
                                   # 1500000000000000000000000000)),
                  0%Q, 100)) as Hc by (vm_compute; reflexivity).
  rewrite Hs in Hc. injection Hc as Hp He Hlast Hh.
  assert (is_Some (startup randB)) as [sB HsB].
  { apply (bool_decide_unpack _). vm_compute. reflexivity. }
  assert ((λ s, (playerMesh s, enemyMesh s)) <$> startup randB
          = Some (Some (mkVec 2 2), Some (mkVec 11 11))) as HcB
    by (vm_compute; reflexivity).
  rewrite HsB in HcB. injection HcB as HpB HeB.
  destruct (enemyAttack_lands_iff 1001 s _ Hp) as (s' & Hatt & Hiff & Hhit & _).
  assert (s' ≠ s) as Hne.
  { apply Hiff. eexists. split; [exact He|].
    split; [by apply Qle_bool_iff|]. rewrite Hlast. reflexivity. }
  destruct (Hhit Hne) as (Hnew & Hstamp & _).
  destruct (enemyAttack_lands_iff 1001 sB _ HpB) as (sB' & HattB & _ & _ & HmissB).
  assert (sB' = sB) as HsameB.
  { apply HmissB. intros (e & He' & Hd & _). rewrite HeB in He'.
    injection He' as <-. revert Hd. by apply Qlt_not_le. }
  rewrite HsameB in HattB.
  exists s, s', sB. split; [exact Hs|]. split; [exact Hp|]. split; [exact He|].
  split; [reflexivity|]. split; [exact Hatt|].
  split; [rewrite Hnew, Hh; reflexivity|]. split; [exact Hstamp|].
  split; [exact HsB|]. split; [exact HpB|]. split; [exact HeB|].
  split; [reflexivity|exact HattB].
Defined.

(** R restarts only when the game is over.  The key, [r] or [R], is ignored
    while the player's health is above 0; at health 0 it draws a new dungeon
    and puts the player, with full health, on the center of its first room
    and a new enemy on the center of its last room, both Floor cells of the
    grid whose walls are built, and hides the game-over text.  The grid read
    by the collision checks stays the old one. *)
Theorem restart_places_actors (rand : nat → Q) (key : string) (s s' : Session) :
  unitRand rand →
  key = "r" ∨ key = "R" →
  keydown rand key s = Some s' →
  (0 < playerHealth s → s' = s) ∧
  (playerHealth s ≤ 0 →
     ∃ d k c1 c2,
       generateDungeon rand DUNGEON_WIDTH DUNGEON_HEIGHT MAX_ROOMS
         ROOM_MIN_SIZE ROOM_MAX_SIZE (drawn s) = Some (d, k) ∧
       head (rooms d) = Some c1 ∧ last (rooms d) = Some c2 ∧
       builtGrid s' = grid d ∧ drawn s' = k ∧
       playerMesh s' = Some (atCenter c1) ∧
       enemyMesh s' = Some (atCenter c2) ∧
       onFloor (grid d) (atCenter c1) ∧ onFloor (grid d) (atCenter c2) ∧
       playerHealth s' = PLAYER_MAX_HEALTH ∧
       enemyHealth s' = ENEMY_MAX_HEALTH ∧
       gameOverShown s' = false ∧
       dungeonGrid s' = dungeonGrid s).
Proof.
  intros Hunit Hkey Hrun.
  assert (keydown rand key s
          = if decide (playerHealth s ≤ 0) then restartGame rand s else Some s)
    as Hdown by (by destruct Hkey as [-> | ->]).
  rewrite Hdown in Hrun. clear Hdown.
  destruct (decide (playerHealth s ≤ 0)) as [Hover|Halive].
  - split; [lia|]. intros _.
    apply restartGame_spec in Hrun as (d & k & c1 & c2 & Hgen & H1 & H2 & ->).
    destruct (generated rand Hunit (drawn s))
      as (d' & k' & c1' & c2' & Hgen' & H1' & H2' & _ & F1 & F2).
    rewrite Hgen in Hgen'. simplify_eq.
    exists d', k', c1, c2. simpl. unfold onFloor, atCenter. simpl.
    rewrite !cellOf_inject_Z. repeat split; done.
  - simplify_eq. split; [done|lia].
Qed.

(** In the session of [randA] the key [R] is ignored at the start, and so
    is [r]; after ten hits of the enemy either key restarts the game. *)
Lemma restart_places_actors_witness :
  ∃ s0 s s1 s2,
    sessionA [] = Some s0 ∧
    keydown randA "R" s0 = Some s0 ∧ keydown randA "r" s0 = Some s0 ∧
    sessionA (hits 10) = Some s ∧ playerHealth s ≤ 0 ∧
    keydown randA "R" s = Some s1 ∧ keydown randA "r" s = Some s2 ∧
    playerHealth s1 = PLAYER_MAX_HEALTH ∧ playerHealth s2 = PLAYER_MAX_HEALTH ∧
    gameOverShown s1 = false ∧ gameOverShown s2 = false ∧
    dungeonGrid s1 = dungeonGrid s ∧ dungeonGrid s2 = dungeonGrid s.
Proof.
  assert (is_Some (sessionA [])) as [s0 Hs0].
  { apply (bool_decide_unpack _). vm_compute. reflexivity. }
  assert (is_Some (sessionA [] ≫= keydown randA "R")) as [s01 Hs01].
  { apply (bool_decide_unpack _). vm_compute. reflexivity. }
  assert (is_Some (sessionA [] ≫= keydown randA "r")) as [s02 Hs02].
  { apply (bool_decide_unpack _). vm_compute. reflexivity. }
  assert (playerHealth <$> sessionA [] = Some 100) as Hc0
    by (vm_compute; reflexivity).
  rewrite Hs0 in Hc0, Hs01, Hs02. injection Hc0 as Hc0.
  change (keydown randA "R" s0 = Some s01) in Hs01.
  change (keydown randA "r" s0 = Some s02) in Hs02.
  assert (is_Some (sessionA (hits 10))) as [s Hs].
  { apply (bool_decide_unpack _). vm_compute. reflexivity. }
  assert (is_Some (sessionA (hits 10) ≫= keydown randA "R")) as [s1 Hs1].
  { apply (bool_decide_unpack _). vm_compute. reflexivity. }
  assert (is_Some (sessionA (hits 10) ≫= keydown randA "r")) as [s2 Hs2].
  { apply (bool_decide_unpack _). vm_compute. reflexivity. }
  assert (playerHealth <$> sessionA (hits 10) = Some 0) as Hc
    by (vm_compute; reflexivity).
  rewrite Hs in Hc, Hs1, Hs2. injection Hc as Hc.
  change (keydown randA "R" s = Some s1) in Hs1.
  change (keydown randA "r" s = Some s2) in Hs2.
  assert (playerHealth s ≤ 0) as Hover by lia.
  destruct (restart_places_actors randA "R" s0 s01 unitRand_randA
              (or_intror eq_refl) Hs01) as [Hsame1 _].
  destruct (restart_places_actors randA "r" s0 s02 unitRand_randA
              (or_introl eq_refl) Hs02) as [Hsame2 _].
  rewrite Hsame1 in Hs01 by lia. rewrite Hsame2 in Hs02 by lia.
  destruct (restart_places_actors randA "R" s s1 unitRand_randA
              (or_intror eq_refl) Hs1) as [_ Hre1].
  destruct (restart_places_actors randA "r" s s2 unitRand_randA
              (or_introl eq_refl) Hs2) as [_ Hre2].
  destruct (Hre1 Hover)
    as (d1 & k1 & c1 & c1' & _ & _ & _ & _ & _ & _ & _ & _ & _ & Hh1 & _ & Hg1 & Hd1).
  destruct (Hre2 Hover)
    as (d2 & k2 & c2 & c2' & _ & _ & _ & _ & _ & _ & _ & _ & _ & Hh2 & _ & Hg2 & Hd2).
  exists s0, s, s1, s2. repeat split; assumption.
Defined.

(** ** Placement of the actors *)




(** ** The grid keeps its dimensions *)

Lemma wallRow_cells width x : is_Some (wallRow width !! x) ↔ 0 ≤ x < width.
Proof.
  unfold wallRow. rewrite <- elem_of_range.
  assert (∀ (l : list Z) (row : gmap Z Cell),
            is_Some (foldl (λ row x, <[x := Wall]> row) row l !! x) ↔
            is_Some (row !! x) ∨ x ∈ l) as H.
  { induction l as [|v l IH]; intros row; simpl.
    - rewrite elem_of_nil. tauto.
    - rewrite IH, elem_of_cons. destruct (decide (v = x)) as [->|Hne].
      + rewrite lookup_insert_eq. split; [intros _; right; by left|].
        intros _. left. eauto.
      + rewrite lookup_insert_ne by done. split; [tauto|].
        intros [?|[?|?]]; [tauto|congruence|tauto]. }
  rewrite H, lookup_empty. split; [intros [[? ?]|?]; done|tauto].
Qed.

Lemma initGrid_row width height y row :
  initGrid width height !! y = Some row → row = wallRow width.
Proof.
  unfold initGrid. generalize (range 0 height). intros l.
  assert (∀ (g : Grid),
            (∀ row, g !! y = Some row → row = wallRow width) →
            ∀ row, foldl (λ g y, <[y := wallRow width]> g) g l !! y = Some row →
                   row = wallRow width) as H.
  { induction l as [|v l IH]; intros g Hg row'; simpl; [apply Hg|].
    apply IH. intros row''. destruct (decide (v = y)) as [->|].
    - rewrite lookup_insert_eq. congruence.
    - rewrite lookup_insert_ne by done. apply Hg. }
  apply H. intros row'. by rewrite lookup_empty.
Qed.

(** Lines 127-133 build a [height] by [width] grid. *)
Lemma initGrid_shaped width height : shaped width height (initGrid width height).
Proof.
  intros y. destruct (initGrid width height !! y) as [row|] eqn:Hrow.
  - split; [apply (initGrid_rows width); by rewrite Hrow|].
    apply initGrid_row in Hrow as ->. apply wallRow_cells.
  - intros Hy. apply (initGrid_rows width) in Hy. rewrite Hrow in Hy.
    by destruct Hy.
Qed.

(** A write inside the grid keeps its dimensions. *)
Lemma writeCell_shaped width height g y x v g' :
  shaped width height g → 0 ≤ x < width →
  writeCell g y x v = Some g' → shaped width height g'.
Proof.
  intros Hg Hx Hw. unfold writeCell in Hw.
  destruct (g !! y) as [row|] eqn:Hrow; [|done]. simplify_eq.
  intros y'. destruct (decide (y = y')) as [<-|Hne].
  - rewrite lookup_insert_eq. specialize (Hg y). rewrite Hrow in Hg.
    destruct Hg as [Hy Hcells]. split; [done|]. intros x'.
    destruct (decide (x = x')) as [<-|Hnx].
    + rewrite lookup_insert_eq. split; [done|eauto].
    + rewrite lookup_insert_ne by done. apply Hcells.
  - rewrite lookup_insert_ne by done. apply Hg.
Qed.

Lemma carveH_shaped width height y x1 x2 g g' :
  shaped width height g → 0 ≤ Z.min x1 x2 → Z.max x1 x2 < width →
  carveH y x1 x2 g = Some g' → shaped width height g'.
Proof.
  intros Hg Hlo Hhi. unfold carveH. apply forEach_inv; [done|].
  intros x t t' Hx%elem_of_rangeIncl Ht. apply writeCell_shaped; [done|lia].
Qed.

Lemma carveV_shaped width height x y1 y2 g g' :
  shaped width height g → 0 ≤ x < width →
  carveV x y1 y2 g = Some g' → shaped width height g'.
Proof.
  intros Hg Hx. unfold carveV. apply forEach_inv; [done|].
  intros y t t' _ Ht. by apply writeCell_shaped.
Qed.

Lemma carveRoom_shaped width height x y w h g g' :
  shaped width height g → 0 ≤ x → x + w ≤ width →
  carveRoom x y w h g = Some g' → shaped width height g'.
Proof.
  intros Hg Hlo Hhi. unfold carveRoom. apply forEach_inv; [done|].
  intros yy t t' _ Ht. apply forEach_inv; [done|].
  intros xx u u' Hxx%elem_of_range Hu. apply writeCell_shaped; [done|lia].
Qed.

Section Shape.
Variable rand : nat → Q.
Variables width height roomMin roomMax : Z.
Hypothesis Hunit : unitRand rand.
Hypothesis Hfit : roomsFit width height roomMin roomMax.

Lemma placeRoom_shaped st st' :
  shaped width height (g_grid st) →
  placeRoom rand width height roomMin roomMax st = Some st' →
  shaped width height (g_grid st').
Proof.
  intros Hg Hrun.
  destruct (placeRoom_cases _ _ _ _ _ _ _ Hrun)
    as [_ [(-> & _)|(_ & Hcarve & _)]]; [done|].
  pose proof (candidate_roomRect rand width height roomMin roomMax
                (g_drawn st) Hunit Hfit) as Hr.
  unfold roomRect in Hr.
  eapply carveRoom_shaped; [exact Hg| | |exact Hcarve]; lia.
Qed.

Lemma connectRooms_shaped i st st' :
  shaped width height (g_grid st) →
  (∀ c, c ∈ g_rooms st → interior width height (cx c) (cy c)) →
  connectRooms rand i st = Some st' →
  shaped width height (g_grid st').
Proof.
  intros Hg Hcenters Hrun. unfold connectRooms in Hrun.
  destruct (g_rooms st !! (i - 1)%nat) as [c1|] eqn:H1; [|done].
  destruct (g_rooms st !! i) as [c2|] eqn:H2; [|done].
  cbv zeta in Hrun.
  pose proof (Hcenters c1 (list_elem_of_lookup_2 _ _ _ H1)) as I1.
  pose proof (Hcenters c2 (list_elem_of_lookup_2 _ _ _ H2)) as I2.
  unfold interior in I1, I2.
  destruct (Qlt_le_dec (rand (g_drawn st)) (1 # 2)).
  - destruct (carveH (cy c1) (cx c1) (cx c2) (g_grid st)) as [g1|] eqn:Hh;
      [|done].
    destruct (carveV (cx c2) (cy c1) (cy c2) g1) as [g2|] eqn:Hv; [|done].
    simplify_eq. simpl.
    eapply carveV_shaped; [| |exact Hv]; [|lia].
    eapply carveH_shaped; [exact Hg| | |exact Hh]; lia.
  - destruct (carveV (cx c1) (cy c1) (cy c2) (g_grid st)) as [g1|] eqn:Hv;
      [|done].
    destruct (carveH (cy c2) (cx c1) (cx c2) g1) as [g2|] eqn:Hh; [|done].
    simplify_eq. simpl.
    eapply carveH_shaped; [| | |exact Hh]; [|lia..].
    eapply carveV_shaped; [exact Hg| |exact Hv]; lia.
Qed.

Lemma generateRun_shaped maxRooms k st :
  generateRun rand width height maxRooms roomMin roomMax k = Some st →
  shaped width height (g_grid st).
Proof.
  unfold generateRun. intros Hrun.
  destruct (placeRooms _ _ _ _ _ _ _) as [st0|] eqn:Hplace; [|done].
  assert (shaped width height (g_grid st0) ∧ placedInv st0 ∧
          genInv width height roomMin roomMax st0) as (Hs0 & Hp0 & Hg0).
  { revert Hplace. unfold placeRooms.
    apply (forEach_inv (λ t, shaped width height (g_grid t) ∧ placedInv t ∧
                             genInv width height roomMin roomMax t)).
    - split; [apply initGrid_shaped|].
      split; [apply placedInv_init|by apply genInv_init].
    - intros _ t t' _ (Hs & Hp & Hg) Ht.
      split; [by eapply placeRoom_shaped|]. split; [by eapply placeRoom_inv|].
      destruct (placeRoom_returns rand width height roomMin roomMax Hunit Hfit
                  t Hg) as (t'' & Ht'' & Hg'').
      rewrite Ht in Ht''. by simplify_eq. }
  unfold connectAll in Hrun.
  destruct (decide (1 < length (g_rooms st0))%nat); [|by simplify_eq].
  apply (forEach_inv (λ t, shaped width height (g_grid t) ∧
                           g_rooms t = g_rooms st0)) in Hrun as [? _];
    [done|done|].
  intros i t t' _ [Hs Hr] Ht. split.
  - eapply connectRooms_shaped; [exact Hs| |exact Ht].
    rewrite Hr. intros c Hc.
    by apply (centers_interior width height roomMin roomMax Hfit st0 c).
  - destruct (connectRooms_spec _ _ _ _ Ht) as ((-> & _) & _). done.
Qed.

End Shape.

(** The generator never writes outside of the grid: with values of
    [Math.random] in [0, 1) and rooms that fit, every cell
    [(x, y)] with [0 <= x < width] and [0 <= y < height] of the returned grid
    is Wall or Floor, and the grid has no other row and no other cell. *)
Theorem grid_keeps_dimensions
  rand width height maxRooms roomMin roomMax k d k' (x y : Z) :
  unitRand rand →
  roomsFit width height roomMin roomMax →
  generateDungeon rand width height maxRooms roomMin roomMax k = Some (d, k') →
  readCell (grid d) y x =
    if bool_decide (0 ≤ y < height) then
      if bool_decide (0 ≤ x < width) then
        Some (Some (if isFloor (grid d) x y then Floor else Wall))
      else Some None
    else None.
Proof.
  intros Hunit Hfit Hgen. unfold generateDungeon in Hgen.
  destruct (generateRun _ _ _ _ _ _ _) as [st|] eqn:Hrun; [|done].
  simplify_eq. simpl.
  pose proof (generateRun_shaped rand width height roomMin roomMax Hunit Hfit
                maxRooms k st Hrun y) as Hshape.
  unfold readCell, isFloor.
  destruct (g_grid st !! y) as [row|]; [destruct Hshape as [Hy Hcells]|].
  - rewrite bool_decide_eq_true_2 by done.
    destruct (decide (0 ≤ x < width)) as [Hx|Hx].
    + rewrite bool_decide_eq_true_2 by done.
      apply Hcells in Hx as [c Hc]. rewrite Hc.
      destruct c; [by rewrite bool_decide_eq_false_2|
                   by rewrite bool_decide_eq_true_2].
    + rewrite bool_decide_eq_false_2 by done. f_equal.
      apply eq_None_not_Some. by rewrite Hcells.
  - by rewrite bool_decide_eq_false_2.
Qed.

Lemma grid_keeps_dimensions_witness :
  ∃ d k', generateDungeon randB 30 30 6 3 6 0 = Some (d, k') ∧
          readCell (grid d) 0 30 = Some None ∧
          readCell (grid d) 30 0 = None.
Proof.
  assert (is_Some (generateDungeon randB 30 30 6 3 6 0)) as [[d k'] Hgen].
  { apply (bool_decide_unpack _). vm_compute. reflexivity. }
  exists d, k'. split; [exact Hgen|]. split.
  - apply (grid_keeps_dimensions randB 30 30 6 3 6 0 d k' 30 0 unitRand_randB);
      [unfold roomsFit; lia|exact Hgen].
  - apply (grid_keeps_dimensions randB 30 30 6 3 6 0 d k' 0 30 unitRand_randB);
      [unfold roomsFit; lia|exact Hgen].
Defined.

(** Every carved room has a width and a height between [roomMin] and
    [roomMax] and keeps at least one cell away from each side of the grid. *)
Theorem rooms_have_size_and_border
  rand width height maxRooms roomMin roomMax k st r :
  unitRand rand →
  roomsFit width height roomMin roomMax →
  generateRun rand width height maxRooms roomMin roomMax k = Some st →
  r ∈ g_accepted st →
  roomMin ≤ rw r ≤ roomMax ∧ roomMin ≤ rh r ≤ roomMax ∧
  1 ≤ rx r ∧ rx r + rw r ≤ width - 1 ∧
  1 ≤ ry r ∧ ry r + rh r ≤ height - 1.
Proof.
  intros Hunit Hfit Hrun Hr.
  destruct (generateRun_returns rand width height roomMin roomMax Hunit Hfit
              maxRooms k) as (st' & Hrun' & _ & [_ _ Hrects]).
  rewrite Hrun in Hrun'. simplify_eq. by apply Hrects.
Qed.

Lemma rooms_have_size_and_border_witness :
  ∃ st, generateRun randB 30 30 6 3 6 0 = Some st ∧
        mkRect 21 12 5 6 ∈ g_accepted st ∧
        3 ≤ 5 ≤ 6 ∧ 3 ≤ 6 ≤ 6 ∧ 1 ≤ 21 ∧ 21 + 5 ≤ 30 - 1 ∧
        1 ≤ 12 ∧ 12 + 6 ≤ 30 - 1.
Proof.
  assert (is_Some (generateRun randB 30 30 6 3 6 0)) as [st Hrun].
  { apply (bool_decide_unpack _). vm_compute. reflexivity. }
  assert (g_accepted <$> generateRun randB 30 30 6 3 6 0
          = Some [mkRect 1 1 3 3; mkRect 21 12 5 6; mkRect 9 9 4 4]) as Hc
    by (vm_compute; reflexivity).
  rewrite Hrun in Hc. injection Hc as Hc.
  assert (mkRect 21 12 5 6 ∈ g_accepted st) as Hin.
  { rewrite Hc. apply list_elem_of_In. simpl. tauto. }
  exists st. split; [exact Hrun|]. split; [exact Hin|].
  apply (rooms_have_size_and_border randB 30 30 6 3 6 0 st (mkRect 21 12 5 6)
           unitRand_randB); [unfold roomsFit; lia|exact Hrun|exact Hin].
Defined.

(** Opposite keys cancel: while up and down are both held or both
    released, and left and right likewise, a frame does not move the
    player. *)
Theorem opposite_keys_cancel
  (sqrt : Q → Q) (deltaTime : Q) (g : Grid) (k : Keys) (p : Vec) :
  up k = down k →
  left k = right k →
  movePlayer sqrt deltaTime g k p = p.
Proof.
  destruct k as [u d l r]. simpl. intros -> ->.
  by destruct d, r.
Qed.

(** In the room of [sessionA], in a frame of 0.4 s, the player at (2, 2)
    moves to (2, 0.8) when up is held and to (2, 3.2) when down is held, and
    stays at (2, 2) when both are. *)
Lemma opposite_keys_cancel_witness :
  ∃ s,
    sessionA [] = Some s ∧
    playerMesh s = Some (mkVec 2 2) ∧
    movePlayer sqrtA (2 # 5) (dungeonGrid s) (mkKeys true false false false)
      (mkVec 2 2) = mkVec 2 (4000000 # 5000000) ∧
    movePlayer sqrtA (2 # 5) (dungeonGrid s) (mkKeys false true false false)
      (mkVec 2 2) = mkVec 2 (16000000 # 5000000) ∧
    movePlayer sqrtA (2 # 5) (dungeonGrid s) (mkKeys true true false false)
      (mkVec 2 2) = mkVec 2 2.
Proof.
  assert (is_Some (sessionA [])) as [s Hs].
  { apply (bool_decide_unpack _). vm_compute. reflexivity. }
  assert ((λ s, (playerMesh s,
                 movePlayer sqrtA (2 # 5) (dungeonGrid s)
                   (mkKeys true false false false) (mkVec 2 2),
                 movePlayer sqrtA (2 # 5) (dungeonGrid s)
                   (mkKeys false true false false) (mkVec 2 2)))
            <$> sessionA []
          = Some (Some (mkVec 2 2), mkVec 2 (4000000 # 5000000),
                  mkVec 2 (16000000 # 5000000))) as Hc
    by (vm_compute; reflexivity).
  rewrite Hs in Hc. injection Hc as Hp Hup Hdown.
  exists s. split; [exact Hs|]. split; [exact Hp|]. split; [exact Hup|].
  split; [exact Hdown|].
  apply (opposite_keys_cancel sqrtA (2 # 5) (dungeonGrid s)
           (mkKeys true true false false) (mkVec 2 2)); reflexivity.
Defined.
